(** * deepsolv: a shallow embedding of the storefront extraction pipeline

    The development follows the layout of the Python sources:
    - [Py]                 the fragment of Python's data, string and float model the code relies on;
    - [HttpClient]         app/utils/http_client.py  (retry loop of the fetcher);
    - [Validators]         app/utils/validators.py;
    - [LLMProcessor]       app/utils/llm_processor.py;
    - [Extractors]         app/services/extractors.py;
    - [Scraper]            app/services/scraper.py   (the orchestrator);
    - [CompetitorAnalyzer] app/services/competitor_analyzer.py;
    - [Routes]             app/api/routes/insights.py (the data-point count).

    Part I holds the embedding, Part II the terms in which the facts are
    stated together with sample stores, Part III the facts, one module per
    source module. *)

From Stdlib Require Import ZArith QArith Qpower String Ascii List Bool Lia Lqa DecimalString SpecFloat.
From stdpp Require Import base option list gmap sets strings.

Import ListNotations.
Set Warnings "-register-all".
Local Open Scope string_scope.
Local Open Scope list_scope.
Local Open Scope Z_scope.

(* ===================================================================== *)
(** * Part I: the embedding                                              *)
(* ===================================================================== *)

(** ** Python values, exceptions and string primitives *)
Module Py.

(** The exception classes the modelled code distinguishes.  All of them
    derive from Python's [Exception]. *)
Inductive exn : Type :=
| TimeoutError        (* asyncio.TimeoutError *)
| JSONDecodeError     (* json.JSONDecodeError *)
| TypeError
| AttributeError
| ValidationError     (* pydantic *)
| ClientError (msg : string).  (* any other Exception, e.g. aiohttp.ClientError *)

(** The outcome of evaluating a Python expression that may raise. *)
Inductive result (A : Type) : Type :=
| Ok (a : A)
| Raise (e : exn).
Arguments Ok {A} a.
Arguments Raise {A} e.

Definition bind {A B} (r : result A) (k : A -> result B) : result B :=
  match r with
  | Ok a => k a
  | Raise e => Raise e
  end.

Definition is_raise {A} (r : result A) : bool :=
  match r with Ok _ => false | Raise _ => true end.

(** [range(n)] for a Python int [n]: empty when [n <= 0]. *)
Definition range (n : Z) : list Z :=
  map Z.of_nat (seq 0 (Z.to_nat n)).

(** *** str methods

    A str is a sequence of code points below 256. *)

(** [s.startswith(p)]. *)
Definition startswith (s p : string) : bool := String.prefix p s.

(** [s.rstrip(c)] for a one-character argument: every trailing [c] goes. *)
Fixpoint rstrip_char (c : ascii) (s : string) : string :=
  match s with
  | EmptyString => EmptyString
  | String a s' =>
      match rstrip_char c s' with
      | EmptyString => if Ascii.eqb a c then EmptyString else String a EmptyString
      | t => String a t
      end
  end.

(** [s.endswith(c)] for a one-character argument. *)
Fixpoint endswith_char (c : ascii) (s : string) : bool :=
  match s with
  | EmptyString => false
  | String a EmptyString => Ascii.eqb a c
  | String _ s' => endswith_char c s'
  end.

(** [c * n] for a one-character string [c]. *)
Fixpoint repeat_char (c : ascii) (n : nat) : string :=
  match n with
  | O => EmptyString
  | S n' => String c (repeat_char c n')
  end.

(** The classes below are the restrictions of Python's [str.isspace]
    (also the regular expression class [\s]), [\d], [[A-Z]], [[a-z]] and
    [str.lower] to code points below 256. *)
Definition code (c : ascii) : nat := nat_of_ascii c.

Definition is_space (c : ascii) : bool :=
  let n := code c in
  ((9 <=? n) && (n <=? 13) || (28 <=? n) && (n <=? 32)
   || (n =? 133) || (n =? 160))%nat.

Definition is_digit (c : ascii) : bool :=
  let n := code c in ((48 <=? n) && (n <=? 57))%nat.

Definition is_upper (c : ascii) : bool :=
  let n := code c in ((65 <=? n) && (n <=? 90))%nat.

Definition is_lower (c : ascii) : bool :=
  let n := code c in ((97 <=? n) && (n <=? 122))%nat.

Definition is_alpha (c : ascii) : bool := is_upper c || is_lower c.

(** Upper-case letters of the Latin-1 block: all of 192..222 but the
    multiplication sign. *)
Definition is_upper_latin1 (c : ascii) : bool :=
  let n := code c in ((192 <=? n) && (n <=? 222) && negb (n =? 215))%nat.

Definition lower_char (c : ascii) : ascii :=
  if is_upper c || is_upper_latin1 c then ascii_of_nat (code c + 32) else c.

Definition chars (s : string) : list ascii := list_ascii_of_string s.
Definition str (l : list ascii) : string := string_of_list_ascii l.

(** [s.lower()]. *)
Definition lower (s : string) : string := str (map lower_char (chars s)).

(** [sub in s]. *)
Fixpoint contains (s sub : string) : bool :=
  String.prefix sub s ||
  match s with
  | EmptyString => false
  | String _ s' => contains s' sub
  end.

(** [s.strip()]: white space goes from both ends. *)
Fixpoint lstrip_list (l : list ascii) : list ascii :=
  match l with
  | c :: l' => if is_space c then lstrip_list l' else l
  | [] => []
  end.

Definition strip (s : string) : string :=
  str (rev (lstrip_list (rev (lstrip_list (chars s))))).

(** Splits at the first character satisfying [p]. *)
Fixpoint break_at (p : ascii -> bool) (l : list ascii) : list ascii * list ascii :=
  match l with
  | [] => ([], [])
  | c :: l' =>
      if p c then ([], l)
      else let '(a, b) := break_at p l' in (c :: a, b)
  end.

Definition nonempty {A} (l : list A) : bool :=
  match l with [] => false | _ => true end.

(** Truth value of a str and of an [Optional[str]]. *)
Definition str_truthy (s : string) : bool := negb (String.eqb s "").

Definition opt_truthy (o : option string) : bool :=
  match o with Some s => str_truthy s | None => false end.

Definition nl : string := String (ascii_of_nat 10) "".

(** [sep.join(parts)]. *)
Fixpoint join (sep : string) (parts : list string) : string :=
  match parts with
  | [] => ""
  | [x] => x
  | x :: rest => (x ++ sep ++ join sep rest)%string
  end.

(** [s.split(c)] for a one-character separator. *)
Fixpoint split_char (c : ascii) (s : string) : list string :=
  match s with
  | EmptyString => [""]
  | String a s' =>
      if Ascii.eqb a c then "" :: split_char c s'
      else match split_char c s' with
           | w :: ws => String a w :: ws
           | [] => [String a ""]
           end
  end.

(** [re.match(r'^...$', s)]: [$] also matches just before a final newline. *)
Definition newline : ascii := ascii_of_nat 10.

Definition match_to_end (body : list ascii -> bool) (s : string) : bool :=
  body (chars s) ||
  match rev (chars s) with
  | c :: before => Ascii.eqb c newline && body (rev before)
  | [] => false
  end.

(** *** Decoded JSON ([json.loads], [response.json()]) *)
Inductive json : Type :=
| JNull
| JBool (b : bool)
| JInt (n : Z)
| JFloat (q : Q)
| JStr (s : string)
| JArr (items : list json)
| JObj (fields : list (string * json)).   (* a dict: insertion order, distinct keys *)

(** [bool(v)]. *)
Definition truthy (v : json) : bool :=
  match v with
  | JNull => false
  | JBool b => b
  | JInt n => negb (n =? 0)
  | JFloat q => negb (Qeq_bool q 0)
  | JStr s => negb (String.eqb s "")
  | JArr l => match l with [] => false | _ => true end
  | JObj f => match f with [] => false | _ => true end
  end.

Fixpoint assoc (key : string) (fields : list (string * json)) : option json :=
  match fields with
  | [] => None
  | (k, v) :: rest => if String.eqb k key then Some v else assoc key rest
  end.

(** [key in d] for a decoded value [d]: dict membership, substring test
    on a str, element test on a list, [TypeError] otherwise. *)
Definition json_eqb_str (key : string) (v : json) : bool :=
  match v with JStr s => String.eqb s key | _ => false end.

Definition py_in (key : string) (d : json) : result bool :=
  match d with
  | JObj f => Ok (match assoc key f with Some _ => true | None => false end)
  | JStr s => Ok (contains s key)
  | JArr l => Ok (existsb (json_eqb_str key) l)
  | _ => Raise TypeError
  end.

(** [d.get(key)] / [d.get(key, default)]: only dicts have [get]. *)
Definition py_get (d : json) (key : string) (default : json) : result json :=
  match d with
  | JObj f => Ok (match assoc key f with Some v => v | None => default end)
  | _ => Raise AttributeError
  end.

(** [d[key]] for a key known to be [in d]. *)
Definition py_getitem (d : json) (key : string) : result json :=
  match d with
  | JObj f => match assoc key f with Some v => Ok v | None => Raise (ClientError "KeyError") end
  | _ => Raise TypeError
  end.

(** [for x in v]: lists yield their items, dicts their keys, strs their
    characters; nothing else is iterable. *)
Definition py_iter (v : json) : result (list json) :=
  match v with
  | JArr l => Ok l
  | JObj f => Ok (map (fun kv => JStr (fst kv)) f)
  | JStr s => Ok (map (fun c => JStr (String c "")) (chars s))
  | _ => Raise TypeError
  end.

(** Sequencing a list of computations, stopping at the first that raises. *)
Fixpoint mapM {A B} (f : A -> result B) (l : list A) : result (list B) :=
  match l with
  | [] => Ok []
  | x :: rest =>
      match f x with
      | Raise e => Raise e
      | Ok y => match mapM f rest with
                | Raise e => Raise e
                | Ok ys => Ok (y :: ys)
                end
      end
  end.

(** [s[:n]] for a natural [n]. *)
Definition str_slice (n : nat) (s : string) : string := String.substring 0 n s.

(** [str(n)] for an int. *)
Definition decimal (n : Z) : string := DecimalString.NilZero.string_of_int (Z.to_int n).

(** *** float

    A Python float is an IEEE 754 binary64 number; the Standard
    Library's [SpecFloat] is its executable specification, with 53 bits
    of precision and 1024 as the exponent of the infinities. *)
Definition float : Type := spec_float.
Definition prec : Z := 53.
Definition emax : Z := 1024.

(** [x + y] and [x / y] on two floats; the code only divides by a
    number it has tested to be positive. *)
Definition float_add : float -> float -> float := SFadd prec emax.
Definition float_div : float -> float -> float := SFdiv prec emax.

(** [float(n)] for an int, as the mixed operations [x + n], [x / n] and
    [a / b] on small ints convert it: rounded to nearest, ties to even. *)
Definition float_of_int (n : Z) : float := binary_normalize prec emax n 0 false.

(** [0.0] and [1.0]. *)
Definition float_zero : float := S754_zero false.
Definition float_one : float := S754_finite false 4503599627370496 (-52).

End Py.

Declare Scope py_scope.
Delimit Scope py_scope with py.
Notation "x <- c1 ;; c2" := (Py.bind c1 (fun x => c2))
  (at level 100, c1 at next level, right associativity) : py_scope.

(** ** app/utils/http_client.py *)
Module HttpClient.
Import Py.

(** settings.MAX_RETRIES (app/core/config.py). *)
Definition MAX_RETRIES : Z := 3.

(** What one pass through the body of [async with self.session.get(url)]
    can observe.  [Status200 r] carries the outcome of decoding the body
    ([response.text()] or [response.json()]), which may itself raise. *)
Inductive attempt_outcome (A : Type) : Type :=
| Status200 (decoded : result A)
| Status404
| StatusOther (code : Z)
| RequestRaised (e : exn).
Arguments Status200 {A} decoded.
Arguments Status404 {A}.
Arguments StatusOther {A} code.
Arguments RequestRaised {A} e.

(** The remote endpoint as seen by one call of the fetcher: the outcome
    of the request issued on each iteration of the retry loop. *)
Definition endpoint (A : Type) : Type := Z -> attempt_outcome A.

(** Observable effects of the fetcher, in program order. *)
Inductive event : Type :=
| EvRequest (attempt : Z)     (* self.session.get(url) on iteration [attempt] *)
| EvSleep (seconds : Z).      (* asyncio.sleep(seconds) *)

(** A computation that appends to the effect log. *)
Definition IO (A : Type) : Type := list event -> A * list event.

Definition ret {A} (a : A) : IO A := fun log => (a, log).
Definition emit (e : event) : IO unit := fun log => (tt, log ++ [e]).
Definition seqIO {A B} (m : IO A) (k : A -> IO B) : IO B :=
  fun log => let '(a, log') := m log in k a log'.
Definition run {A} (m : IO A) : A * list event := m [].

(** The tail of every loop iteration that did not return:
    [if attempt < retries: await asyncio.sleep(2 ** attempt)]. *)
Definition backoff (attempt retries : Z) : IO unit :=
  if attempt <? retries then emit (EvSleep (2 ^ attempt)) else ret tt.

(** [for attempt in range(retries + 1)] of [get_page_content]. *)
Fixpoint get_page_content_loop (net : endpoint string) (retries : Z)
    (attempts : list Z) : IO (option string) :=
  match attempts with
  | [] => ret None                      (* logger.error(...); return None *)
  | attempt :: rest =>
      seqIO (emit (EvRequest attempt)) (fun _ =>
      match net attempt with
      | Status200 (Ok content) => ret (Some content)
      | Status404 => ret None
      | Status200 (Raise _)             (* except Exception / TimeoutError *)
      | StatusOther _
      | RequestRaised _ =>
          seqIO (backoff attempt retries) (fun _ =>
          get_page_content_loop net retries rest)
      end)
  end.

Definition get_page_content (net : endpoint string) (retries : option Z)
    : IO (option string) :=
  let retries := match retries with None => MAX_RETRIES | Some r => r end in
  get_page_content_loop net retries (range (retries + 1)).

(** [for attempt in range(retries + 1)] of [get_json]; the decoded body
    has type [J].  The [except json.JSONDecodeError] clause returns. *)
Fixpoint get_json_loop {J : Type} (net : endpoint J) (retries : Z)
    (attempts : list Z) : IO (option J) :=
  match attempts with
  | [] => ret None
  | attempt :: rest =>
      seqIO (emit (EvRequest attempt)) (fun _ =>
      let retry :=
        seqIO (backoff attempt retries) (fun _ =>
        get_json_loop net retries rest) in
      match net attempt with
      | Status200 (Ok data) => ret (Some data)
      | Status404 => ret None
      | Status200 (Raise JSONDecodeError)
      | RequestRaised JSONDecodeError => ret None
      | Status200 (Raise _)
      | StatusOther _
      | RequestRaised _ => retry
      end)
  end.

Definition get_json {J : Type} (net : endpoint J) (retries : option Z)
    : IO (option J) :=
  let retries := match retries with None => MAX_RETRIES | Some r => r end in
  get_json_loop net retries (range (retries + 1)).

(** Projections of the effect log used to state the retry contract. *)
Definition is_request (e : event) : bool :=
  match e with EvRequest _ => true | EvSleep _ => false end.

Definition attempts_made (log : list event) : nat :=
  length (filter (fun e => is_request e = true) log).

Fixpoint sleeps (log : list event) : list Z :=
  match log with
  | [] => []
  | EvSleep s :: log' => s :: sleeps log'
  | EvRequest _ :: log' => sleeps log'
  end.

(** What one pass through the body of [async with self.session.post(...)]
    can observe: the status code together with the outcome of
    [response.json()], which is only evaluated for the accepted codes. *)
Inductive post_outcome (J : Type) : Type :=
| PostStatus (code : Z) (decoded : result J)
| PostRaised (e : exn).
Arguments PostStatus {J} code decoded.
Arguments PostRaised {J} e.

(** [response.status in [200, 201]]. *)
Definition post_accepted (code : Z) : bool := (code =? 200) || (code =? 201).

(** [for attempt in range(retries + 1)] of [post_json].  There is no
    branch for 404 and no clause for [json.JSONDecodeError]; the function
    ends without a return statement once the loop is over. *)
Fixpoint post_json_loop {J : Type} (net : Z -> post_outcome J) (retries : Z)
    (attempts : list Z) : IO (option J) :=
  match attempts with
  | [] => ret None
  | attempt :: rest =>
      seqIO (emit (EvRequest attempt)) (fun _ =>
      let retry :=
        seqIO (backoff attempt retries) (fun _ =>
        post_json_loop net retries rest) in
      match net attempt with
      | PostStatus code decoded =>
          if post_accepted code then
            match decoded with
            | Ok result => ret (Some result)
            | Raise _ => retry
            end
          else retry
      | PostRaised _ => retry
      end)
  end.

Definition post_json {J : Type} (net : Z -> post_outcome J) (retries : option Z)
    : IO (option J) :=
  let retries := match retries with None => MAX_RETRIES | Some r => r end in
  post_json_loop net retries (range (retries + 1)).

(** Seconds spent in [asyncio.sleep] over a whole log. *)
Definition total_sleep (log : list event) : Z :=
  fold_right Z.add 0 (sleeps log).

End HttpClient.

(** ** app/models/schemas.py

    One module per pydantic model, so that the fields keep their names. *)
Module ProductSchema.
Record t : Type := mk {
  id : option string;
  title : string;
  handle : option string;
  description : option string;
  price : option string;
  compare_at_price : option string;
  vendor : option string;
  product_type : option string;
  tags : list string;
  images : list string;
  variants : list (list (string * Py.json));
  available : bool;
  url : option string
}.
End ProductSchema.

Module FAQSchema.
Record t : Type := mk {
  question : string;
  answer : string;
  category : option string
}.
End FAQSchema.

Module SocialHandlesSchema.
Record t : Type := mk {
  instagram : option string;
  facebook : option string;
  twitter : option string;
  tiktok : option string;
  youtube : option string;
  linkedin : option string;
  pinterest : option string
}.
(** [SocialHandlesSchema()]. *)
Definition default : t := mk None None None None None None None.
(** [self.dict().values()]. *)
Definition values (h : t) : list (option string) :=
  [instagram h; facebook h; twitter h; tiktok h; youtube h; linkedin h; pinterest h].
End SocialHandlesSchema.

Module ContactDetailsSchema.
Record t : Type := mk {
  emails : list string;
  phone_numbers : list string;
  address : option string;
  support_hours : option string
}.
Definition default : t := mk [] [] None None.
End ContactDetailsSchema.

Module ImportantLinksSchema.
Record t : Type := mk {
  order_tracking : option string;
  contact_us : option string;
  blogs : option string;
  size_guide : option string;
  shipping_info : option string;
  careers : option string;
  about_us : option string
}.
Definition default : t := mk None None None None None None None.
End ImportantLinksSchema.

Module PolicySchema.
Record t : Type := mk {
  content : string;
  url : option string;
  last_updated : option string
}.
End PolicySchema.

Module BrandInsightsSchema.
Record t : Type := mk {
  brand_name : option string;
  website_url : string;
  product_catalog : list ProductSchema.t;
  hero_products : list ProductSchema.t;
  privacy_policy : option PolicySchema.t;
  return_policy : option PolicySchema.t;
  refund_policy : option PolicySchema.t;
  terms_of_service : option PolicySchema.t;
  faqs : list FAQSchema.t;
  social_handles : SocialHandlesSchema.t;
  contact_details : ContactDetailsSchema.t;
  brand_context : option string;
  important_links : ImportantLinksSchema.t;
  extraction_timestamp : Z          (* datetime, as a clock reading *)
}.
End BrandInsightsSchema.

Module CompetitorSchema.
Record t : Type := mk {
  competitor_name : option string;
  website_url : string;
  insights : BrandInsightsSchema.t;
  similarity_score : option Q;      (* Optional[float] *)
  competitive_advantages : list string
}.
End CompetitorSchema.

(** Field validation of pydantic 2 (the code base imports pydantic_settings):
    a [str] field accepts a str only, an [Optional[str]] field also [None]. *)
Module CompetitorAnalysisResponse.
Record t : Type := mk {
  main_brand : BrandInsightsSchema.t;
  competitors : list CompetitorSchema.t;
  analysis_summary : option string;
  extraction_timestamp : Z
}.
End CompetitorAnalysisResponse.

Module Pydantic.
Import Py.

Definition str_field (v : json) : result string :=
  match v with
  | JStr s => Ok s
  | _ => Raise ValidationError
  end.

Definition optional_str_field (v : json) : result (option string) :=
  match v with
  | JNull => Ok None
  | JStr s => Ok (Some s)
  | _ => Raise ValidationError
  end.

End Pydantic.

(** ** app/utils/validators.py *)
Module Validators.
Import Py.

(** [validate_email]: [re.match] of
    [^[a-zA-Z0-9._%+-]+@[a-zA-Z0-9.-]+\.[a-zA-Z]{2,}$]. *)
Definition is_alnum (c : ascii) : bool := is_alpha c || is_digit c.

Definition in_set (set : string) (c : ascii) : bool :=
  existsb (Ascii.eqb c) (chars set).

Definition email_local_char (c : ascii) : bool := is_alnum c || in_set "._%+-" c.
Definition email_domain_char (c : ascii) : bool := is_alnum c || in_set ".-" c.

(** [[a-zA-Z0-9.-]+\.[a-zA-Z]{2,}] against a whole list: the letters after
    the last dot form the top-level label, the rest the domain. *)
Definition email_domain_ok (l : list ascii) : bool :=
  let '(tld_rev, rest_rev) := break_at (Ascii.eqb ".") (rev l) in
  match rest_rev with
  | [] => false                                     (* no dot at all *)
  | _dot :: dom_rev =>
      forallb is_alpha tld_rev && (2 <=? length tld_rev)%nat
      && forallb email_domain_char dom_rev && (1 <=? length dom_rev)%nat
  end.

Definition email_body (l : list ascii) : bool :=
  let '(local, rest) := break_at (fun c => negb (email_local_char c)) l in
  match rest with
  | at_sign :: domain =>
      Ascii.eqb at_sign "@" && (1 <=? length local)%nat && email_domain_ok domain
  | [] => false
  end.

Definition validate_email (email : string) : bool :=
  match_to_end email_body email.

(** [validate_phone_number]:
    [cleaned = re.sub(r'[\s\-$$$$\+]', '', phone)], then
    [re.match(r'^\d{7,15}$', cleaned)]. *)
Definition phone_separator (c : ascii) : bool :=
  is_space c || Ascii.eqb c "-" || Ascii.eqb c "$" || Ascii.eqb c "+".

Definition clean_phone (phone : string) : list ascii :=
  List.filter (fun c => negb (phone_separator c)) (chars phone).

Definition digits_7_15 (l : list ascii) : bool :=
  forallb is_digit l && (7 <=? length l)%nat && (length l <=? 15)%nat.

Definition validate_phone_number (phone : string) : bool :=
  match_to_end digits_7_15 (str (clean_phone phone)).

(** The handle patterns of [extract_social_handle] (the same table is
    repeated in [SocialExtractor]): [domain\.com/(?:p1|p2|...)?([^/?]+)],
    searched with [re.IGNORECASE]. *)
Record handle_pattern : Type := {
  domain : string;            (* literal text, up to and including the slash *)
  prefixes : list string      (* the alternatives of the optional group *)
}.

Definition patterns : list (string * handle_pattern) :=
  [ ("instagram", {| domain := "instagram.com/"; prefixes := [] |});
    ("facebook",  {| domain := "facebook.com/";  prefixes := [] |});
    ("twitter",   {| domain := "twitter.com/";   prefixes := [] |});
    ("tiktok",    {| domain := "tiktok.com/";    prefixes := ["@"] |});
    ("youtube",   {| domain := "youtube.com/";   prefixes := ["c/"; "channel/"; "user/"] |});
    ("linkedin",  {| domain := "linkedin.com/";  prefixes := ["company/"; "in/"] |});
    ("pinterest", {| domain := "pinterest.com/"; prefixes := [] |}) ].

Fixpoint lookup_pattern (platform : string)
    (table : list (string * handle_pattern)) : option handle_pattern :=
  match table with
  | [] => None
  | (name, pat) :: rest =>
      if String.eqb name platform then Some pat else lookup_pattern platform rest
  end.

(** A literal of the pattern against the head of the text, ignoring case;
    the literals are lower case already. *)
Fixpoint literal_ci (lit text : list ascii) : option (list ascii) :=
  match lit, text with
  | [], _ => Some text
  | p :: lit', c :: text' =>
      if Ascii.eqb (lower_char c) p then literal_ci lit' text' else None
  | _ :: _, [] => None
  end.

(** The longest run matched by [[^/?]+]. *)
Definition handle_char (c : ascii) : bool :=
  negb (Ascii.eqb c "/" || Ascii.eqb c "?").

Fixpoint take_while (p : ascii -> bool) (l : list ascii) : list ascii :=
  match l with
  | c :: l' => if p c then c :: take_while p l' else []
  | [] => []
  end.

Definition group_at (text : list ascii) : option (list ascii) :=
  match take_while handle_char text with
  | [] => None
  | g => Some g
  end.

(** The optional group: each alternative in turn, then no alternative,
    backtracking when the capture group would be empty. *)
Fixpoint match_prefixes (alts : list string) (text : list ascii) : option (list ascii) :=
  match alts with
  | [] => group_at text
  | alt :: alts' =>
      match literal_ci (chars alt) text with
      | Some after =>
          match group_at after with
          | Some g => Some g
          | None => match_prefixes alts' text
          end
      | None => match_prefixes alts' text
      end
  end.

Definition match_handle_at (pat : handle_pattern) (text : list ascii) : option (list ascii) :=
  match literal_ci (chars (domain pat)) text with
  | Some after => match_prefixes (prefixes pat) after
  | None => None
  end.

(** [re.search(pattern, url, re.IGNORECASE)], reduced to [match.group(1)]. *)
Fixpoint search_handle (pat : handle_pattern) (text : list ascii) : option (list ascii) :=
  match match_handle_at pat text with
  | Some g => Some g
  | None =>
      match text with
      | [] => None
      | _ :: text' => search_handle pat text'
      end
  end.

Section SocialHandle.

(** [validators.url] of the third-party validators package, as a truth value. *)
Variable validate_url : string -> bool.

Definition extract_social_handle (url platform : string) : option string :=
  if negb (validate_url url) then None
  else
    match lookup_pattern (lower platform) patterns with
    | Some pat =>
        match search_handle pat (chars url) with
        | Some g => Some (str g)
        | None => Some url
        end
    | None => Some url
    end.

End SocialHandle.

(** [clean_price]: [re.sub(r'[^\d.,]', '', price_str.strip())], kept when
    it matches [^\d+([.,]\d{1,2})?$], the original string otherwise. *)
Definition price_char (c : ascii) : bool :=
  is_digit c || Ascii.eqb c "." || Ascii.eqb c ",".

Definition price_body (l : list ascii) : bool :=
  let '(whole, rest) := break_at (fun c => negb (is_digit c)) l in
  (1 <=? length whole)%nat &&
  match rest with
  | [] => true
  | sep :: cents =>
      (Ascii.eqb sep "." || Ascii.eqb sep ",")
      && forallb is_digit cents && (1 <=? length cents)%nat && (length cents <=? 2)%nat
  end.

Definition clean_price (price_str : string) : option string :=
  if negb (str_truthy price_str) then None
  else
    let cleaned := str (List.filter price_char (chars (strip price_str))) in
    if match_to_end price_body cleaned then Some cleaned
    else Some price_str.

Section Shopify.

Variable validate_url : string -> bool.
(** [urlparse(url).netloc]. *)
Variable netloc : string -> string.

Definition shopify_indicators : list string := ["myshopify.com"; ".shopify.com"].

Definition validate_shopify_url (url : string) : bool :=
  if negb (validate_url url) then false
  else
    let domain := lower (netloc url) in
    existsb (fun indicator => contains domain indicator) shopify_indicators
    || (0 <? String.length domain)%nat.

End Shopify.

(** *** The telephone validator on full Unicode strings

    The definitions above follow a str of code points below 256.  The
    classes [\d] and [\s] reach beyond: [validate_phone_number] is
    given here a second time on arbitrary code points, with the two
    classes as parameters. *)
Module Unicode.

(** A str as the sequence of its code points. *)
Definition ustr : Type := list N.

Definition hyphen : N := 45.
Definition dollar : N := 36.
Definition plus : N := 43.
Definition line_feed : N := 10.

Section Phone.

(** The classes [\d] and [\s] of the regular expressions on a str: the
    decimal digits and the white space of the interpreter's Unicode
    tables. *)
Variable unicode_digit : N -> bool.
Variable unicode_space : N -> bool.

(** The class [[\s\-$$$$\+]]. *)
Definition phone_separator (c : N) : bool :=
  unicode_space c || (c =? hyphen)%N || (c =? dollar)%N || (c =? plus)%N.

(** [re.sub(r'[\s\-$$$$\+]', '', phone)]. *)
Definition cleaned (phone : ustr) : ustr :=
  List.filter (fun c => negb (phone_separator c)) phone.

(** [\d{7,15}] against a whole str. *)
Definition digits_7_15 (l : ustr) : bool :=
  forallb unicode_digit l && (7 <=? length l)%nat && (length l <=? 15)%nat.

(** [re.match(r'^...$', s)]: [$] also matches just before a final line feed. *)
Definition match_to_end (body : ustr -> bool) (s : ustr) : bool :=
  body s ||
  match rev s with
  | c :: before => (c =? line_feed)%N && body (rev before)
  | [] => false
  end.

Definition validate_phone_number (phone : ustr) : bool :=
  match_to_end digits_7_15 (cleaned phone).

End Phone.
End Unicode.

End Validators.

(** ** app/utils/llm_processor.py *)
Module LLMProcessor.
Import Py Pydantic.

(** [re.search(r'\[.*\]', content, re.DOTALL).group()]: from the first
    opening bracket to the last closing bracket after it. *)
Definition search_json_array (content : string) : option string :=
  let '(_, from_open) := break_at (Ascii.eqb "[") (chars content) in
  match from_open with
  | [] => None
  | open :: after =>
      let '(_, upto_close_rev) := break_at (Ascii.eqb "]") (rev after) in
      match upto_close_rev with
      | [] => None
      | _ => Some (str (open :: rev upto_close_rev))
      end
  end.

(** The loop over [structured_data]: dicts with both keys become FAQs,
    everything else is skipped. *)
Fixpoint structured_faqs (items : list json) : result (list FAQSchema.t) :=
  match items with
  | [] => Ok []
  | item :: rest =>
      match item with
      | JObj f =>
          match assoc "question" f, assoc "answer" f with
          | Some q, Some a =>
              (question <- str_field q ;;
               answer <- str_field a ;;
               category <- optional_str_field
                             (match assoc "category" f with Some c => c | None => JNull end) ;;
               more <- structured_faqs rest ;;
               Ok (FAQSchema.mk question answer category :: more))%py
          | _, _ => structured_faqs rest
          end
      | _ => structured_faqs rest
      end
  end.

Section Client.

(** [self.client]: [None] without an API key; otherwise the chat
    completion, from the prompt to [choices[0].message.content]. *)
Variable client : option (string -> result (option string)).
(** The fixed prompt text around [faq_text]. *)
Variable faq_prompt : string -> string.
Variable json_loads : string -> result json.

Definition is_available : bool :=
  match client with Some _ => true | None => false end.

Definition faq_text (raw_faqs : list FAQSchema.t) : string :=
  join (nl ++ nl)
    (map (fun faq => ("Q: " ++ FAQSchema.question faq ++ nl
                      ++ "A: " ++ FAQSchema.answer faq)%string) raw_faqs).

(** The [try] block of [structure_faqs]; [Ok None] when it falls through
    without returning. *)
Definition structure_faqs_try (chat : string -> result (option string))
    (raw_faqs : list FAQSchema.t) : result (option (list FAQSchema.t)) :=
  (content <- chat (faq_prompt (faq_text raw_faqs)) ;;
   match content with
   | None => Raise TypeError                       (* re.search on None *)
   | Some text =>
       match search_json_array text with
       | None => Ok None
       | Some found =>
           structured_data <- json_loads found ;;
           items <- py_iter structured_data ;;
           faqs <- structured_faqs items ;;
           Ok (Some faqs)
       end
   end)%py.

Definition structure_faqs (raw_faqs : list FAQSchema.t) : list FAQSchema.t :=
  match client with
  | None => raw_faqs
  | Some chat =>
      if negb (nonempty raw_faqs) then raw_faqs
      else
        match structure_faqs_try chat raw_faqs with
        | Ok (Some faqs) => faqs
        | Ok None | Raise _ => raw_faqs
        end
  end.

End Client.

Section Context.

Variable client : option (string -> result (option string)).
(** The fixed prompt text around [raw_text[:2000]]. *)
Variable brand_prompt : string -> string.

(** [extract_brand_context] of the processor.  A reply of [None] makes
    [.strip()] raise, which the [except] clause absorbs. *)
Definition extract_brand_context (raw_text : string) : option string :=
  match client with
  | None => Some raw_text
  | Some chat =>
      if negb (str_truthy raw_text) then Some raw_text
      else
        let fallback :=
          if str_truthy raw_text then Some (str_slice 1000 raw_text) else None in
        match chat (brand_prompt (str_slice 2000 raw_text)) with
        | Ok (Some content) =>
            let brand_context := strip content in
            if str_truthy brand_context && (50 <? String.length brand_context)%nat
            then Some brand_context
            else fallback
        | Ok None | Raise _ => fallback
        end
  end.

End Context.

Section Analysis.

Variable client : option (string -> result (option string)).
(** The fixed prompt text around the main summary and the joined
    competitor summaries. *)
Variable analysis_prompt : string -> string -> string.
(** [_extract_advantages]: its patterns hold characters that a str of
    code points below 256 cannot spell, so the facts are stated for
    whatever list it yields. *)
Variable _extract_advantages : string -> list string.

(** The dict that [analyze_competitors] returns; the second key is
    missing on both error paths. *)
Record analysis : Type := {
  analysis_summary : string;
  competitive_advantages : option (list string)
}.

(** [f"{value}"] on an [Optional[str]]. *)
Definition format_optional (value : option string) : string :=
  match value with Some text => text | None => "None" end.

(** The three summary lines for one [.dict()] of a brand.  Every key is
    present in such a dict, so no default of [.get] is ever used, and
    slicing a [None] context raises. *)
Definition brand_summary (data : BrandInsightsSchema.t) : result string :=
  match BrandInsightsSchema.brand_context data with
  | None => Raise TypeError
  | Some context =>
      Ok ("Brand: " ++ format_optional (BrandInsightsSchema.brand_name data) ++ nl
          ++ "Products: "
          ++ decimal (Z.of_nat (length (BrandInsightsSchema.product_catalog data))) ++ nl
          ++ "Context: " ++ str_slice 200 context)%string
  end.

Definition analyze_competitors (main_brand_data : BrandInsightsSchema.t)
    (competitor_data : list BrandInsightsSchema.t) : analysis :=
  match client with
  | None =>
      {| analysis_summary := "LLM analysis not available";
         competitive_advantages := None |}
  | Some chat =>
      match
        (main_summary <- brand_summary main_brand_data ;;
         competitor_summaries <- mapM brand_summary (firstn 3 competitor_data) ;;
         content <- chat (analysis_prompt main_summary (join nl competitor_summaries)) ;;
         match content with
         | None => Raise AttributeError                  (* None.strip() *)
         | Some text =>
             let analysis := strip text in
             Ok {| analysis_summary := analysis;
                   competitive_advantages := Some (_extract_advantages analysis) |}
         end)%py
      with
      | Ok llm_analysis => llm_analysis
      | Raise _ =>
          {| analysis_summary := "Error performing competitive analysis";
             competitive_advantages := None |}
      end
  end.

End Analysis.

End LLMProcessor.

(** ** app/services/extractors.py *)
Module Extractors.
Import Py Pydantic Validators.

Section ProductExtractor.

(** Library functions the parser calls: [urllib.parse.urljoin] and the
    builtin [str] applied to a decoded JSON value. *)
Variable urljoin : string -> string -> string.
Variable py_str : json -> string.

(** The dict built for each source variant in the [for variant in ...] loop. *)
Definition variant_dict (variant : json) : result (list (string * json)) :=
  (id <- py_get variant "id" JNull ;;
   title <- py_get variant "title" JNull ;;
   price <- py_get variant "price" JNull ;;
   available <- py_get variant "available" (JBool true) ;;
   sku <- py_get variant "sku" JNull ;;
   Ok [("id", id); ("title", title); ("price", price);
       ("available", available); ("sku", sku)])%py.

(** [v.get(key, default)] on a dict the parser built itself. *)
Definition dict_get (d : list (string * json)) (key : string) (default : json) : json :=
  match assoc key d with Some v => v | None => default end.

(** [[img.get('src', '') for img in product_data['images'] if img.get('src')]]. *)
Fixpoint image_sources (imgs : list json) : result (list json) :=
  match imgs with
  | [] => Ok []
  | img :: rest =>
      (src <- py_get img "src" JNull ;;
       if truthy src then
         (kept <- py_get img "src" (JStr "") ;;
          more <- image_sources rest ;;
          Ok (kept :: more))
       else image_sources rest)%py
  end.

(** The body of the [try] block of [_parse_product_json]. *)
Definition parse_product_json_body (product_data : json) (base_url : string)
    : result ProductSchema.t :=
  (has_images <- py_in "images" product_data ;;
   images <- (if has_images : bool then
                imgs <- py_getitem product_data "images" ;;
                items <- py_iter imgs ;;
                image_sources items
              else Ok []) ;;
   has_variants <- py_in "variants" product_data ;;
   variants <- (if has_variants : bool then
                  vs <- py_getitem product_data "variants" ;;
                  items <- py_iter vs ;;
                  mapM variant_dict items
                else Ok []) ;;
   let price :=
     match variants with v0 :: _ => dict_get v0 "price" JNull | [] => JNull end in
   let compare_at_price :=
     match variants with v0 :: _ => dict_get v0 "compare_at_price" JNull | [] => JNull end in
   raw_id <- py_get product_data "id" (JStr "") ;;
   raw_title <- py_get product_data "title" (JStr "") ;;
   raw_handle <- py_get product_data "handle" (JStr "") ;;
   raw_description <- py_get product_data "body_html" (JStr "") ;;
   raw_vendor <- py_get product_data "vendor" (JStr "") ;;
   raw_type <- py_get product_data "product_type" (JStr "") ;;
   raw_tags <- py_get product_data "tags" JNull ;;
   tags <- (if truthy raw_tags then
              match raw_tags with
              | JStr s => Ok (split_char "," s)
              | _ => Raise AttributeError          (* no [split] on a non-str *)
              end
            else Ok []) ;;
   let available :=
     match variants with
     | [] => true
     | _ => existsb (fun v => truthy (dict_get v "available" (JBool false))) variants
     end in
   let url := urljoin base_url ("/products/" ++ py_str raw_handle)%string in
   (* ProductSchema(...): field validation *)
   title <- str_field raw_title ;;
   handle <- optional_str_field raw_handle ;;
   description <- optional_str_field raw_description ;;
   price <- optional_str_field price ;;
   compare_at_price <- optional_str_field compare_at_price ;;
   vendor <- optional_str_field raw_vendor ;;
   product_type <- optional_str_field raw_type ;;
   images <- mapM str_field images ;;
   Ok (ProductSchema.mk (Some (py_str raw_id)) title handle description
         price compare_at_price vendor product_type tags images variants
         available (Some url)))%py.

(** [_parse_product_json]: any exception is logged and turned into [None]. *)
Definition _parse_product_json (product_data : json) (base_url : string)
    : option ProductSchema.t :=
  match parse_product_json_body product_data base_url with
  | Ok product => Some product
  | Raise _ => None
  end.

End ProductExtractor.

Section FAQExtractor.

Variable urljoin : string -> string -> string.
(** [self.http_client.get_page_content], as seen by its caller. *)
Variable get_page_content : string -> result (option string).
(** [BeautifulSoup(content, 'html.parser')] followed by [_parse_faq_page]. *)
Variable _parse_faq_page : string -> result (list FAQSchema.t).
(** The language-model collaborator: [is_available] and [structure_faqs]. *)
Variable llm_is_available : bool.
Variable llm_structure_faqs : list FAQSchema.t -> list FAQSchema.t.

Definition faq_urls : list string :=
  ["/pages/faq"; "/pages/frequently-asked-questions"; "/faq"; "/help"; "/support"].

(** [for url_pattern in faq_urls], with [faqs] the list collected so far. *)
Fixpoint faq_pages_loop (base_url : string) (url_patterns : list string)
    (faqs : list FAQSchema.t) : list FAQSchema.t :=
  match url_patterns with
  | [] => faqs
  | url_pattern :: rest =>
      let faq_url := urljoin base_url url_pattern in
      match get_page_content faq_url with
      | Raise _ => faq_pages_loop base_url rest faqs            (* continue *)
      | Ok content =>
          if opt_truthy content then
            match _parse_faq_page (match content with Some c => c | None => "" end) with
            | Raise _ => faq_pages_loop base_url rest faqs      (* continue *)
            | Ok page_faqs =>
                let faqs := faqs ++ page_faqs in
                if nonempty faqs then faqs                      (* break *)
                else faq_pages_loop base_url rest faqs
            end
          else faq_pages_loop base_url rest faqs
      end
  end.

Definition extract_faqs (base_url : string) : list FAQSchema.t :=
  let faqs := faq_pages_loop base_url faq_urls [] in
  let faqs :=
    if nonempty faqs && llm_is_available then llm_structure_faqs faqs else faqs in
  firstn 20 faqs.                                               (* faqs[:20] *)

End FAQExtractor.

Section SocialExtractor.

Variable validate_url : string -> bool.

(** [setattr(social_handles, platform, handle)]. *)
Definition setattr (h : SocialHandlesSchema.t) (platform handle : string)
    : SocialHandlesSchema.t :=
  let v := Some handle in
  let '(SocialHandlesSchema.mk ig fb tw tk yt li pn) := h in
  if String.eqb platform "instagram" then SocialHandlesSchema.mk v fb tw tk yt li pn
  else if String.eqb platform "facebook" then SocialHandlesSchema.mk ig v tw tk yt li pn
  else if String.eqb platform "twitter" then SocialHandlesSchema.mk ig fb v tk yt li pn
  else if String.eqb platform "tiktok" then SocialHandlesSchema.mk ig fb tw v yt li pn
  else if String.eqb platform "youtube" then SocialHandlesSchema.mk ig fb tw tk v li pn
  else if String.eqb platform "linkedin" then SocialHandlesSchema.mk ig fb tw tk yt v pn
  else if String.eqb platform "pinterest" then SocialHandlesSchema.mk ig fb tw tk yt li v
  else h.

(** [for platform, pattern in social_patterns.items()] for one link. *)
Fixpoint platforms_loop (href : string) (platforms : list (string * handle_pattern))
    (social_handles : SocialHandlesSchema.t) : SocialHandlesSchema.t :=
  match platforms with
  | [] => social_handles
  | (platform, _) :: rest =>
      if contains (lower href) (lower platform) then
        match extract_social_handle validate_url href platform with
        | Some handle =>
            if str_truthy handle then setattr social_handles platform handle   (* break *)
            else platforms_loop href rest social_handles
        | None => platforms_loop href rest social_handles
        end
      else platforms_loop href rest social_handles
  end.

(** [extract_social_handles], on the [href] values of the page's anchors
    in document order. *)
Definition extract_social_handles (hrefs : list string) : SocialHandlesSchema.t :=
  fold_left (fun social_handles href => platforms_loop href patterns social_handles)
    hrefs SocialHandlesSchema.default.

End SocialExtractor.

(** [re.findall(r'[\+]?[1-9]?[\d\s\-$$$$]{7,15}', text)]. *)
Definition phone_char (c : ascii) : bool :=
  is_digit c || is_space c || Ascii.eqb c "-" || Ascii.eqb c "$".

Definition is_nonzero_digit (c : ascii) : bool :=
  is_digit c && negb (Ascii.eqb c "0").

(** Length of the run matched by the greedy [{7,15}] at the head. *)
Fixpoint phone_run (budget : nat) (l : list ascii) : nat :=
  match budget, l with
  | S b, c :: l' => if phone_char c then S (phone_run b l') else O
  | _, _ => O
  end.

Definition phone_run_7_15 (l : list ascii) : option nat :=
  let n := phone_run 15 l in
  if (7 <=? n)%nat then Some n else None.

(** [[1-9]?] then the run: with the digit first, without it on failure. *)
Definition phone_after_plus (l : list ascii) : option nat :=
  match l with
  | c :: l' =>
      if is_nonzero_digit c then
        match phone_run_7_15 l' with
        | Some n => Some (S n)
        | None => phone_run_7_15 l
        end
      else phone_run_7_15 l
  | [] => None
  end.

(** Length of the match starting at the head of [l], if any. *)
Definition phone_match_at (l : list ascii) : option nat :=
  match l with
  | c :: l' =>
      if Ascii.eqb c "+" then
        match phone_after_plus l' with
        | Some n => Some (S n)
        | None => phone_after_plus l
        end
      else phone_after_plus l
  | [] => None
  end.

(** The scan: [skip] characters of the current match are still to be passed. *)
Fixpoint findall_phone_from (skip : nat) (l : list ascii) : list string :=
  match l with
  | [] => []
  | _ :: l' =>
      match skip with
      | S k => findall_phone_from k l'
      | O =>
          match phone_match_at l with
          | Some n => str (firstn n l) :: findall_phone_from (n - 1) l'
          | None => findall_phone_from 0 l'
          end
      end
  end.

Definition findall_phone (text : string) : list string :=
  findall_phone_from 0 (chars text).

Section ContactExtractor.

Variable urljoin : string -> string -> string.
Variable get_page_content : string -> result (option string).
(** [BeautifulSoup(content, 'html.parser').get_text()]. *)
Variable get_text : string -> string.
(** [re.findall(email_pattern, text)]. *)
Variable findall_email : string -> list string.

Definition str_in (x : string) (l : list string) : bool :=
  existsb (String.eqb x) l.

Definition extract_contact_details (page_text base_url : string)
    : ContactDetailsSchema.t :=
  let emails := firstn 5 (List.filter validate_email (findall_email page_text)) in
  let phones :=
    firstn 3 (map strip (List.filter validate_phone_number (findall_phone page_text))) in
  let contact_url := urljoin base_url "/pages/contact" in
  match get_page_content contact_url with
  | Ok (Some contact_content) =>
      if str_truthy contact_content then
        let contact_text := get_text contact_content in
        let additional_emails := findall_email contact_text in
        let additional_phones := findall_phone contact_text in
        let emails := emails ++
          List.filter (fun email => validate_email email && negb (str_in email emails))
            additional_emails in
        let phones := phones ++
          map strip
            (List.filter (fun phone => validate_phone_number phone && negb (str_in phone phones))
               additional_phones) in
        ContactDetailsSchema.mk (firstn 5 emails) (firstn 3 phones) None None
      else ContactDetailsSchema.mk emails phones None None
  | Ok None | Raise _ => ContactDetailsSchema.mk emails phones None None
  end.

End ContactExtractor.

(** *** The extractors that walk a parsed page

    The markup library is a parameter: [Elem] is a parsed document or
    one of its tags, and the variables below are the bs4 calls the code
    makes on it. *)
Section Pages.

Variable Elem : Type.
(** [BeautifulSoup(content, 'html.parser')]. *)
Variable BeautifulSoup : string -> Elem.
(** [elem.select(selector)] and [elem.select_one(selector)]. *)
Variable select : Elem -> string -> list Elem.
Variable select_one : Elem -> string -> option Elem.
(** [elem.get_text()] and [elem.get(name)]. *)
Variable get_text : Elem -> string.
Variable attr : Elem -> string -> option string.
(** [elem.find_next_sibling(names)]. *)
Variable find_next_sibling : Elem -> list string -> option Elem.
(** [for e in soup(names): e.decompose()]. *)
Variable decompose : list string -> Elem -> Elem.
Variable urljoin : string -> string -> string.
Variable py_str : json -> string.
Variable get_page_content : string -> result (option string).
Variable get_json : string -> result (option json).

(** [for selector in selectors: e = elem.select_one(selector); if e: ...; break]. *)
Fixpoint first_selected (element : Elem) (selectors : list string) : option Elem :=
  match selectors with
  | [] => None
  | selector :: rest =>
      match select_one element selector with
      | Some found => Some found
      | None => first_selected element rest
      end
  end.

Definition stripped_text (element : Elem) : string := strip (get_text element).

(** **** ProductExtractor *)

Definition title_selectors : list string :=
  ["h1"; "h2"; "h3"; ".product-title"; ".title"; "[data-product-title]"].

Definition price_selectors : list string :=
  [".price"; ".product-price"; "[data-price]"; ".money"].

Definition _parse_product_element (element : Elem) (base_url : string)
    : option ProductSchema.t :=
  let title := option_map stripped_text (first_selected element title_selectors) in
  match title with
  | None => None
  | Some title =>
      if negb (str_truthy title) then None
      else
        let price := option_map stripped_text (first_selected element price_selectors) in
        let images :=
          match select_one element "img" with
          | Some img_elem =>
              match attr img_elem "src" with
              | Some src => if str_truthy src then [src] else []
              | None => []
              end
          | None => []
          end in
        let url :=
          match select_one element "a" with
          | Some link_elem =>
              match attr link_elem "href" with
              | Some href => if str_truthy href then Some (urljoin base_url href) else None
              | None => None
              end
          | None => None
          end in
        Some (ProductSchema.mk None title None None price None None None
                [] images [] true url)
  end.

Definition hero_selectors : list string :=
  [".featured-product"; ".hero-product"; ".product-featured"; ".homepage-product";
   "[data-product-id]"; ".product-card"; ".product-item"].

(** [for selector in hero_selectors: elements = soup.select(selector);
    if elements: ...; break]: the elements the loop body works on. *)
Fixpoint hero_elements (soup : Elem) (selectors : list string) : list Elem :=
  match selectors with
  | [] => []
  | selector :: rest =>
      match select soup selector with
      | [] => hero_elements soup rest
      | elements => elements
      end
  end.

(** The second loop of [extract_hero_products], with [seen_titles]. *)
Fixpoint unique_products (seen_titles : gset string) (products : list ProductSchema.t)
    : list ProductSchema.t :=
  match products with
  | [] => []
  | product :: rest =>
      if bool_decide (ProductSchema.title product ∈ seen_titles)
      then unique_products seen_titles rest
      else product :: unique_products ({[ProductSchema.title product]} ∪ seen_titles) rest
  end.

Definition extract_hero_products (soup : Elem) (base_url : string)
    : list ProductSchema.t :=
  let hero_products :=
    omap (fun element => _parse_product_element element base_url)
      (firstn 6 (hero_elements soup hero_selectors)) in
  unique_products ∅ hero_products.

(** One turn of the [while True] loop of [extract_all_products]: the
    items of the page, or [None] where the loop breaks. *)
Definition catalog_page (base_url : string) (page : Z) : option (list json) :=
  let products_url := urljoin base_url "/products.json" in
  let paginated_url :=
    (products_url ++ "?page=" ++ decimal page ++ "&limit=250")%string in
  match get_json paginated_url with
  | Raise _ => None
  | Ok None => None
  | Ok (Some content) =>
      if negb (truthy content) then None
      else
        match py_in "products" content with
        | Ok true =>
            match py_getitem content "products" with
            | Ok page_products =>
                if negb (truthy page_products) then None
                else match py_iter page_products with
                     | Ok items => Some items
                     | Raise _ => None
                     end
            | Raise _ => None
            end
        | Ok false | Raise _ => None
        end
  end.

(** The [while True] loop.  [pages_left] only serves as the measure of
    the recursion; the loop ends on a break or on [page > 100]. *)
Fixpoint catalog_loop (pages_left : nat) (base_url : string) (page : Z)
    (products : list ProductSchema.t) : list ProductSchema.t :=
  match pages_left with
  | O => products
  | S pages_left' =>
      match catalog_page base_url page with
      | None => products                                          (* break *)
      | Some items =>
          let products :=
            products ++ omap (fun product_data =>
                                _parse_product_json urljoin py_str product_data base_url)
                             items in
          let page := page + 1 in
          if page >? 100 then products                            (* break *)
          else catalog_loop pages_left' base_url page products
      end
  end.

Definition extract_all_products (base_url : string) : list ProductSchema.t :=
  catalog_loop 100 base_url 1 [].

(** **** PolicyExtractor *)

Definition policy_urls : list (string * list string) :=
  [ ("privacy", ["/pages/privacy-policy"; "/privacy-policy"; "/privacy"]);
    ("return",  ["/pages/return-policy"; "/return-policy"; "/returns"]);
    ("refund",  ["/pages/refund-policy"; "/refund-policy"; "/refunds"]);
    ("terms",   ["/pages/terms-of-service"; "/terms-of-service"; "/terms"]) ].

Definition policy_selectors : list string :=
  [".policy-content"; ".page-content"; ".main-content"; "main"; ".content"; "article"].

(** The text taken for the policy: the first container found, or the
    whole page when there is none or it is empty. *)
Definition policy_text (soup : Elem) : string :=
  match option_map stripped_text (first_selected soup policy_selectors) with
  | Some policy_content =>
      if str_truthy policy_content then policy_content else stripped_text soup
  | None => stripped_text soup
  end.

Fixpoint _extract_policy (base_url policy_type : string) (url_patterns : list string)
    : option PolicySchema.t :=
  match url_patterns with
  | [] => None
  | pattern :: rest =>
      let policy_url := urljoin base_url pattern in
      match get_page_content policy_url with
      | Ok (Some content) =>
          if str_truthy content then
            let soup := decompose ["script"; "style"] (BeautifulSoup content) in
            let policy_content := policy_text soup in
            if str_truthy policy_content && (100 <? String.length policy_content)%nat
            then Some (PolicySchema.mk policy_content (Some policy_url) None)
            else _extract_policy base_url policy_type rest
          else _extract_policy base_url policy_type rest
      | Ok None | Raise _ => _extract_policy base_url policy_type rest
      end
  end.

Definition extract_all_policies (base_url : string) : gmap string PolicySchema.t :=
  fold_left
    (fun policies entry =>
       match _extract_policy base_url (fst entry) (snd entry) with
       | Some policy => <[fst entry := policy]> policies
       | None => policies
       end)
    policy_urls ∅.

(** **** FAQExtractor *)

Definition faq_from_container (container : Elem) : option FAQSchema.t :=
  match select_one container ".question, .faq-question, h3, h4, .title",
        select_one container ".answer, .faq-answer, .content, p" with
  | Some question_elem, Some answer_elem =>
      let question := stripped_text question_elem in
      let answer := stripped_text answer_elem in
      if str_truthy question && str_truthy answer
      then Some (FAQSchema.mk question answer None)
      else None
  | _, _ => None
  end.

Definition faq_from_header (header : Elem) : option FAQSchema.t :=
  let question := stripped_text header in
  if contains question "?" then
    match find_next_sibling header ["p"; "div"] with
    | Some next_elem =>
        let answer := stripped_text next_elem in
        if str_truthy answer && (10 <? String.length answer)%nat
        then Some (FAQSchema.mk question answer None)
        else None
    | None => None
    end
  else None.

Definition _parse_faq_page (soup : Elem) : list FAQSchema.t :=
  let faqs :=
    omap faq_from_container (select soup ".faq, .question, .accordion-item, .faq-item") in
  if nonempty faqs then faqs
  else omap faq_from_header (select soup "h3, h4").

(** **** LinkExtractor *)

Definition link_patterns : list (string * list string) :=
  [ ("order_tracking", ["track"; "order"; "tracking"]);
    ("contact_us",     ["contact"; "support"; "help"]);
    ("blogs",          ["blog"; "news"; "articles"]);
    ("size_guide",     ["size"; "guide"; "sizing"]);
    ("shipping_info",  ["shipping"; "delivery"]);
    ("careers",        ["career"; "job"; "work"]);
    ("about_us",       ["about"; "story"; "company"]) ].

(** [getattr(links, link_type)] and [setattr(links, link_type, href)]. *)
Definition get_link (links : ImportantLinksSchema.t) (link_type : string) : option string :=
  if String.eqb link_type "order_tracking" then ImportantLinksSchema.order_tracking links
  else if String.eqb link_type "contact_us" then ImportantLinksSchema.contact_us links
  else if String.eqb link_type "blogs" then ImportantLinksSchema.blogs links
  else if String.eqb link_type "size_guide" then ImportantLinksSchema.size_guide links
  else if String.eqb link_type "shipping_info" then ImportantLinksSchema.shipping_info links
  else if String.eqb link_type "careers" then ImportantLinksSchema.careers links
  else if String.eqb link_type "about_us" then ImportantLinksSchema.about_us links
  else None.

Definition set_link (links : ImportantLinksSchema.t) (link_type href : string)
    : ImportantLinksSchema.t :=
  let v := Some href in
  let '(ImportantLinksSchema.mk ot cu bl sg si ca au) := links in
  if String.eqb link_type "order_tracking" then ImportantLinksSchema.mk v cu bl sg si ca au
  else if String.eqb link_type "contact_us" then ImportantLinksSchema.mk ot v bl sg si ca au
  else if String.eqb link_type "blogs" then ImportantLinksSchema.mk ot cu v sg si ca au
  else if String.eqb link_type "size_guide" then ImportantLinksSchema.mk ot cu bl v si ca au
  else if String.eqb link_type "shipping_info" then ImportantLinksSchema.mk ot cu bl sg v ca au
  else if String.eqb link_type "careers" then ImportantLinksSchema.mk ot cu bl sg si v au
  else if String.eqb link_type "about_us" then ImportantLinksSchema.mk ot cu bl sg si ca v
  else links.

(** [for link_type, keywords in link_patterns.items()] for one link; the
    [break] sits inside the not-yet-set test. *)
Fixpoint link_types_loop (href text : string) (patterns : list (string * list string))
    (links : ImportantLinksSchema.t) : ImportantLinksSchema.t :=
  match patterns with
  | [] => links
  | (link_type, keywords) :: rest =>
      if existsb (fun keyword => contains text keyword || contains (lower href) keyword)
           keywords
      then
        if negb (opt_truthy (get_link links link_type))
        then set_link links link_type href                          (* break *)
        else link_types_loop href text rest links
      else link_types_loop href text rest links
  end.

(** One anchor: [link['href']] and [link.get_text()]. *)
Definition scan_link (base_url : string) (links : ImportantLinksSchema.t)
    (link : string * string) : ImportantLinksSchema.t :=
  let href := fst link in
  let text := lower (strip (snd link)) in
  let href := if startswith href "/" then urljoin base_url href else href in
  link_types_loop href text link_patterns links.

(** [extract_important_links], on the anchors that have an [href], in
    document order. *)
Definition extract_important_links (all_links : list (string * string))
    (base_url : string) : ImportantLinksSchema.t :=
  fold_left (scan_link base_url) all_links ImportantLinksSchema.default.

(** **** BrandContextExtractor *)

Variable llm_is_available : bool.
Variable llm_extract_brand_context : string -> option string.

Definition about_urls : list string :=
  ["/pages/about"; "/pages/about-us"; "/about"; "/story"].

Definition about_selectors : list string :=
  [".about-content"; ".page-content"; "main"; ".content"; "article"].

(** [for selector in content_selectors] on one about page; [Some r] when
    the function returns [r] from inside the loop. *)
Fixpoint about_selectors_loop (about_soup : Elem) (selectors : list string)
    : option (option string) :=
  match selectors with
  | [] => None
  | selector :: rest =>
      match select_one about_soup selector with
      | Some content_elem =>
          let text := stripped_text content_elem in
          if (100 <? String.length text)%nat then
            if llm_is_available then Some (llm_extract_brand_context text)
            else Some (Some (str_slice 1000 text))
          else about_selectors_loop about_soup rest
      | None => about_selectors_loop about_soup rest
      end
  end.

Fixpoint about_pages_loop (base_url : string) (urls : list string)
    : option (option string) :=
  match urls with
  | [] => None
  | about_url :: rest =>
      let full_url := urljoin base_url about_url in
      match get_page_content full_url with
      | Ok (Some content) =>
          if str_truthy content then
            let about_soup :=
              decompose ["script"; "style"; "nav"; "header"; "footer"]
                (BeautifulSoup content) in
            match about_selectors_loop about_soup about_selectors with
            | Some returned => Some returned
            | None => about_pages_loop base_url rest
            end
          else about_pages_loop base_url rest
      | Ok None | Raise _ => about_pages_loop base_url rest
      end
  end.

Definition intro_selectors : list string := [".hero"; ".banner"; ".intro"; ".description"].

(** The fallback on the landing page. *)
Fixpoint intro_loop (soup : Elem) (selectors : list string) : option string :=
  match selectors with
  | [] => None
  | selector :: rest =>
      match select_one soup selector with
      | Some hero_elem =>
          let text := stripped_text hero_elem in
          if (50 <? String.length text)%nat then Some (str_slice 500 text)
          else intro_loop soup rest
      | None => intro_loop soup rest
      end
  end.

Definition extract_brand_context (soup : Elem) (base_url : string) : option string :=
  match about_pages_loop base_url about_urls with
  | Some returned => returned
  | None => intro_loop soup intro_selectors
  end.

End Pages.

End Extractors.

(** ** app/services/scraper.py *)
Module Scraper.
Import Py.

(** [_normalize_url]:
    [if not url.startswith(('http://', 'https://')): url = 'https://' + url]
    followed by [return url.rstrip('/')]. *)
Definition has_scheme (url : string) : bool :=
  startswith url "http://" || startswith url "https://".

Definition with_scheme (url : string) : string :=
  if negb (has_scheme url) then ("https://" ++ url)%string else url.

Definition _normalize_url (url : string) : string :=
  rstrip_char "/" (with_scheme url).

(** The normalisation as the specification words it: the scheme is
    enforced and exactly one trailing slash, when there is one, is dropped. *)
Fixpoint strip_one_trailing_slash (s : string) : string :=
  match s with
  | EmptyString => EmptyString
  | String a EmptyString => if Ascii.eqb a "/" then EmptyString else s
  | String a s' => String a (strip_one_trailing_slash s')
  end.

Definition normalize_url_spec (url : string) : string :=
  strip_one_trailing_slash (with_scheme url).

(** [asyncio.gather(..., return_exceptions=True)] hands back, for each
    coroutine, its value or the exception it raised; the eight results
    are unpacked in this order. *)
Record gathered (Policies : Type) : Type := {
  product_catalog : result (list ProductSchema.t);
  hero_products : result (list ProductSchema.t);
  policies : result Policies;
  faqs : result (list FAQSchema.t);
  social_handles : result SocialHandlesSchema.t;
  contact_details : result ContactDetailsSchema.t;
  important_links : result ImportantLinksSchema.t;
  brand_context : result (option string)
}.
Arguments product_catalog {Policies} g.
Arguments hero_products {Policies} g.
Arguments policies {Policies} g.
Arguments faqs {Policies} g.
Arguments social_handles {Policies} g.
Arguments contact_details {Policies} g.
Arguments important_links {Policies} g.
Arguments brand_context {Policies} g.

(** [x if not isinstance(x, Exception) else default]. *)
Definition or_default {A} (x : result A) (default : A) : A :=
  match x with
  | Ok v => v
  | Raise _ => default
  end.

Section Orchestrator.

(** A parsed page, and [BeautifulSoup(markup, 'html.parser')] on a str. *)
Variable Soup : Type.
Variable BeautifulSoup : string -> Soup.
Variable get_page_content : string -> result (option string).
Variable _extract_brand_name : Soup -> string -> option string.
(** The eight extraction coroutines, run on the landing page and the
    normalised URL. *)
Variable extraction_tasks : Soup -> string -> gathered (gmap string PolicySchema.t).
(** [datetime.now()] when the record is assembled. *)
Variable now : Z.

Definition extract_insights (website_url : string) : result BrandInsightsSchema.t :=
  let normalized_url := _normalize_url website_url in
  (main_page_content <- get_page_content normalized_url ;;
   main_soup <- match main_page_content with
                | Some markup => Ok (BeautifulSoup markup)
                | None => Raise TypeError          (* BeautifulSoup(None, ...) *)
                end ;;
   let brand_name := _extract_brand_name main_soup normalized_url in
   let results := extraction_tasks main_soup normalized_url in
   let product_catalog := or_default (product_catalog results) [] in
   let hero_products := or_default (hero_products results) [] in
   let policies := or_default (policies results) (∅ : gmap string PolicySchema.t) in
   let faqs := or_default (faqs results) [] in
   let social_handles := or_default (social_handles results) SocialHandlesSchema.default in
   let contact_details := or_default (contact_details results) ContactDetailsSchema.default in
   let important_links := or_default (important_links results) ImportantLinksSchema.default in
   let brand_context := or_default (brand_context results) None in
   Ok (BrandInsightsSchema.mk
         brand_name
         normalized_url
         product_catalog
         hero_products
         (policies !! "privacy")
         (policies !! "return")
         (policies !! "refund")
         (policies !! "terms")
         faqs
         social_handles
         contact_details
         brand_context
         important_links
         now))%py.

End Orchestrator.

End Scraper.

(** ** app/services/competitor_analyzer.py *)
Module CompetitorAnalyzer.
Import Py.

(** [set(p.product_type.lower() for p in catalog if p.product_type)]. *)
Definition product_types (catalog : list ProductSchema.t) : gset string :=
  list_to_set
    (omap (fun p => match ProductSchema.product_type p with
                    | Some t => if str_truthy t then Some (lower t) else None
                    | None => None
                    end) catalog).

(** [sum(1 for v in handles.dict().values() if v)]. *)
Definition platforms (handles : SocialHandlesSchema.t) : nat :=
  length (List.filter opt_truthy (SocialHandlesSchema.values handles)).

(** The score is computed twice below: first in exact arithmetic, where
    [a / b] is a rational, which is all that the facts about order and
    symmetry need; then, in [Binary64], on the floats of the code. *)

(** [a / b] on two ints, unrounded. *)
Definition true_div (a b : nat) : Q :=
  (inject_Z (Z.of_nat a) / inject_Z (Z.of_nat b))%Q.

Definition _calculate_similarity (main_brand competitor : BrandInsightsSchema.t) : Q :=
  let score := 0%Q in
  let total_factors := 0%nat in
  let main_catalog := BrandInsightsSchema.product_catalog main_brand in
  let comp_catalog := BrandInsightsSchema.product_catalog competitor in
  let '(score, total_factors) :=
    if nonempty main_catalog && nonempty comp_catalog then
      let main_types := product_types main_catalog in
      let comp_types := product_types comp_catalog in
      if (0 <? size main_types)%nat && (0 <? size comp_types)%nat then
        let overlap := size (main_types ∩ comp_types) in
        let union := size (main_types ∪ comp_types) in
        ((score + (if (0 <? union)%nat then true_div overlap union else 0))%Q,
         (total_factors + 1)%nat)
      else (score, total_factors)
    else (score, total_factors) in
  let main_platforms := platforms (BrandInsightsSchema.social_handles main_brand) in
  let comp_platforms := platforms (BrandInsightsSchema.social_handles competitor) in
  let '(score, total_factors) :=
    if (0 <? main_platforms)%nat && (0 <? comp_platforms)%nat then
      ((score + true_div (Nat.min main_platforms comp_platforms)
                         (Nat.max main_platforms comp_platforms))%Q,
       (total_factors + 1)%nat)
    else (score, total_factors) in
  let main_product_count := length main_catalog in
  let comp_product_count := length comp_catalog in
  let '(score, total_factors) :=
    if (0 <? main_product_count)%nat && (0 <? comp_product_count)%nat then
      let ratio := true_div (Nat.min main_product_count comp_product_count)
                            (Nat.max main_product_count comp_product_count) in
      ((score + ratio)%Q, (total_factors + 1)%nat)
    else (score, total_factors) in
  if (0 <? total_factors)%nat
  then (score / inject_Z (Z.of_nat total_factors))%Q
  else 0%Q.

(** [_calculate_similarity] on binary64 floats. *)
Module Binary64.
(** [a / b] on two ints: for ints below 2^53 both convert exactly and
    the quotient is rounded once. *)
Definition true_div (a b : nat) : float :=
  float_div (float_of_int (Z.of_nat a)) (float_of_int (Z.of_nat b)).

Definition _calculate_similarity (main_brand competitor : BrandInsightsSchema.t) : float :=
  let score := float_zero in
  let total_factors := 0%nat in
  let main_catalog := BrandInsightsSchema.product_catalog main_brand in
  let comp_catalog := BrandInsightsSchema.product_catalog competitor in
  let '(score, total_factors) :=
    if nonempty main_catalog && nonempty comp_catalog then
      let main_types := product_types main_catalog in
      let comp_types := product_types comp_catalog in
      if (0 <? size main_types)%nat && (0 <? size comp_types)%nat then
        let overlap := size (main_types ∩ comp_types) in
        let union := size (main_types ∪ comp_types) in
        (float_add score
           (if (0 <? union)%nat then true_div overlap union else float_of_int 0),
         (total_factors + 1)%nat)
      else (score, total_factors)
    else (score, total_factors) in
  let main_platforms := platforms (BrandInsightsSchema.social_handles main_brand) in
  let comp_platforms := platforms (BrandInsightsSchema.social_handles competitor) in
  let '(score, total_factors) :=
    if (0 <? main_platforms)%nat && (0 <? comp_platforms)%nat then
      (float_add score (true_div (Nat.min main_platforms comp_platforms)
                                 (Nat.max main_platforms comp_platforms)),
       (total_factors + 1)%nat)
    else (score, total_factors) in
  let main_product_count := length main_catalog in
  let comp_product_count := length comp_catalog in
  let '(score, total_factors) :=
    if (0 <? main_product_count)%nat && (0 <? comp_product_count)%nat then
      let ratio := true_div (Nat.min main_product_count comp_product_count)
                            (Nat.max main_product_count comp_product_count) in
      (float_add score ratio, (total_factors + 1)%nat)
    else (score, total_factors) in
  if (0 <? total_factors)%nat
  then float_div score (float_of_int (Z.of_nat total_factors))
  else float_zero.
End Binary64.

Section Summary.

(** [f"{x:.2f}"] on a float and [f"{n}"] on an int. *)
Variable format_2f : Q -> string.
Variable format_int : nat -> string.

Definition or_str (o : option string) (default : string) : string :=
  match o with
  | Some v => if str_truthy v then v else default
  | None => default
  end.

(** [c.similarity_score or 0]. *)
Definition score_or_0 (c : CompetitorSchema.t) : Q :=
  match CompetitorSchema.similarity_score c with Some q => q | None => 0%Q end.

(** [max(competitors, key=...)] below a first element: the first of the
    largest wins. *)
Fixpoint max_by_score (best : CompetitorSchema.t) (rest : list CompetitorSchema.t)
    : CompetitorSchema.t :=
  match rest with
  | [] => best
  | c :: rest' =>
      if Qle_bool (score_or_0 c) (score_or_0 best) then max_by_score best rest'
      else max_by_score c rest'
  end.

Definition brand_of (main_brand : BrandInsightsSchema.t) : string :=
  or_str (BrandInsightsSchema.brand_name main_brand) "the brand".

(** The text that the non-empty branch assembles in [summary], for a top
    competitor whose score is [top_score]. *)
Definition assembled_summary (main_brand : BrandInsightsSchema.t)
    (first : CompetitorSchema.t) (others : list CompetitorSchema.t)
    (top_score : Q) : string :=
  let competitors := first :: others in
  let avg_similarity :=
    (fold_left Qplus (map score_or_0 competitors) 0
     / inject_Z (Z.of_nat (length competitors)))%Q in
  let top_competitor := max_by_score first others in
  ("Analyzed " ++ format_int (length competitors) ++ " competitors for "
   ++ brand_of main_brand ++ ". "
   ++ "Average similarity score: " ++ format_2f avg_similarity ++ ". "
   ++ "Most similar competitor: "
   ++ or_str (CompetitorSchema.competitor_name top_competitor) "Unknown" ++ " "
   ++ "with similarity score of " ++ format_2f top_score ++ ".")%string.

(** [_generate_basic_summary].  The value is what the call returns: the
    empty branch has a [return]; the other branch builds [summary] and
    runs off the end of the function, which yields [None].  Formatting a
    missing score with [:.2f] raises. *)
Definition _generate_basic_summary (main_brand : BrandInsightsSchema.t)
    (competitors : list CompetitorSchema.t) : result (option string) :=
  match competitors with
  | [] =>
      Ok (Some ("No competitors found for analysis of "
                ++ brand_of main_brand ++ ".")%string)
  | first :: others =>
      let top_competitor := max_by_score first others in
      match CompetitorSchema.similarity_score top_competitor with
      | None => Raise TypeError
      | Some top_score =>
          let summary := assembled_summary main_brand first others top_score in
          Ok None
      end
  end.

End Summary.

(** [a > b * 1.5] for two counts. *)
Definition exceeds_by_half (a b : nat) : bool :=
  negb (Qle_bool (inject_Z (Z.of_nat a)) (inject_Z (Z.of_nat b) * (3 # 2))).

(** [sum(1 for policy in [privacy, return, refund, terms] if policy)]. *)
Definition policies_present (brand : BrandInsightsSchema.t) : nat :=
  length (List.filter (fun policy => match policy with Some _ => true | None => false end)
            [BrandInsightsSchema.privacy_policy brand;
             BrandInsightsSchema.return_policy brand;
             BrandInsightsSchema.refund_policy brand;
             BrandInsightsSchema.terms_of_service brand]).

Definition _identify_competitive_advantages
    (main_brand competitor : BrandInsightsSchema.t) : list string :=
  let advantages := [] in
  let main_products := length (BrandInsightsSchema.product_catalog main_brand) in
  let comp_products := length (BrandInsightsSchema.product_catalog competitor) in
  let advantages :=
    if exceeds_by_half comp_products main_products
    then advantages ++ ["Larger product catalog"] else advantages in
  let main_platforms := platforms (BrandInsightsSchema.social_handles main_brand) in
  let comp_platforms := platforms (BrandInsightsSchema.social_handles competitor) in
  let advantages :=
    if (main_platforms <? comp_platforms)%nat
    then advantages ++ ["Stronger social media presence"] else advantages in
  let main_policies := policies_present main_brand in
  let comp_policies := policies_present competitor in
  let advantages :=
    if (main_policies <? comp_policies)%nat
    then advantages ++ ["More comprehensive policies"] else advantages in
  let main_faqs := length (BrandInsightsSchema.faqs main_brand) in
  let comp_faqs := length (BrandInsightsSchema.faqs competitor) in
  let advantages :=
    if exceeds_by_half comp_faqs main_faqs
    then advantages ++ ["More comprehensive FAQ section"] else advantages in
  firstn 5 advantages.

(** [CompetitorSchema(...)]: the score field is declared with
    [Field(None, ge=0.0, le=1.0)]. *)
Definition competitor_schema (competitor_name : option string) (website_url : string)
    (insights : BrandInsightsSchema.t) (similarity_score : option Q)
    (competitive_advantages : list string) : result CompetitorSchema.t :=
  let in_range :=
    match similarity_score with
    | Some q => Qle_bool 0 q && Qle_bool q 1
    | None => true
    end in
  if in_range
  then Ok (CompetitorSchema.mk competitor_name website_url insights similarity_score
             competitive_advantages)
  else Raise ValidationError.

Section Competitors.

(** [self.scraper.extract_insights] and [self.http_client.get_page_content]. *)
Variable extract_insights : string -> result BrandInsightsSchema.t.
Variable get_page_content : string -> result (option string).
(** [urlparse(url).netloc]. *)
Variable netloc : string -> string.
(** [re.findall(r'\b[a-zA-Z]{4,}\b', text)] and the order in which a set
    of strings is iterated. *)
Variable findall_words : string -> list string.
Variable set_to_list : gset string -> list string.

Definition _analyze_single_competitor (competitor_url : string)
    (main_brand_insights : BrandInsightsSchema.t) : option CompetitorSchema.t :=
  match extract_insights competitor_url with
  | Ok competitor_insights =>
      let similarity_score :=
        _calculate_similarity main_brand_insights competitor_insights in
      let advantages :=
        _identify_competitive_advantages main_brand_insights competitor_insights in
      match competitor_schema (BrandInsightsSchema.brand_name competitor_insights)
              competitor_url competitor_insights (Some similarity_score) advantages with
      | Ok competitor => Some competitor
      | Raise _ => None
      end
  | Raise _ => None
  end.

Definition common_words : list string :=
  ["brand"; "company"; "store"; "shop"; "online"; "website"; "products"].

Definition _generate_search_queries (brand_insights : BrandInsightsSchema.t)
    : list string :=
  let queries := [] in
  let queries :=
    match BrandInsightsSchema.brand_context brand_insights with
    | Some brand_context =>
        if str_truthy brand_context then
          let context_words := findall_words (lower brand_context) in
          let key_terms :=
            firstn 5 (List.filter (fun word => negb (existsb (String.eqb word) common_words))
                        context_words) in
          if nonempty key_terms
          then queries ++ [(join " " (firstn 3 key_terms) ++ " shopify store")%string]
          else queries
        else queries
    | None => queries
    end in
  let queries :=
    if nonempty (BrandInsightsSchema.product_catalog brand_insights) then
      let product_types :=
        product_types (firstn 10 (BrandInsightsSchema.product_catalog brand_insights)) in
      queries ++ map (fun product_type => (product_type ++ " online store")%string)
                   (firstn 3 (set_to_list product_types))
    else queries in
  if nonempty queries then queries else ["shopify ecommerce store"].

Definition sample_stores : list string :=
  ["https://colourpop.com"; "https://gymshark.com"; "https://allbirds.com";
   "https://warbyparker.com"; "https://casper.com"].

Definition _search_for_competitors (query : string) : list string :=
  firstn 2 sample_stores.

Definition industry_stores : list (string * list string) :=
  [ ("fashion", ["https://fashionnova.com"; "https://prettylittlething.com"]);
    ("beauty",  ["https://glossier.com"; "https://rarebeauty.com"]);
    ("fitness", ["https://lululemon.com"; "https://alo.com"]) ].

Fixpoint industry_loop (context_lower : string) (table : list (string * list string))
    : list string :=
  match table with
  | [] => []
  | (industry, stores) :: rest =>
      if contains context_lower industry then firstn 2 stores
      else industry_loop context_lower rest
  end.

Definition _find_industry_competitors (brand_insights : BrandInsightsSchema.t)
    : list string :=
  match BrandInsightsSchema.brand_context brand_insights with
  | Some brand_context =>
      if str_truthy brand_context then industry_loop (lower brand_context) industry_stores
      else []
  | None => []
  end.

Definition _validate_competitor_url (url : string) : bool :=
  if negb (startswith url "http://" || startswith url "https://") then false
  else
    match get_page_content url with
    | Ok (Some content) => (1000 <? String.length content)%nat
    | Ok None | Raise _ => false
    end.

(** [for query in search_queries[:3]], collecting into [competitors]. *)
Fixpoint search_loop (max_competitors : Z) (queries : list string)
    (competitors : list string) : list string :=
  match queries with
  | [] => competitors
  | query :: rest =>
      let competitors := competitors ++ _search_for_competitors query in
      if Z.of_nat (length competitors) >=? max_competitors * 2 then competitors
      else search_loop max_competitors rest competitors
  end.

(** [for competitor_url in competitors], collecting into [valid_competitors]. *)
Fixpoint validation_loop (max_competitors : Z) (main_domain : string)
    (competitors valid_competitors : list string) : list string :=
  match competitors with
  | [] => valid_competitors
  | competitor_url :: rest =>
      if Z.of_nat (length valid_competitors) >=? max_competitors then valid_competitors
      else if String.eqb (netloc competitor_url) main_domain
      then validation_loop max_competitors main_domain rest valid_competitors
      else if _validate_competitor_url competitor_url
      then validation_loop max_competitors main_domain rest
             (valid_competitors ++ [competitor_url])
      else validation_loop max_competitors main_domain rest valid_competitors
  end.

Definition _find_competitors (main_brand_url : string)
    (main_brand_insights : BrandInsightsSchema.t) (max_competitors : Z) : list string :=
  let search_queries := _generate_search_queries main_brand_insights in
  let competitors := search_loop max_competitors (firstn 3 search_queries) [] in
  let competitors := competitors ++ _find_industry_competitors main_brand_insights in
  validation_loop max_competitors (netloc main_brand_url) competitors [].

(** The language model behind [self.llm_processor], the number
    formatting of the summary and the clock. *)
Variable client : option (string -> result (option string)).
Variable analysis_prompt : string -> string -> string.
Variable _extract_advantages : string -> list string.
Variable format_2f : Q -> string.
Variable format_int : nat -> string.
Variable now : Z.

(** [if i < len(advantages): competitor.competitive_advantages = advantages[i:i+1]]. *)
Definition with_advantages (advantages : list string) (i : nat)
    (competitor : CompetitorSchema.t) : CompetitorSchema.t :=
  match nth_error advantages i with
  | Some advantage =>
      CompetitorSchema.mk (CompetitorSchema.competitor_name competitor)
        (CompetitorSchema.website_url competitor) (CompetitorSchema.insights competitor)
        (CompetitorSchema.similarity_score competitor) [advantage]
  | None => competitor
  end.

Definition analyze_competitors (main_brand_url : string) (max_competitors : Z)
    : result CompetitorAnalysisResponse.t :=
  (main_brand_insights <- extract_insights main_brand_url ;;
   let competitor_urls :=
     _find_competitors main_brand_url main_brand_insights max_competitors in
   let competitor_results :=
     map (fun url => _analyze_single_competitor url main_brand_insights) competitor_urls in
   let competitors := omap (fun result => result) competitor_results in
   let '(analysis_summary, competitors) :=
     if LLMProcessor.is_available client && nonempty competitors then
       let competitor_data := map CompetitorSchema.insights competitors in
       let llm_analysis :=
         LLMProcessor.analyze_competitors client analysis_prompt _extract_advantages
           main_brand_insights competitor_data in
       let analysis_summary := Some (LLMProcessor.analysis_summary llm_analysis) in
       let advantages :=
         match LLMProcessor.competitive_advantages llm_analysis with
         | Some advantages => advantages
         | None => []
         end in
       (analysis_summary, imap (with_advantages advantages) competitors)
     else (None, competitors) in
   summary <- (if opt_truthy analysis_summary then Ok analysis_summary
               else _generate_basic_summary format_2f format_int
                      main_brand_insights competitors) ;;
   Ok (CompetitorAnalysisResponse.mk main_brand_insights competitors summary now))%py.

End Competitors.

End CompetitorAnalyzer.

(** ** app/api/routes/insights.py *)
Module Routes.
Import Py.

Definition count_truthy (values : list (option string)) : nat :=
  length (List.filter opt_truthy values).

Definition _count_data_points (insights : BrandInsightsSchema.t) : nat :=
  let count := 0%nat in
  let count :=
    if opt_truthy (BrandInsightsSchema.brand_name insights) then (count + 1)%nat else count in
  let count :=
    if nonempty (BrandInsightsSchema.product_catalog insights)
    then (count + length (BrandInsightsSchema.product_catalog insights))%nat else count in
  let count :=
    if nonempty (BrandInsightsSchema.hero_products insights)
    then (count + length (BrandInsightsSchema.hero_products insights))%nat else count in
  let count :=
    match BrandInsightsSchema.privacy_policy insights with
    | Some _ => (count + 1)%nat | None => count end in
  let count :=
    match BrandInsightsSchema.return_policy insights with
    | Some _ => (count + 1)%nat | None => count end in
  let count :=
    match BrandInsightsSchema.refund_policy insights with
    | Some _ => (count + 1)%nat | None => count end in
  let count :=
    match BrandInsightsSchema.terms_of_service insights with
    | Some _ => (count + 1)%nat | None => count end in
  let count :=
    if nonempty (BrandInsightsSchema.faqs insights)
    then (count + length (BrandInsightsSchema.faqs insights))%nat else count in
  let count :=
    (count + count_truthy
               (SocialHandlesSchema.values (BrandInsightsSchema.social_handles insights)))%nat in
  let contact := BrandInsightsSchema.contact_details insights in
  let count :=
    (count + (length (ContactDetailsSchema.emails contact)
              + length (ContactDetailsSchema.phone_numbers contact)
              + count_truthy [ContactDetailsSchema.address contact;
                              ContactDetailsSchema.support_hours contact]))%nat in
  let links := BrandInsightsSchema.important_links insights in
  let count :=
    (count + count_truthy
               [ImportantLinksSchema.order_tracking links;
                ImportantLinksSchema.contact_us links;
                ImportantLinksSchema.blogs links;
                ImportantLinksSchema.size_guide links;
                ImportantLinksSchema.shipping_info links;
                ImportantLinksSchema.careers links;
                ImportantLinksSchema.about_us links])%nat in
  if opt_truthy (BrandInsightsSchema.brand_context insights) then (count + 1)%nat else count.

End Routes.

(* ===================================================================== *)
(** * Part II: vocabulary of the statements, and sample stores            *)
(* ===================================================================== *)

(** ** The real number a float stands for *)
Module FloatSpec.
Import Py.
Local Open Scope Q_scope.

Definition pow2 (e : Z) : Q := Qpower 2 e.

Definition finite (x : float) : bool :=
  match x with
  | S754_zero _ | S754_finite _ _ _ => true
  | S754_infinity _ | S754_nan => false
  end.

Definition value (x : float) : Q :=
  match x with
  | S754_finite s m e =>
      (if s then - inject_Z (Zpos m) else inject_Z (Zpos m)) * pow2 e
  | _ => 0
  end.

(** A real [x] lies in the slot of the integer [m] at exponent [e], and
    the two flags are both off exactly when it sits on the slot's lower end. *)
Definition inbetween (mrs : shr_record) (e : Z) (x : Q) : Prop :=
  inject_Z (shr_m mrs) * pow2 e <= x
  /\ x < inject_Z (shr_m mrs + 1) * pow2 e
  /\ (shr_r mrs || shr_s mrs = false <-> x == inject_Z (shr_m mrs) * pow2 e).

(** A non-negative float of exponent at most 0 whose value lies between
    two integers. *)
Definition within (lo hi : Z) (x : float) : Prop :=
  match x with
  | S754_zero s => s = false /\ (lo <= 0)%Z /\ (0 <= hi)%Z
  | S754_finite s m e =>
      s = false /\ (e <= 0)%Z
      /\ inject_Z lo <= inject_Z (Zpos m) * pow2 e <= inject_Z hi
  | _ => False
  end.
End FloatSpec.

(** ** Terms used to state the facts about the retry loop *)
Module HttpClientSpec.
Import Py HttpClient.

(** The events of one failed iteration of the retry loop. *)
Definition failed_iteration (retries attempt : Z) : list event :=
  EvRequest attempt :: (if attempt <? retries then [EvSleep (2 ^ attempt)] else []).

(** An outcome after which [get_page_content] goes round the loop again. *)
Definition page_retryable (o : attempt_outcome string) : bool :=
  match o with
  | Status200 (Ok _) | Status404 => false
  | Status200 (Raise _) | StatusOther _ | RequestRaised _ => true
  end.

(** An outcome after which [get_json] goes round the loop again. *)
Definition json_retryable {J} (o : attempt_outcome J) : bool :=
  match o with
  | Status200 (Ok _) | Status404 => false
  | Status200 (Raise JSONDecodeError) | RequestRaised JSONDecodeError => false
  | Status200 (Raise _) | StatusOther _ | RequestRaised _ => true
  end.

Definition always_timeout : endpoint string := fun _ => RequestRaised TimeoutError.

Definition timeout_then_garbage : endpoint Z := fun attempt =>
  if attempt =? 0 then RequestRaised TimeoutError
  else Status200 (Raise JSONDecodeError).

(** An outcome after which [post_json] goes round the loop again:
    everything but an accepted status with a body that decodes. *)
Definition post_retryable {J} (o : post_outcome J) : bool :=
  match o with
  | PostStatus code (Ok _) => negb (post_accepted code)
  | PostStatus _ (Raise _) | PostRaised _ => true
  end.

(** Two failures followed by the page. *)
Definition third_time_lucky : endpoint string := fun attempt =>
  if attempt <? 2 then StatusOther 503 else Status200 (Ok "<html>").

(** A failure followed by a 404, for the page and for the JSON fetch. *)
Definition error_then_missing {A} : endpoint A := fun attempt =>
  if attempt =? 0 then StatusOther 500 else Status404.

(** An endpoint that answers every POST with 404, and one that answers
    201 with a body that is not JSON. *)
Definition post_always_missing : Z -> post_outcome Z :=
  fun _ => PostStatus 404 (Raise JSONDecodeError).
Definition post_created_garbage : Z -> post_outcome Z :=
  fun _ => PostStatus 201 (Raise JSONDecodeError).

(** An endpoint that answers every request with status 200 and an HTML
    page: [response.json()] raises aiohttp's [ContentTypeError]. *)
Definition html_error_page : endpoint Z :=
  fun _ => Status200 (Raise (ClientError "ContentTypeError")).

(** A JSON endpoint that answers at the second request. *)
Definition json_second_try : endpoint Z := fun attempt =>
  if attempt =? 0 then RequestRaised TimeoutError else Status200 (Ok 7).

(** A server that is down. *)
Definition always_503 : endpoint string := fun _ => StatusOther 503.

End HttpClientSpec.

(** ** Terms used to state the facts about the validators *)
Module ValidatorsSpec.
Import Py Validators.

(** A parenthesis somewhere in the string. *)
Definition is_paren (c : ascii) : bool := Ascii.eqb c "(" || Ascii.eqb c ")".
Definition has_paren (s : string) : bool := existsb is_paren (chars s).

(** The European and the Arabic-Indic digits, and the white space of
    [str.isspace]. *)
Definition two_scripts (c : N) : bool :=
  ((48 <=? c) && (c <=? 57) || (1632 <=? c) && (c <=? 1641))%N.

Definition white_space (c : N) : bool :=
  ((9 <=? c) && (c <=? 13) || (28 <=? c) && (c <=? 32) || (c =? 133) || (c =? 160)
   || (c =? 5760) || (8192 <=? c) && (c <=? 8202) || (c =? 8232) || (c =? 8233)
   || (c =? 8239) || (c =? 8287) || (c =? 12288))%N.

(** Seven Arabic-Indic digits with a hyphen in between. *)
Definition arabic_indic_number : Unicode.ustr :=
  [1633; 1634; 1635; 45; 1636; 1637; 1638; 1639]%N.

(** A stand-in for [urlparse(url).netloc] that is right on the sample
    URLs: the host is what follows the scheme up to the next slash. *)
Definition host_of (url : string) : string :=
  let after_scheme :=
    if String.prefix "https://" url then String.substring 8 (String.length url) url
    else if String.prefix "http://" url then String.substring 7 (String.length url) url
    else "" in
  str (fst (break_at (Ascii.eqb "/") (chars after_scheme))).

End ValidatorsSpec.

(** ** Terms used to state the facts about the extractors *)
Module ExtractorsSpec.
Import Py Pydantic Validators Extractors.

(** The variant objects of a source product, in source order. *)
Definition source_variants (product_data : json) : list json :=
  match product_data with
  | JObj fields =>
      match assoc "variants" fields with
      | Some vs => match py_iter vs with Ok items => items | Raise _ => [] end
      | None => []
      end
  | _ => []
  end.

(** The availability flag of a source variant; an absent flag counts as set. *)
Definition variant_available (variant : json) : bool :=
  match variant with
  | JObj f => match assoc "available" f with Some flag => truthy flag | None => true end
  | _ => false
  end.

(** The price of a source variant, when it has one. *)
Definition variant_price (variant : json) : option string :=
  match variant with
  | JObj f => match assoc "price" f with Some (JStr s) => Some s | _ => None end
  | _ => None
  end.

(** The product of the specification's example: the first variant is
    sold out, the second is in stock. *)
Definition two_variant_product : json :=
  JObj [("id", JInt 12345); ("title", JStr "Test Product");
        ("handle", JStr "test-product");
        ("variants",
          JArr [JObj [("id", JInt 1); ("price", JStr "29.99"); ("available", JBool false)];
                JObj [("id", JInt 2); ("price", JStr "34.99"); ("available", JBool true)]])].

(** Stand-ins for [urljoin] and [str] that are right on the sample data. *)
Definition join_url (base path : string) : string := (base ++ path)%string.
Definition show_json (v : json) : string :=
  match v with JStr s => s | JInt 12345 => "12345" | _ => "" end.

Section Faqs.
Variable urljoin : string -> string -> string.
Variable get_page_content : string -> result (option string).
Variable _parse_faq_page : string -> result (list FAQSchema.t).

(** The FAQ pairs parsed from the store's pages, before any enrichment. *)
Definition parsed_faqs (base_url : string) : list FAQSchema.t :=
  faq_pages_loop urljoin get_page_content _parse_faq_page base_url faq_urls [].

End Faqs.

(** A store whose FAQ page yields thirty pairs. *)
Definition thirty_faqs : list FAQSchema.t :=
  repeat (FAQSchema.mk "Do you ship abroad?" "Yes, worldwide." None) 30.

Definition faq_page_found (url : string) : result (option string) := Ok (Some "<html>").
Definition parse_thirty (content : string) : result (list FAQSchema.t) := Ok thirty_faqs.
Definition plain_prompt (faq_text : string) : string := faq_text.

(** A configured client whose answer carries a JSON array with one merged entry. *)
Definition merging_client : option (string -> result (option string)) :=
  Some (fun _ => Ok (Some "Here you go: [...]")).
Definition loads_one_entry (text : string) : result json :=
  Ok (JArr [JObj [("question", JStr "Do you ship abroad?");
                  ("answer", JStr "Yes, worldwide.");
                  ("category", JStr "Shipping")]]).

Definition accept_all_urls (url : string) : bool := true.

Definition no_contact_page (url : string) : result (option string) := Ok None.
Definition no_emails (text : string) : list string := [].

(** A landing page given by its nodes: a banner with the class of the
    first hero selector and no heading in it, and a product card with a
    heading.  A node is named by a string. *)
Definition page_select (soup selector : string) : list string :=
  if String.eqb selector ".featured-product" then ["banner"]
  else if String.eqb selector ".product-card" then ["card"]
  else [].

Definition page_select_one (element selector : string) : option string :=
  if String.eqb element "card" && String.eqb selector "h3" then Some "card-heading"
  else None.

Definition page_text (element : string) : string :=
  if String.eqb element "card-heading" then "Mug" else "".

Definition page_attr (element name : string) : option string := None.

(** The pages of a catalog, first page 1. *)
Definition pages_upto (n : Z) : list Z := map (fun i => 1 + i) (range n).

(** The products a list of catalog items parses to. *)
Definition parsed_items (urljoin : string -> string -> string) (py_str : json -> string)
    (base_url : string) (items : list json) : list ProductSchema.t :=
  omap (fun product_data => _parse_product_json urljoin py_str product_data base_url) items.

(** A catalog endpoint with two pages of one product each and an empty
    third page. *)
Definition sample_catalog (url : string) : result (option json) :=
  if String.eqb url "https://test-store.com/products.json?page=1&limit=250"
     || String.eqb url "https://test-store.com/products.json?page=2&limit=250"
  then Ok (Some (JObj [("products", JArr [two_variant_product])]))
  else Ok (Some (JObj [("products", JArr [])])).

(** A catalog item as the storefront serves it: the tags are a list. *)
Definition product_with_tag_list : json :=
  JObj [("id", JInt 12345); ("title", JStr "Test Product");
        ("handle", JStr "test-product");
        ("tags", JArr [JStr "cotton"; JStr "comfortable"])].

(** A store with a privacy page at the second candidate path; its text
    sits in [main] and is 120 characters long.  A document is named by its
    markup, a node by a string. *)
Definition policy_site (url : string) : result (option string) :=
  if String.eqb url "https://shop.example/privacy-policy" then Ok (Some "privacy-page")
  else Ok None.

Definition site_soup (content : string) : string := content.
Definition site_decompose (names : list string) (soup : string) : string := soup.

Definition site_select_one (element selector : string) : option string :=
  if String.eqb element "privacy-page" && String.eqb selector "main" then Some "policy-body"
  else None.

Definition site_text (element : string) : string :=
  if String.eqb element "policy-body" then repeat_char "x" 120 else "".

(** Anchors of a landing page: two links that mention contact. *)
Definition contact_links : list (string * string) :=
  [("/pages/contact", "Contact us"); ("/pages/contact-sales", "Contact sales")].

Section PolicyOrigin.
Variable Elem : Type.
Variable BeautifulSoup : string -> Elem.
Variable select_one : Elem -> string -> option Elem.
Variable get_text : Elem -> string.
Variable decompose : list string -> Elem -> Elem.
Variable urljoin : string -> string -> string.
Variable get_page_content : string -> result (option string).

(** What a policy record says about where it came from. *)
Definition policy_from (base_url : string) (url_patterns : list string)
    (policy : PolicySchema.t) : Prop :=
  exists pattern markup,
    In pattern url_patterns
    /\ get_page_content (urljoin base_url pattern) = Ok (Some markup)
    /\ PolicySchema.url policy = Some (urljoin base_url pattern)
    /\ PolicySchema.content policy
       = policy_text Elem select_one get_text
           (decompose ["script"; "style"] (BeautifulSoup markup))
    /\ (100 < String.length (PolicySchema.content policy))%nat
    /\ PolicySchema.last_updated policy = None.

End PolicyOrigin.

(** A FAQ entry as the page parser produces it. *)
Definition faq_well_formed (faq : FAQSchema.t) : Prop :=
  str_truthy (FAQSchema.question faq) = true
  /\ str_truthy (FAQSchema.answer faq) = true
  /\ FAQSchema.category faq = None.

(** An item of the reply that makes [FAQSchema(...)] raise. *)
Definition malformed_item (item : json) : Prop :=
  exists f q a, item = JObj f /\ assoc "question" f = Some q /\ assoc "answer" f = Some a
    /\ ((forall s, q <> JStr s) \/ (forall s, a <> JStr s)).

(** A client whose reply holds one well-formed entry and one whose
    question is a number. *)
Definition sloppy_client : option (string -> result (option string)) :=
  Some (fun _ => Ok (Some "[...]")).
Definition loads_one_bad_entry (text : string) : result json :=
  Ok (JArr [JObj [("question", JStr "Do you ship abroad?"); ("answer", JStr "Yes.")];
            JObj [("question", JInt 2); ("answer", JStr "No.")]]).

(** An about page whose [main] holds 120 characters. *)
Definition about_site (url : string) : result (option string) :=
  if String.eqb url "https://shop.example/pages/about" then Ok (Some "about-page")
  else Ok None.

Definition about_select_one (element selector : string) : option string :=
  if String.eqb element "about-page" && String.eqb selector "main" then Some "about-body"
  else None.

Definition about_text (element : string) : string :=
  if String.eqb element "about-body" then repeat_char "y" 1200 else "".

End ExtractorsSpec.

(** ** Terms used to state the facts about the orchestrator *)
Module ScraperSpec.
Import Py Scraper.

(** Every one of the eight coroutines raised. *)
Definition all_raised (g : gathered (gmap string PolicySchema.t)) : bool :=
  is_raise (product_catalog g) && is_raise (hero_products g)
  && is_raise (policies g) && is_raise (faqs g)
  && is_raise (social_handles g) && is_raise (contact_details g)
  && is_raise (important_links g) && is_raise (brand_context g).

(** A store that serves its landing page while every extractor fails. *)
Definition landing_only (url : string) : result (option string) :=
  Ok (Some "<html><title>Shop</title></html>").

Definition title_as_brand (soup url : string) : option string := Some "Shop".

(** [self.http_client.get_page_content(url)] with the default retry
    budget, against the servers [net]. *)
Definition fetch_through (net : string -> HttpClient.endpoint string) (url : string)
    : result (option string) :=
  Ok (fst (HttpClient.run (HttpClient.get_page_content (net url) None))).

Definition every_task_raises (soup url : string)
    : gathered (gmap string PolicySchema.t) :=
  {| product_catalog := Raise (ClientError "catalog");
     hero_products := Raise AttributeError;
     policies := Raise TimeoutError;
     faqs := Raise TypeError;
     social_handles := Raise AttributeError;
     contact_details := Raise TypeError;
     important_links := Raise AttributeError;
     brand_context := Raise TimeoutError |}.

End ScraperSpec.

(** ** The similarity score as section 4.4 of the specification words it

    Written from the specification alone: lists for sets, and the
    Standard Library's binary64 operations for the arithmetic. *)
Module Scorer.
Import Py.

(** Each string of a list once, in the order of its last occurrence. *)
Fixpoint distinct (l : list string) : list string :=
  match l with
  | [] => []
  | x :: rest => if existsb (String.eqb x) rest then distinct rest else x :: distinct rest
  end.

(** The lower-cased product-type set of a record. *)
Definition type_set (record : BrandInsightsSchema.t) : list string :=
  distinct
    (flat_map (fun p => match ProductSchema.product_type p with
                        | Some (String a t) => [lower (String a t)]
                        | _ => []
                        end)
       (BrandInsightsSchema.product_catalog record)).

Definition shared (A B : list string) : list string :=
  List.filter (fun t => existsb (String.eqb t) B) A.

Definition combined (A B : list string) : list string :=
  A ++ List.filter (fun t => negb (existsb (String.eqb t) A)) B.

(** A count as a binary64 number, and the quotient of two counts. *)
Definition number (n : nat) : spec_float := binary_normalize 53 1024 (Z.of_nat n) 0 false.
Definition quotient (a b : nat) : spec_float := SFdiv 53 1024 (number a) (number b).

Definition jaccard_index (A B : list string) : spec_float :=
  quotient (length (shared A B)) (length (combined A B)).

Definition min_over_max (a b : nat) : spec_float := quotient (Nat.min a b) (Nat.max a b).

Definition present (handle : option string) : nat :=
  match handle with Some (String _ _) => 1 | _ => 0 end.

(** The number of platforms on which a record has a handle. *)
Definition platform_count (record : BrandInsightsSchema.t) : nat :=
  let handles := BrandInsightsSchema.social_handles record in
  (present (SocialHandlesSchema.instagram handles)
   + present (SocialHandlesSchema.facebook handles)
   + present (SocialHandlesSchema.twitter handles)
   + present (SocialHandlesSchema.tiktok handles)
   + present (SocialHandlesSchema.youtube handles)
   + present (SocialHandlesSchema.linkedin handles)
   + present (SocialHandlesSchema.pinterest handles))%nat.

Definition catalog_size (record : BrandInsightsSchema.t) : nat :=
  length (BrandInsightsSchema.product_catalog record).

Definition both_nonzero (a b : nat) : bool := (0 <? a)%nat && (0 <? b)%nat.

(** The signals for which both sides have nonzero data. *)
Definition signals (A B : BrandInsightsSchema.t) : list spec_float :=
  (if both_nonzero (length (type_set A)) (length (type_set B))
   then [jaccard_index (type_set A) (type_set B)] else [])
  ++ (if both_nonzero (platform_count A) (platform_count B)
      then [min_over_max (platform_count A) (platform_count B)] else [])
  ++ (if both_nonzero (catalog_size A) (catalog_size B)
      then [min_over_max (catalog_size A) (catalog_size B)] else []).

(** The unweighted mean, 0.0 for no signal. *)
Definition mean (l : list spec_float) : spec_float :=
  match l with
  | [] => S754_zero false
  | _ => SFdiv 53 1024 (fold_left (SFadd 53 1024) l (S754_zero false)) (number (length l))
  end.

Definition score (A B : BrandInsightsSchema.t) : spec_float := mean (signals A B).
End Scorer.

(** ** Terms used to state the facts about the similarity score and the summary *)
Module CompetitorAnalyzerSpec.
Import Py CompetitorAnalyzer.
Local Open Scope Q_scope.

(** Jaccard index of two sets. *)
Definition jaccard (A B : gset string) : Q :=
  true_div (size (A ∩ B)) (size (A ∪ B)).

(** Smaller count over larger count. *)
Definition min_max_ratio (a b : nat) : Q :=
  true_div (Nat.min a b) (Nat.max a b).

(** The signals for which both sides have data, in the order of the
    specification: product types, social platforms, catalog size. *)
Definition comparable_signals (main_brand competitor : BrandInsightsSchema.t) : list Q :=
  let A := product_types (BrandInsightsSchema.product_catalog main_brand) in
  let B := product_types (BrandInsightsSchema.product_catalog competitor) in
  let pa := platforms (BrandInsightsSchema.social_handles main_brand) in
  let pb := platforms (BrandInsightsSchema.social_handles competitor) in
  let ca := length (BrandInsightsSchema.product_catalog main_brand) in
  let cb := length (BrandInsightsSchema.product_catalog competitor) in
  (if (0 <? size A)%nat && (0 <? size B)%nat then [jaccard A B] else [])
  ++ (if (0 <? pa)%nat && (0 <? pb)%nat then [min_max_ratio pa pb] else [])
  ++ (if (0 <? ca)%nat && (0 <? cb)%nat then [min_max_ratio ca cb] else []).

Definition total (signals : list Q) : Q := fold_right Qplus 0 signals.

(** Unweighted mean; 0 for no signal at all. *)
Definition mean (signals : list Q) : Q :=
  match signals with
  | [] => 0
  | _ => total signals / inject_Z (Z.of_nat (length signals))
  end.

Definition in_unit_interval (q : Q) : Prop := 0 <= q /\ q <= 1.

(** Two shops with the same product types in different spelling, one
    platform each and two products each; and a shop without data. *)
Definition product_of_type (kind : string) : ProductSchema.t :=
  ProductSchema.mk None "item" None None None None None (Some kind) [] [] [] true None.

Definition brand_with (catalog : list ProductSchema.t) (instagram : option string)
    : BrandInsightsSchema.t :=
  BrandInsightsSchema.mk None "https://shop.example" catalog [] None None None None []
    (SocialHandlesSchema.mk instagram None None None None None None)
    ContactDetailsSchema.default None ImportantLinksSchema.default 0%Z.

Definition show_score (q : Q) : string := "0.50".
Definition show_count (n : nat) : string := "1".

Definition one_competitor : CompetitorSchema.t :=
  CompetitorSchema.mk (Some "Rival") "https://rival.example"
    (brand_with [product_of_type "hats"] None) (Some (1 # 2)) [].

(** The stores [_find_competitors] can draw from. *)
Definition candidate (brand_insights : BrandInsightsSchema.t) (url : string) : Prop :=
  url = "https://colourpop.com" \/ url = "https://gymshark.com"
  \/ In url (_find_industry_competitors brand_insights).

(** A web where every page is long, a context without words, and a brand
    with three product types. *)
Definition long_page (url : string) : result (option string) :=
  Ok (Some (repeat_char "x" 1001)).

Definition no_words (text : string) : list string := [].

Definition three_kinds : BrandInsightsSchema.t :=
  brand_with [product_of_type "Hats"; product_of_type "Caps"; product_of_type "Bags"] None.

(** An extraction that finds the same brand behind every URL. *)
Definition brand_found (url : string) : result BrandInsightsSchema.t :=
  Ok (brand_with [product_of_type "Hats"; product_of_type "Caps"; product_of_type "Bags"] None).

End CompetitorAnalyzerSpec.

(* ===================================================================== *)
(** * Part III: facts                                                    *)
(* ===================================================================== *)

(** ** Rounding of binary64 sums and quotients *)
Module FloatFacts.
Import Py FloatSpec.
Local Open Scope Q_scope.

Lemma pow2_pos e : 0 < pow2 e.
Proof. apply Qpower_0_lt. reflexivity. Qed.

Lemma pow2_add a b : pow2 (a + b) == pow2 a * pow2 b.
Proof. apply Qpower_plus. discriminate. Qed.

Lemma pow2_succ e : pow2 (e + 1) == 2 * pow2 e.
Proof. rewrite pow2_add. change (pow2 1) with 2. ring. Qed.

Lemma pow2_0 : pow2 0 == 1.
Proof. reflexivity. Qed.

Lemma pow2_nonneg e : (0 <= e)%Z -> pow2 e == inject_Z (2 ^ e).
Proof. intros He. unfold pow2. now rewrite Zpower_Qpower. Qed.

Lemma pow2_lt_inv a b : pow2 a < pow2 b -> (a < b)%Z.
Proof. intros H. apply (Qpower_lt_compat_l_inv 2); [exact H | reflexivity]. Qed.

Lemma pow2_le a b : (a <= b)%Z -> pow2 a <= pow2 b.
Proof. intros H. apply Qpower_le_compat_l; [exact H | discriminate]. Qed.

(** An integer is an integral multiple of every power of two with a
    non-positive exponent. *)
Lemma integer_multiple (n e : Z) :
  (e <= 0)%Z -> inject_Z n == inject_Z (n * 2 ^ (- e)) * pow2 e.
Proof.
  intros He. rewrite inject_Z_mult, <- pow2_nonneg by lia.
  rewrite <- Qmult_assoc, <- pow2_add.
  replace (- e + e)%Z with 0%Z by lia. rewrite pow2_0. ring.
Qed.

Lemma inject_Z_le_scaled (a b : Z) (t : Q) :
  0 < t -> inject_Z a * t <= inject_Z b * t -> (a <= b)%Z.
Proof.
  intros Ht H. rewrite Zle_Qle. nra.
Qed.

Lemma inject_Z_lt_scaled (a b : Z) (t : Q) :
  0 < t -> inject_Z a * t < inject_Z b * t -> (a < b)%Z.
Proof.
  intros Ht H. rewrite Zlt_Qlt. nra.
Qed.

(** *** Digits *)

Lemma digits2_pos_bounds (m : positive) :
  (2 ^ (Zpos (digits2_pos m) - 1) <= Zpos m < 2 ^ Zpos (digits2_pos m))%Z.
Proof.
  induction m as [m IH|m IH|]; cbn [digits2_pos].
  - rewrite Pos2Z.inj_succ.
    replace (Z.succ (Zpos (digits2_pos m)) - 1)%Z with (Zpos (digits2_pos m) - 1 + 1)%Z by lia.
    rewrite Z.pow_succ_r by lia.
    rewrite Z.pow_add_r by lia. change (2 ^ 1)%Z with 2%Z. lia.
  - rewrite Pos2Z.inj_succ.
    replace (Z.succ (Zpos (digits2_pos m)) - 1)%Z with (Zpos (digits2_pos m) - 1 + 1)%Z by lia.
    rewrite Z.pow_succ_r by lia.
    rewrite Z.pow_add_r by lia. change (2 ^ 1)%Z with 2%Z. lia.
  - cbn. lia.
Qed.

Lemma Zdigits2_lower (m : Z) :
  (0 < m)%Z -> pow2 (Zdigits2 m - 1) <= inject_Z m.
Proof.
  destruct m as [|p|p]; try lia. intros _. cbn [Zdigits2].
  destruct (digits2_pos_bounds p) as [H _].
  rewrite pow2_nonneg by lia. now rewrite <- Zle_Qle.
Qed.

Lemma Zdigits2_upper (m : Z) :
  (0 <= m)%Z -> inject_Z m < pow2 (Zdigits2 m).
Proof.
  destruct m as [|p|p]; try lia; intros _; cbn [Zdigits2].
  - reflexivity.
  - destruct (digits2_pos_bounds p) as [_ H].
    rewrite pow2_nonneg by lia. now rewrite <- Zlt_Qlt.
Qed.

Lemma fexp_le_0 (z : Z) : (z <= 53)%Z -> (fexp prec emax z <= 0)%Z.
Proof. unfold fexp, emin, prec, emax. lia. Qed.

(** A non-negative integer whose slot at exponent [e] starts below 2^53
    has at most [53 - e] digits. *)
Lemma digits_of_bounded (m e : Z) (x : Q) (hi : Z) :
  (0 <= m)%Z -> inject_Z m * pow2 e <= x -> x <= inject_Z hi -> (hi < 2 ^ 53)%Z ->
  (e <= 0)%Z ->
  (Zdigits2 m + e <= 53)%Z.
Proof.
  intros Hm Hlo Hhi Hlt He.
  destruct (Z.eq_dec m 0%Z) as [->|Hne]; [cbn; lia|].
  assert (Hd : pow2 (Zdigits2 m - 1) <= inject_Z m) by (apply Zdigits2_lower; lia).
  assert (Hp : pow2 (Zdigits2 m - 1 + e) < pow2 53).
  { rewrite pow2_add. pose proof (pow2_pos e).
    apply Qle_lt_trans with (inject_Z hi).
    - apply Qle_trans with x; [|exact Hhi].
      apply Qle_trans with (inject_Z m * pow2 e); [|exact Hlo]. nra.
    - rewrite (pow2_nonneg 53) by lia. now rewrite <- Zlt_Qlt. }
  apply pow2_lt_inv in Hp. lia.
Qed.

(** *** Shifting right *)

Lemma shr_1_inbetween mrs e x :
  (0 <= shr_m mrs)%Z -> inbetween mrs e x ->
  inbetween (shr_1 mrs) (e + 1) x /\ (0 <= shr_m (shr_1 mrs))%Z.
Proof.
  destruct mrs as [m r s]. unfold inbetween. cbn [shr_m shr_r shr_s].
  intros Hm (Hlo & Hhi & Hex).
  pose proof (pow2_pos e) as Ht. pose proof (pow2_succ e) as Hs.
  destruct m as [|[p|p|]|p]; try lia; cbn [shr_1 shr_m shr_r shr_s].
  - (* 0 *)
    rewrite Hs.
    change (inject_Z (0 + 1)) with 1 in *. change (inject_Z 0) with 0 in *.
    split; [|lia]. split; [nra|]. split; [nra|].
    cbn [orb]. rewrite Hex. split; intros E; rewrite E; ring.
  - (* 2p + 1 *)
    rewrite Hs.
    change (Zpos p~1) with (2 * Zpos p + 1)%Z in *.
    rewrite ?inject_Z_plus, ?inject_Z_mult in *.
    change (inject_Z 2) with 2 in *. change (inject_Z 1) with 1 in *.
    split; [|lia]. split; [nra|]. split; [nra|].
    split; [discriminate|]. intros E. exfalso. nra.
  - (* 2p *)
    rewrite Hs.
    change (Zpos p~0) with (2 * Zpos p)%Z in *.
    rewrite ?inject_Z_plus, ?inject_Z_mult in *.
    change (inject_Z 2) with 2 in *. change (inject_Z 1) with 1 in *.
    split; [|lia]. split; [nra|]. split; [nra|].
    cbn [orb]. rewrite Hex. split; intros E; rewrite E; ring.
  - (* 1 *)
    rewrite Hs.
    change (inject_Z (1 + 1)) with 2 in *. change (inject_Z 1) with 1 in *.
    change (inject_Z (0 + 1)) with 1. change (inject_Z 0) with 0 in *.
    split; [|lia]. split; [nra|]. split; [nra|].
    split; [discriminate|]. intros E. exfalso. nra.
Qed.

Lemma iter_shr_1_inbetween (p : positive) x : forall mrs e,
  (0 <= shr_m mrs)%Z -> inbetween mrs e x ->
  inbetween (SpecFloat.iter_pos shr_1 p mrs) (e + Zpos p) x
  /\ (0 <= shr_m (SpecFloat.iter_pos shr_1 p mrs))%Z.
Proof.
  induction p as [p IH|p IH|]; intros mrs e Hm Hin; cbn [SpecFloat.iter_pos].
  - destruct (shr_1_inbetween _ _ _ Hm Hin) as [H1 Hm1].
    destruct (IH _ _ Hm1 H1) as [H2 Hm2].
    destruct (IH _ _ Hm2 H2) as [H3 Hm3].
    replace (e + Zpos p~1)%Z with (e + 1 + Zpos p + Zpos p)%Z by lia. now split.
  - destruct (IH _ _ Hm Hin) as [H2 Hm2].
    destruct (IH _ _ Hm2 H2) as [H3 Hm3].
    replace (e + Zpos p~0)%Z with (e + Zpos p + Zpos p)%Z by lia. now split.
  - now apply shr_1_inbetween.
Qed.

Lemma shr_inbetween mrs e n x :
  (0 <= shr_m mrs)%Z -> inbetween mrs e x ->
  inbetween (fst (shr mrs e n)) (snd (shr mrs e n)) x
  /\ (0 <= shr_m (fst (shr mrs e n)))%Z
  /\ snd (shr mrs e n) = Z.max e (e + n).
Proof.
  intros Hm Hin. destruct n as [|p|p]; cbn [shr fst snd].
  - split; [exact Hin|]. split; [exact Hm | lia].
  - destruct (iter_shr_1_inbetween p x _ _ Hm Hin) as [H1 H2].
    split; [exact H1|]. split; [exact H2 | lia].
  - split; [exact Hin|]. split; [exact Hm | lia].
Qed.

(** What a location says about a real in the slot of [m]. *)
Lemma shr_record_of_loc_m m l : shr_m (shr_record_of_loc m l) = m.
Proof. now destruct l as [|[]]. Qed.

Lemma shr_record_of_loc_exact m l :
  shr_r (shr_record_of_loc m l) || shr_s (shr_record_of_loc m l) = false
  <-> l = loc_Exact.
Proof. destruct l as [|[]]; cbn; split; congruence. Qed.

Lemma shr_fexp_inbetween m e l x :
  (0 <= m)%Z -> inbetween (shr_record_of_loc m l) e x ->
  let '(mrs, e') := shr_fexp prec emax m e l in
  inbetween mrs e' x /\ (0 <= shr_m mrs)%Z
  /\ e' = Z.max e (fexp prec emax (Zdigits2 m + e)).
Proof.
  intros Hm Hin. unfold shr_fexp.
  destruct (shr _ e _) as [mrs e'] eqn:E.
  assert (Hm' : (0 <= shr_m (shr_record_of_loc m l))%Z)
    by now rewrite shr_record_of_loc_m.
  destruct (shr_inbetween _ e (fexp prec emax (Zdigits2 m + e) - e) x Hm' Hin)
    as (H1 & H2 & H3).
  rewrite E in H1, H2, H3. cbn [fst snd] in *.
  split; [exact H1|]. split; [exact H2|]. lia.
Qed.

Lemma round_nearest_even_cases mrs :
  let m := round_nearest_even (shr_m mrs) (loc_of_shr_record mrs) in
  (m = shr_m mrs \/ (m = shr_m mrs + 1)%Z /\ shr_r mrs || shr_s mrs = true).
Proof.
  destruct mrs as [m [] []]; cbn; try (now left); try (right; now split).
  destruct (Z.even m); [now left | right; now split].
Qed.

(** *** Rounding keeps a value between the integers that enclose it *)

Lemma binary_round_aux_within (s : bool) (m e : Z) (l : location) (x : Q) (lo hi : Z) :
  (0 <= m)%Z -> (e <= 0)%Z ->
  inbetween (shr_record_of_loc m l) e x ->
  inject_Z lo <= x -> x <= inject_Z hi -> (hi < 2 ^ 53)%Z ->
  match binary_round_aux prec emax s m e l with
  | S754_zero s' => s' = s /\ (lo <= 0)%Z
  | S754_finite s' m' e' =>
      s' = s /\ (e' <= 0)%Z
      /\ inject_Z lo <= inject_Z (Zpos m') * pow2 e' <= inject_Z hi
  | _ => False
  end.
Proof.
  intros Hm He Hin Hlo Hhi Hlt. unfold binary_round_aux.
  pose proof (shr_fexp_inbetween m e l x Hm Hin) as H1.
  destruct (shr_fexp prec emax m e l) as [mrs1 e1].
  destruct H1 as (Hin1 & Hm1 & He1).
  assert (Hd : (Zdigits2 m + e <= 53)%Z).
  { destruct Hin as (Hl & _ & _). rewrite shr_record_of_loc_m in Hl.
    now apply (digits_of_bounded m e x hi). }
  assert (He1' : (e1 <= 0)%Z).
  { pose proof (fexp_le_0 _ Hd). lia. }
  pose proof (pow2_pos e1) as Ht1.
  destruct Hin1 as (Hl1 & Hu1 & Hx1).
  (* the rounded mantissa stays between the scaled bounds *)
  set (mr := round_nearest_even (shr_m mrs1) (loc_of_shr_record mrs1)).
  assert (Hmr : inject_Z lo <= inject_Z mr * pow2 e1
                /\ inject_Z mr * pow2 e1 <= inject_Z hi /\ (0 <= mr)%Z).
  { rewrite (integer_multiple lo e1 He1'), (integer_multiple hi e1 He1') in *.
    assert (Hlo' : (lo * 2 ^ (- e1) <= shr_m mrs1)%Z).
    { assert (lo * 2 ^ (- e1) < shr_m mrs1 + 1)%Z; [|lia].
      apply (inject_Z_lt_scaled _ _ (pow2 e1) Ht1). lra. }
    assert (Hhi' : (shr_m mrs1 <= hi * 2 ^ (- e1))%Z).
    { apply (inject_Z_le_scaled _ _ (pow2 e1) Ht1). lra. }
    destruct (round_nearest_even_cases mrs1) as [E|[E Hinexact]]; fold mr in E; rewrite E.
    - split; [|split; [|exact Hm1]].
      + apply Qmult_le_compat_r; [|lra]. now rewrite <- Zle_Qle.
      + apply Qmult_le_compat_r; [|lra]. now rewrite <- Zle_Qle.
    - assert (Hstrict : (shr_m mrs1 < hi * 2 ^ (- e1))%Z).
      { destruct (Z.eq_dec (shr_m mrs1) (hi * 2 ^ (- e1))%Z) as [Eq|]; [|lia].
        exfalso. assert (Hex : x == inject_Z (shr_m mrs1) * pow2 e1).
        { rewrite Eq in Hl1 |- *. lra. }
        apply Hx1 in Hex. congruence. }
      split; [|split; [|lia]].
      + apply Qmult_le_compat_r; [|lra]. rewrite <- Zle_Qle. lia.
      + apply Qmult_le_compat_r; [|lra]. rewrite <- Zle_Qle. lia. }
  destruct Hmr as (Hmr_lo & Hmr_hi & Hmr0).
  (* second normalisation, on the exact value of the rounded mantissa *)
  assert (Hin2 : inbetween (shr_record_of_loc mr loc_Exact) e1 (inject_Z mr * pow2 e1)).
  { unfold inbetween. cbn [shr_record_of_loc shr_m shr_r shr_s orb].
    rewrite inject_Z_plus. change (inject_Z 1) with 1.
    split; [lra|]. split; [lra|]. split; reflexivity. }
  pose proof (shr_fexp_inbetween mr e1 loc_Exact _ Hmr0 Hin2) as H2.
  destruct (shr_fexp prec emax mr e1 loc_Exact) as [mrs2 e2].
  destruct H2 as (Hin2' & Hm2 & He2).
  assert (Hd2 : (Zdigits2 mr + e1 <= 53)%Z).
  { apply (digits_of_bounded mr e1 (inject_Z mr * pow2 e1) hi); try assumption. lra. }
  assert (He2' : (e2 <= 0)%Z).
  { pose proof (fexp_le_0 _ Hd2). lia. }
  pose proof (pow2_pos e2) as Ht2.
  destruct Hin2' as (Hl2 & Hu2 & _).
  assert (Hlo2 : inject_Z lo <= inject_Z (shr_m mrs2) * pow2 e2).
  { rewrite (integer_multiple lo e2 He2') in *.
    assert (lo * 2 ^ (- e2) < shr_m mrs2 + 1)%Z.
    { apply (inject_Z_lt_scaled _ _ (pow2 e2) Ht2). lra. }
    apply Qmult_le_compat_r; [|lra]. rewrite <- Zle_Qle. lia. }
  destruct (shr_m mrs2) as [|m2|m2] eqn:E2; [| |lia].
  - split; [reflexivity|]. change (inject_Z 0) with 0 in Hlo2.
    assert (inject_Z lo <= inject_Z 0) by (change (inject_Z 0) with 0; lra).
    now rewrite <- Zle_Qle in H.
  - assert (Hfit : (e2 <=? emax - prec)%Z = true).
    { apply Z.leb_le. unfold emax, prec. lia. }
    rewrite Hfit. split; [reflexivity|]. split; [exact He2'|]. split; [exact Hlo2 | lra].
Qed.

Lemma round_within (m e : Z) (l : location) (x : Q) (lo hi : Z) :
  (0 <= m)%Z -> (e <= 0)%Z ->
  inbetween (shr_record_of_loc m l) e x ->
  inject_Z lo <= x -> x <= inject_Z hi -> (hi < 2 ^ 53)%Z ->
  within lo hi (binary_round_aux prec emax false m e l).
Proof.
  intros Hm He Hin Hlo Hhi Hlt.
  pose proof (binary_round_aux_within false m e l x lo hi Hm He Hin Hlo Hhi Hlt) as H.
  destruct (binary_round_aux prec emax false m e l) as [s| | |s m' e']; cbn [within];
    try exact H.
  destruct H as [-> Hl]. split; [reflexivity|]. split; [exact Hl|].
  destruct Hin as (Hl0 & _ & _). rewrite shr_record_of_loc_m in Hl0.
  pose proof (pow2_pos e).
  assert (0 <= inject_Z m) by (change 0 with (inject_Z 0); now rewrite <- Zle_Qle).
  assert (inject_Z 0 <= inject_Z hi) by (change (inject_Z 0) with 0; nra).
  now rewrite <- Zle_Qle in H1.
Qed.

Lemma exact_inbetween (m e : Z) :
  inbetween (shr_record_of_loc m loc_Exact) e (inject_Z m * pow2 e).
Proof.
  unfold inbetween. cbn [shr_record_of_loc shr_m shr_r shr_s orb].
  rewrite inject_Z_plus. change (inject_Z 1) with 1. pose proof (pow2_pos e).
  split; [lra|]. split; [lra|]. split; reflexivity.
Qed.

(** *** Aligning, normalising and converting integers *)

Lemma pos_iter_xO (m d : positive) :
  Zpos (Pos.iter xO m d) = (Zpos m * 2 ^ Zpos d)%Z.
Proof.
  induction d as [|d IH] using Pos.peano_ind.
  - cbn. lia.
  - rewrite Pos.iter_succ, Pos2Z.inj_succ, Z.pow_succ_r by lia.
    change (Zpos (Pos.iter xO m d)~0) with (2 * Zpos (Pos.iter xO m d))%Z.
    rewrite IH. lia.
Qed.

Lemma shl_align_spec (mx : positive) (ex ex' : Z) :
  snd (shl_align mx ex ex') = Z.min ex ex'
  /\ inject_Z (Zpos (fst (shl_align mx ex ex'))) * pow2 (snd (shl_align mx ex ex'))
     == inject_Z (Zpos mx) * pow2 ex.
Proof.
  unfold shl_align. destruct (ex' - ex)%Z as [|d|d] eqn:E; cbn [fst snd].
  - split; [lia | reflexivity].
  - split; [lia | reflexivity].
  - split; [lia|]. rewrite pos_iter_xO, inject_Z_mult, <- pow2_nonneg by lia.
    rewrite <- Qmult_assoc, <- pow2_add.
    replace (Zpos d + ex')%Z with ex by lia. reflexivity.
Qed.

Lemma binary_round_within (mx : positive) (ex lo hi : Z) :
  (ex <= 0)%Z ->
  inject_Z lo <= inject_Z (Zpos mx) * pow2 ex ->
  inject_Z (Zpos mx) * pow2 ex <= inject_Z hi -> (hi < 2 ^ 53)%Z ->
  within lo hi (binary_round prec emax false mx ex).
Proof.
  intros He Hlo Hhi Hlt. unfold binary_round.
  destruct (shl_align_spec mx ex (fexp prec emax (Zpos (digits2_pos mx) + ex)))
    as [Hez Hval].
  destruct (shl_align mx ex _) as [mz ez]. cbn [fst snd] in Hez, Hval.
  apply (round_within (Zpos mz) ez loc_Exact (inject_Z (Zpos mz) * pow2 ez));
    try lia; try (rewrite Hval; assumption).
  apply exact_inbetween.
Qed.

(** Integers below 2^53 convert exactly. *)
Lemma float_of_int_within (n : Z) :
  (0 <= n < 2 ^ 53)%Z -> within n n (float_of_int n).
Proof.
  intros Hn. unfold float_of_int, binary_normalize.
  destruct n as [|p|p]; [| |lia].
  - cbn. repeat split; lia.
  - apply binary_round_within; try lia; change (pow2 0) with 1; lra.
Qed.

(** *** Division *)

Lemma new_location_exact (nb_steps k : Z) :
  new_location nb_steps k = loc_Exact <-> k = 0%Z.
Proof.
  unfold new_location, new_location_even, new_location_odd.
  destruct (Z.even nb_steps); destruct (Z.eqb_spec k 0); split; congruence.
Qed.

Lemma SFdiv_core_binary_inbetween (m1 m2 : positive) (e1 e2 : Z) :
  let '(q, e', l) := SFdiv_core_binary prec emax (Zpos m1) e1 (Zpos m2) e2 in
  (0 <= q)%Z
  /\ (e' <= fexp prec emax (Zpos (digits2_pos m1) + e1 - (Zpos (digits2_pos m2) + e2)))%Z
  /\ inbetween (shr_record_of_loc q l) e'
       (inject_Z (Zpos m1) * pow2 e1 / (inject_Z (Zpos m2) * pow2 e2)).
Proof.
  unfold SFdiv_core_binary. cbn [Zdigits2].
  set (e' := Z.min _ (e1 - e2)).
  set (s := (e1 - e2 - e')%Z).
  assert (Hs : (0 <= s)%Z) by (unfold s, e'; lia).
  set (m' := match s with Zpos _ => Z.shiftl (Zpos m1) s | Z0 => Zpos m1 | Zneg _ => 0%Z end).
  assert (Hm' : m' = (Zpos m1 * 2 ^ s)%Z).
  { unfold m'. destruct s as [|p|p]; [cbn; lia | | lia].
    now rewrite Z.shiftl_mul_pow2 by lia. }
  pose proof (Z.div_eucl_eq m' (Zpos m2) ltac:(lia)) as Heq.
  pose proof (Z.mod_pos_bound m' (Zpos m2) ltac:(lia)) as Hr.
  unfold Z.modulo in Hr.
  destruct (Z.div_eucl m' (Zpos m2)) as [q r].
  assert (Hq : (0 <= q)%Z).
  { assert (0 <= m')%Z by (rewrite Hm'; apply Z.mul_nonneg_nonneg; [lia | apply Z.pow_nonneg; lia]).
    nia. }
  split; [exact Hq|]. split; [unfold e'; lia|].
  (* the exact quotient, written over the chosen exponent *)
  pose proof (pow2_pos e1) as Ht1. pose proof (pow2_pos e2) as Ht2.
  pose proof (pow2_pos e') as Ht'.
  assert (Hm2 : 0 < inject_Z (Zpos m2)) by reflexivity.
  assert (Hx : inject_Z (Zpos m1) * pow2 e1 / (inject_Z (Zpos m2) * pow2 e2)
               == inject_Z m' / inject_Z (Zpos m2) * pow2 e').
  { rewrite Hm', inject_Z_mult, <- pow2_nonneg by lia.
    assert (He1 : pow2 e1 == pow2 s * pow2 e' * pow2 e2).
    { rewrite <- !pow2_add. replace (s + e' + e2)%Z with e1 by (unfold s; lia). reflexivity. }
    rewrite He1. field. split; lra. }
  assert (Hdiv : inject_Z m' / inject_Z (Zpos m2)
                 == inject_Z q + inject_Z r / inject_Z (Zpos m2)).
  { rewrite Heq, inject_Z_plus, inject_Z_mult. field. lra. }
  assert (Hfrac : 0 <= inject_Z r / inject_Z (Zpos m2) < 1).
  { split.
    - apply Qle_shift_div_l; [exact Hm2|]. rewrite Qmult_0_l.
      change 0 with (inject_Z 0). rewrite <- Zle_Qle. lia.
    - apply Qlt_shift_div_r; [exact Hm2|]. rewrite Qmult_1_l.
      rewrite <- Zlt_Qlt. lia. }
  unfold inbetween. rewrite shr_record_of_loc_m, shr_record_of_loc_exact, Hx, Hdiv.
  rewrite inject_Z_plus. change (inject_Z 1) with 1.
  set (f := inject_Z r / inject_Z (Zpos m2)) in *.
  assert (Hft : 0 <= f * pow2 e' < pow2 e') by (split; nra).
  split; [lra|]. split; [lra|].
  rewrite new_location_exact. split.
  - intros E. assert (Hf0 : f == 0).
    { unfold f. rewrite E. change (inject_Z 0) with 0. field. lra. }
    rewrite Hf0. ring.
  - intros E.
    assert (Hz : f == 0) by nra. unfold f in Hz.
    assert (Hr0 : inject_Z r == 0).
    { rewrite <- (Qmult_div_r (inject_Z r) (inject_Z (Zpos m2))) by lra.
      rewrite Hz. ring. }
    unfold Qeq in Hr0. cbn in Hr0. lia.
Qed.

(** The quotient of two non-negative floats stays between the integers
    that enclose the exact quotient. *)
Lemma float_div_within (x y : float) (lx hx ly hy lo hi : Z) :
  within lx hx x -> within ly hy y -> (1 <= ly)%Z ->
  inject_Z lo * value y <= value x -> value x <= inject_Z hi * value y ->
  (hi < 2 ^ 53)%Z ->
  within lo hi (float_div x y).
Proof.
  intros Hx Hy Hly Hlo Hhi Hlt.
  destruct y as [sy| | |sy my ey]; cbn [within] in Hy; try tauto; [lia|].
  destruct Hy as (-> & Hey & Hyl & Hyh).
  assert (Hvy : 0 < value (S754_finite false my ey)).
  { cbn [value]. pose proof (pow2_pos ey). assert (0 < inject_Z (Zpos my)) by reflexivity. nra. }
  destruct x as [sx| | |sx mx ex]; cbn [within] in Hx; try tauto.
  - destruct Hx as (-> & _ & _). cbn [float_div SFdiv xorb within value] in *.
    split; [reflexivity|].
    rewrite !Zle_Qle. change (inject_Z 0) with 0. split; nra.
  - destruct Hx as (-> & Hex & _).
    cbn [float_div SFdiv xorb]. cbn [value] in Hlo, Hhi, Hvy.
    pose proof (SFdiv_core_binary_inbetween mx my ex ey) as Hcore.
    destruct (SFdiv_core_binary prec emax (Zpos mx) ex (Zpos my) ey) as [[q e'] l].
    destruct Hcore as (Hq & He' & Hin).
    set (v := inject_Z (Zpos mx) * pow2 ex / (inject_Z (Zpos my) * pow2 ey)) in *.
    assert (Hv_lo : inject_Z lo <= v).
    { unfold v. apply Qle_shift_div_l; [exact Hvy | exact Hlo]. }
    assert (Hv_hi : v <= inject_Z hi).
    { unfold v. apply Qle_shift_div_r; [exact Hvy | exact Hhi]. }
    assert (Hd : (Zpos (digits2_pos mx) + ex - (Zpos (digits2_pos my) + ey) <= 53)%Z).
    { pose proof (Zdigits2_lower (Zpos mx) ltac:(lia)) as Hdx.
      pose proof (Zdigits2_upper (Zpos my) ltac:(lia)) as Hdy.
      cbn [Zdigits2] in Hdx, Hdy.
      pose proof (pow2_pos ex). pose proof (pow2_pos ey).
      pose proof (pow2_pos (Zpos (digits2_pos mx) - 1)).
      pose proof (pow2_pos (Zpos (digits2_pos my))).
      assert (Hp : pow2 (Zpos (digits2_pos mx) - 1 + ex) < pow2 (53 + (Zpos (digits2_pos my) + ey))).
      { rewrite !pow2_add. rewrite (pow2_nonneg 53) by lia.
        assert (inject_Z hi < inject_Z (2 ^ 53)) by now rewrite <- Zlt_Qlt.
        assert (0 < inject_Z (Zpos mx)) by reflexivity.
        assert (0 < inject_Z (Zpos my)) by reflexivity.
        assert (0 <= inject_Z hi) by nra.
        apply Qle_lt_trans with (inject_Z (Zpos mx) * pow2 ex); [nra|].
        apply Qle_lt_trans with (inject_Z hi * (inject_Z (Zpos my) * pow2 ey)); [exact Hhi|].
        assert (inject_Z (Zpos my) * pow2 ey < pow2 (Zpos (digits2_pos my)) * pow2 ey) by nra.
        nra. }
      apply pow2_lt_inv in Hp. lia. }
    pose proof (fexp_le_0 _ Hd) as Hf.
    apply (round_within q e' l v lo hi); try assumption; lia.
Qed.

(** *** Addition *)

Lemma value_within (lo hi : Z) (x : float) :
  within lo hi x -> inject_Z lo <= value x <= inject_Z hi.
Proof.
  destruct x as [s| | |s m e]; cbn [within value]; try tauto.
  - intros (_ & Hl & Hh). rewrite !Zle_Qle in *. now split.
  - intros (-> & _ & H). exact H.
Qed.

Lemma within_finite (lo hi : Z) (x : float) : within lo hi x -> finite x = true.
Proof. destruct x; cbn; tauto. Qed.

Lemma within_weaken (lo hi lo' hi' : Z) (x : float) :
  (lo' <= lo)%Z -> (hi <= hi')%Z -> within lo hi x -> within lo' hi' x.
Proof.
  intros Hl Hh. destruct x as [s| | |s m e]; cbn [within]; try tauto.
  - intros (-> & H1 & H2). repeat split; lia.
  - intros (-> & He & H1 & H2). rewrite Zle_Qle in Hl, Hh.
    repeat split; try assumption; lra.
Qed.

Lemma float_add_within (x y : float) (lx hx ly hy : Z) :
  within lx hx x -> within ly hy y -> (hx + hy < 2 ^ 53)%Z ->
  within (lx + ly) (hx + hy) (float_add x y).
Proof.
  intros Hx Hy Hlt.
  pose proof (value_within _ _ _ Hx) as Vx. pose proof (value_within _ _ _ Hy) as Vy.
  destruct x as [sx| | |sx mx ex]; cbn [within] in Hx; try tauto;
    destruct y as [sy| | |sy my ey]; cbn [within] in Hy; try tauto.
  - destruct Hx as (-> & ? & ?), Hy as (-> & ? & ?). cbn. repeat split; lia.
  - destruct Hx as (-> & ? & ?), Hy as (-> & Hey & H1 & H2).
    cbn [float_add SFadd within]. cbn [value] in Vx.
    rewrite !inject_Z_plus. rewrite !Zle_Qle in *.
    repeat split; try assumption; lra.
  - destruct Hx as (-> & Hex & H1 & H2), Hy as (-> & ? & ?).
    cbn [float_add SFadd within]. cbn [value] in Vy.
    rewrite !inject_Z_plus. rewrite !Zle_Qle in *.
    repeat split; try assumption; lra.
  - destruct Hx as (-> & Hex & Hx1 & Hx2), Hy as (-> & Hey & Hy1 & Hy2).
    cbn [float_add SFadd cond_Zopp].
    destruct (shl_align_spec mx ex (Z.min ex ey)) as [Ex Hvx].
    destruct (shl_align_spec my ey (Z.min ex ey)) as [Ey Hvy].
    destruct (shl_align mx ex (Z.min ex ey)) as [ax ez1].
    destruct (shl_align my ey (Z.min ex ey)) as [ay ez2].
    cbn [fst snd] in *.
    replace ez1 with (Z.min ex ey) in Hvx by lia.
    replace ez2 with (Z.min ex ey) in Hvy by lia.
    change (Zpos ax + Zpos ay)%Z with (Zpos (ax + ay)).
    cbn [binary_normalize].
    apply binary_round_within; try lia;
      rewrite Pos2Z.inj_add, !inject_Z_plus, Qmult_plus_distr_l, Hvx, Hvy; lra.
Qed.

End FloatFacts.

Module HttpClientFacts.
Import Py HttpClient HttpClientSpec.

Example range_4 : range 4 = [0; 1; 2; 3].
Proof. reflexivity. Qed.

Lemma backoff_log attempt retries log :
  backoff attempt retries log =
  (tt, log ++ (if attempt <? retries then [EvSleep (2 ^ attempt)] else [])).
Proof.
  unfold backoff. destruct (attempt <? retries); unfold emit, ret; simpl.
  - reflexivity.
  - now rewrite app_nil_r.
Qed.

Lemma page_loop_step_retry net retries attempt rest log :
  page_retryable (net attempt) = true ->
  get_page_content_loop net retries (attempt :: rest) log =
  get_page_content_loop net retries rest (log ++ failed_iteration retries attempt).
Proof.
  intros Hr. simpl. unfold seqIO, emit at 1.
  destruct (net attempt) as [[c|e]| |code|e]; simpl in Hr; try discriminate;
    rewrite backoff_log; unfold failed_iteration;
    now rewrite <- app_assoc.
Qed.

Lemma page_loop_all_retry net retries attempts : forall log,
  (forall a, In a attempts -> page_retryable (net a) = true) ->
  get_page_content_loop net retries attempts log =
  (None, log ++ concat (map (failed_iteration retries) attempts)).
Proof.
  induction attempts as [|a rest IH]; intros log Hall.
  - simpl. unfold ret. now rewrite app_nil_r.
  - rewrite page_loop_step_retry by (apply Hall; now left).
    rewrite IH by (intros b Hb; apply Hall; now right).
    rewrite map_cons, concat_cons. now rewrite <- app_assoc.
Qed.

Lemma json_loop_step_retry {J} (net : endpoint J) retries attempt rest log :
  json_retryable (net attempt) = true ->
  get_json_loop net retries (attempt :: rest) log =
  get_json_loop net retries rest (log ++ failed_iteration retries attempt).
Proof.
  intros Hr. simpl. unfold seqIO, emit at 1.
  destruct (net attempt) as [[c|e]| |code|e]; simpl in Hr; try discriminate;
    try (destruct e; try discriminate);
    rewrite backoff_log; unfold failed_iteration;
    now rewrite <- app_assoc.
Qed.

Lemma json_loop_prefix_retry {J} (net : endpoint J) retries pre : forall rest log,
  (forall a, In a pre -> json_retryable (net a) = true) ->
  get_json_loop net retries (pre ++ rest) log =
  get_json_loop net retries rest (log ++ concat (map (failed_iteration retries) pre)).
Proof.
  induction pre as [|a pre IH]; intros rest log Hall.
  - simpl. now rewrite app_nil_r.
  - rewrite <- app_comm_cons.
    rewrite json_loop_step_retry by (apply Hall; now left).
    rewrite IH by (intros b Hb; apply Hall; now right).
    rewrite map_cons, concat_cons. now rewrite <- app_assoc.
Qed.

Lemma json_loop_decode_error {J} (net : endpoint J) retries attempt rest log :
  net attempt = Status200 (Raise JSONDecodeError) ->
  get_json_loop net retries (attempt :: rest) log = (None, log ++ [EvRequest attempt]).
Proof.
  intros Hk. simpl. unfold seqIO, emit. now rewrite Hk.
Qed.

Lemma range_split (n k : Z) :
  0 <= k < n ->
  range n = range k ++ k :: map Z.of_nat (seq (S (Z.to_nat k)) (Z.to_nat (n - k - 1))).
Proof.
  intros Hk. unfold range.
  replace (Z.to_nat n) with (Z.to_nat k + S (Z.to_nat (n - k - 1)))%nat by lia.
  rewrite seq_app, map_app. simpl. f_equal. f_equal. lia.
Qed.

Lemma In_range (n a : Z) : In a (range n) -> 0 <= a < n.
Proof.
  unfold range. rewrite in_map_iff. intros (i & <- & Hi).
  apply in_seq in Hi. lia.
Qed.

Lemma attempts_made_app l1 l2 :
  attempts_made (l1 ++ l2) = (attempts_made l1 + attempts_made l2)%nat.
Proof.
  unfold attempts_made. now rewrite filter_app, length_app.
Qed.

Lemma attempts_made_failed retries attempts :
  attempts_made (concat (map (failed_iteration retries) attempts)) = length attempts.
Proof.
  induction attempts as [|a rest IH]; [reflexivity|].
  rewrite map_cons, concat_cons, attempts_made_app, IH.
  unfold failed_iteration. now destruct (a <? retries).
Qed.

Lemma length_range n : 0 <= n -> length (range n) = Z.to_nat n.
Proof. intros _. unfold range. now rewrite length_map, length_seq. Qed.

(** C3. With [retries = 3] (also the configured default) and an endpoint
    whose every request times out, [get_page_content] issues exactly four
    requests, sleeps 1, 2 and 4 seconds between consecutive requests (and
    not after the last one), and returns [None] instead of raising. *)
Theorem get_page_content_timeout_retries (net : endpoint string) :
  (forall attempt, net attempt = RequestRaised TimeoutError) ->
  run (get_page_content net (Some 3)) =
    (None, [EvRequest 0; EvSleep 1; EvRequest 1; EvSleep 2;
            EvRequest 2; EvSleep 4; EvRequest 3])
  /\ run (get_page_content net None) = run (get_page_content net (Some 3))
  /\ attempts_made (snd (run (get_page_content net (Some 3)))) = 4%nat
  /\ sleeps (snd (run (get_page_content net (Some 3)))) = [1; 2; 4].
Proof.
  intros Hnet.
  assert (E : run (get_page_content net (Some 3)) =
    (None, [EvRequest 0; EvSleep 1; EvRequest 1; EvSleep 2;
            EvRequest 2; EvSleep 4; EvRequest 3])).
  { unfold run, get_page_content.
    rewrite page_loop_all_retry by (intros a _; now rewrite Hnet).
    reflexivity. }
  split; [exact E|]. split; [reflexivity|].
  rewrite E. split; reflexivity.
Qed.

Lemma get_page_content_timeout_retries_witness :
  run (get_page_content always_timeout (Some 3)) =
    (None, [EvRequest 0; EvSleep 1; EvRequest 1; EvSleep 2;
            EvRequest 2; EvSleep 4; EvRequest 3])
  /\ run (get_page_content always_timeout None)
     = run (get_page_content always_timeout (Some 3))
  /\ attempts_made (snd (run (get_page_content always_timeout (Some 3)))) = 4%nat
  /\ sleeps (snd (run (get_page_content always_timeout (Some 3)))) = [1; 2; 4].
Proof.
  apply (get_page_content_timeout_retries always_timeout).
  intros attempt. reflexivity.
Defined.

(** The same contract for any retry budget: [retries + 1] requests, the
    sleeps 1, 2, 4, ... between them, and [None] at the end. *)
Lemma sleeps_app l1 l2 : sleeps (l1 ++ l2) = sleeps l1 ++ sleeps l2.
Proof.
  induction l1 as [|[a|t] l1 IH]; simpl; [reflexivity | exact IH | now rewrite IH].
Qed.

Lemma sleeps_failed retries attempts :
  sleeps (concat (map (failed_iteration retries) attempts)) =
  map (fun a => 2 ^ a) (List.filter (fun a => a <? retries) attempts).
Proof.
  induction attempts as [|a rest IH]; [reflexivity|].
  rewrite map_cons, concat_cons, sleeps_app, IH.
  unfold failed_iteration. simpl. now destruct (a <? retries).
Qed.

Lemma range_succ n : 0 <= n -> range (n + 1) = range n ++ [n].
Proof.
  intros Hn. unfold range.
  replace (Z.to_nat (n + 1)) with (Z.to_nat n + 1)%nat by lia.
  rewrite seq_app, map_app. simpl. f_equal. f_equal. lia.
Qed.

Lemma filter_below_range n : List.filter (fun a => a <? n) (range n) = range n.
Proof.
  apply forallb_filter_id, forallb_forall. intros a Ha.
  apply In_range in Ha. apply Z.ltb_lt. lia.
Qed.

Lemma get_page_content_exhausts_retries (net : endpoint string) (retries : Z) :
  0 <= retries ->
  (forall a, 0 <= a <= retries -> page_retryable (net a) = true) ->
  fst (run (get_page_content net (Some retries))) = None
  /\ attempts_made (snd (run (get_page_content net (Some retries)))) = Z.to_nat (retries + 1)
  /\ sleeps (snd (run (get_page_content net (Some retries))))
     = map (fun a => 2 ^ a) (range retries).
Proof.
  intros Hr Hall. unfold run, get_page_content.
  rewrite page_loop_all_retry
    by (intros a Ha; apply Hall; apply In_range in Ha; lia).
  simpl fst; simpl snd. split; [reflexivity|]. split.
  - rewrite attempts_made_failed, length_range; lia.
  - rewrite sleeps_failed, range_succ, List.filter_app, filter_below_range by lia.
    simpl. rewrite Z.ltb_irrefl. now rewrite app_nil_r.
Qed.

(** A 404 is final: one request, no sleep. *)
Example get_page_content_404 :
  run (get_page_content (fun _ => Status404) None) = (None, [EvRequest 0]).
Proof. reflexivity. Qed.

(** In [get_json] a timeout is retried like in [get_page_content]. *)
Example get_json_timeout_retried :
  run (get_json (J := Z) (fun _ => RequestRaised TimeoutError) (Some 1)) =
    (None, [EvRequest 0; EvSleep 1; EvRequest 1]).
Proof. reflexivity. Qed.

Lemma json_loop_extends {J} (net : endpoint J) retries attempts : forall log,
  exists tail, snd (get_json_loop net retries attempts log) = log ++ tail.
Proof.
  induction attempts as [|a rest IH]; intros log.
  - exists []. cbn. now rewrite app_nil_r.
  - destruct (json_retryable (net a)) eqn:Er.
    + rewrite json_loop_step_retry by exact Er.
      destruct (IH (log ++ failed_iteration retries a)) as [tail ->].
      exists (failed_iteration retries a ++ tail). now rewrite app_assoc.
    + exists [EvRequest a]. cbn [get_json_loop]. unfold seqIO, emit.
      destruct (net a) as [[c|e]| |code|e]; cbn in Er; try discriminate; try reflexivity;
        destruct e; try discriminate; reflexivity.
Qed.

Lemma json_loop_first_request {J} (net : endpoint J) retries a rest log :
  exists tail,
    snd (get_json_loop net retries (a :: rest) log) = log ++ EvRequest a :: tail.
Proof.
  destruct (json_retryable (net a)) eqn:Er.
  - rewrite json_loop_step_retry by exact Er.
    destruct (json_loop_extends net retries rest (log ++ failed_iteration retries a))
      as [tail ->].
    unfold failed_iteration. rewrite <- app_assoc. cbn [app]. eauto.
  - exists []. cbn [get_json_loop]. unfold seqIO, emit.
    destruct (net a) as [[c|e]| |code|e]; cbn in Er; try discriminate; try reflexivity;
      destruct e; try discriminate; reflexivity.
Qed.

(** C7, as stated, fails: a 200 answer whose body [response.json()]
    refuses for its content type is a body that does not decode as JSON,
    and it is retried three times with back-off. *)
Lemma get_json_content_type_error_counterexample :
  html_error_page 0 = Status200 (Raise (ClientError "ContentTypeError"))
  /\ run (get_json html_error_page None)
     = (None, [EvRequest 0; EvSleep 1; EvRequest 1; EvSleep 2; EvRequest 2;
               EvSleep 4; EvRequest 3])
  /\ attempts_made (snd (run (get_json html_error_page None))) <> 1%nat.
Proof. split; [reflexivity|]. split; [reflexivity|]. discriminate. Qed.

(** C7, amended. Once a request of [get_json] is answered with status
    200 and a body on which [response.json()] raises
    [json.JSONDecodeError], the call returns [None] at once, whatever the
    retry budget: that request is the last event of the log.  When
    [response.json()] raises anything else, the request is followed, if
    the budget allows, by the back-off sleep and the next request, like
    the timeouts, network errors and unexpected statuses before it. *)
Theorem get_json_decode_error_terminal {J : Type} (net : endpoint J)
    (retries : option Z) (k : Z) (e : exn) :
  let budget := match retries with None => MAX_RETRIES | Some r => r end in
  let log := snd (run (get_json net retries)) in
  0 <= k <= budget ->
  (forall a, 0 <= a < k -> json_retryable (net a) = true) ->
  net k = Status200 (Raise e) ->
  (e = JSONDecodeError ->
   fst (run (get_json net retries)) = None
   /\ attempts_made log = Z.to_nat (k + 1)
   /\ last log = Some (EvRequest k))
  /\ (e <> JSONDecodeError -> k < budget ->
      exists rest,
        log = concat (map (failed_iteration budget) (range k))
              ++ [EvRequest k; EvSleep (2 ^ k); EvRequest (k + 1)] ++ rest).
Proof.
  intros budget log Hk Hpre Hbad. subst log.
  unfold run, get_json. fold budget. split.
  - intros ->.
    rewrite (range_split (budget + 1) k) by lia.
    rewrite json_loop_prefix_retry by (intros a Ha; apply Hpre; now apply In_range).
    rewrite json_loop_decode_error by exact Hbad.
    simpl fst; simpl snd. split; [reflexivity|]. split.
    + rewrite attempts_made_app, attempts_made_failed, length_range by lia.
      change (attempts_made [EvRequest k]) with 1%nat. lia.
    + apply last_snoc.
  - intros He Hlt.
    assert (Hretry : json_retryable (net k) = true).
    { rewrite Hbad. destruct e; try reflexivity. congruence. }
    rewrite (range_split (budget + 1) (k + 1)) by lia.
    rewrite (range_succ k) by lia. rewrite <- app_assoc. cbn [app].
    rewrite json_loop_prefix_retry by (intros a Ha; apply Hpre; now apply In_range).
    rewrite json_loop_step_retry by exact Hretry.
    destruct (json_loop_first_request net budget (k + 1)
                (map Z.of_nat (seq (S (Z.to_nat (k + 1))) (Z.to_nat (budget + 1 - (k + 1) - 1))))
                (([] ++ concat (map (failed_iteration budget) (range k)))
                 ++ failed_iteration budget k)) as [tail ->].
    exists tail. unfold failed_iteration at 2.
    apply Z.ltb_lt in Hlt. rewrite Hlt. cbn [app].
    rewrite <- app_assoc. reflexivity.
Qed.

Lemma get_json_decode_error_terminal_witness :
  (fst (run (get_json timeout_then_garbage None)) = None
   /\ attempts_made (snd (run (get_json timeout_then_garbage None))) = 2%nat
   /\ last (snd (run (get_json timeout_then_garbage None))) = Some (EvRequest 1))
  /\ exists rest,
       snd (run (get_json html_error_page None))
       = [EvRequest 0; EvSleep 1; EvRequest 1] ++ rest.
Proof.
  split.
  - apply (get_json_decode_error_terminal timeout_then_garbage None 1 JSONDecodeError).
    + unfold MAX_RETRIES. lia.
    + intros a Ha. assert (a = 0) as -> by lia. reflexivity.
    + reflexivity.
    + reflexivity.
  - apply (get_json_decode_error_terminal html_error_page None 0
             (ClientError "ContentTypeError")).
    + unfold MAX_RETRIES. lia.
    + intros a Ha. lia.
    + reflexivity.
    + discriminate.
    + unfold MAX_RETRIES. lia.
Defined.

(** *** Further facts about the retry loops *)

Lemma page_loop_prefix_retry net retries pre : forall rest log,
  (forall a, In a pre -> page_retryable (net a) = true) ->
  get_page_content_loop net retries (pre ++ rest) log =
  get_page_content_loop net retries rest (log ++ concat (map (failed_iteration retries) pre)).
Proof.
  induction pre as [|a pre IH]; intros rest log Hall.
  - simpl. now rewrite app_nil_r.
  - rewrite <- app_comm_cons.
    rewrite page_loop_step_retry by (apply Hall; now left).
    rewrite IH by (intros b Hb; apply Hall; now right).
    rewrite map_cons, concat_cons. now rewrite <- app_assoc.
Qed.

Lemma filter_below_le_range k retries :
  k <= retries -> List.filter (fun a => a <? retries) (range k) = range k.
Proof.
  intros Hk. apply forallb_filter_id, forallb_forall. intros a Ha.
  apply In_range in Ha. apply Z.ltb_lt. lia.
Qed.

Lemma sum_powers_range k :
  0 <= k -> fold_right Z.add 0 (map (fun a => 2 ^ a) (range k)) = 2 ^ k - 1.
Proof.
  intros Hk. pattern k. apply natlike_ind; [reflexivity| |exact Hk].
  clear k Hk. intros k Hk IH.
  rewrite <- Z.add_1_r, range_succ, map_app, fold_right_app by exact Hk.
  simpl fold_right at 2. rewrite Z.add_0_r.
  assert (Hshift : forall l z, fold_right Z.add z l = fold_right Z.add 0 l + z).
  { induction l as [|x l IHl]; intros z; simpl; [lia | rewrite IHl; lia]. }
  rewrite Hshift, IH, Z.pow_add_r by lia. change (2 ^ 1) with 2. lia.
Qed.

(** The log left by [k] failed iterations that were all followed by a sleep. *)
Lemma failed_prefix_log k retries :
  0 <= k <= retries ->
  attempts_made (concat (map (failed_iteration retries) (range k))) = Z.to_nat k
  /\ sleeps (concat (map (failed_iteration retries) (range k)))
     = map (fun a => 2 ^ a) (range k).
Proof.
  intros Hk. split.
  - rewrite attempts_made_failed, length_range; lia.
  - rewrite sleeps_failed, filter_below_le_range by lia. reflexivity.
Qed.

Lemma decisive_log k retries :
  0 <= k <= retries ->
  let log := concat (map (failed_iteration retries) (range k)) ++ [EvRequest k] in
  attempts_made log = Z.to_nat (k + 1)
  /\ sleeps log = map (fun a => 2 ^ a) (range k)
  /\ total_sleep log = 2 ^ k - 1
  /\ last log = Some (EvRequest k).
Proof.
  intros Hk log. destruct (failed_prefix_log k retries Hk) as [Ha Hs].
  assert (Hsl : sleeps log = map (fun a => 2 ^ a) (range k)).
  { unfold log. rewrite sleeps_app, Hs. simpl. apply app_nil_r. }
  split; [|split; [exact Hsl|split]].
  - unfold log. rewrite attempts_made_app, Ha.
    change (attempts_made [EvRequest k]) with 1%nat. lia.
  - unfold total_sleep. rewrite Hsl. apply sum_powers_range. lia.
  - apply last_snoc.
Qed.

(** X1. When the first [k] requests fail in a retryable way and request
    [k] is answered 200, [get_page_content] returns that body after
    exactly [k + 1] requests, having slept 1, 2, ..., 2^(k-1) seconds in
    between, that is 2^k - 1 seconds in all, and nothing follows the
    successful request. *)
Theorem get_page_content_first_success (net : endpoint string)
    (retries : option Z) (k : Z) (content : string) :
  0 <= k <= match retries with None => MAX_RETRIES | Some r => r end ->
  (forall a, 0 <= a < k -> page_retryable (net a) = true) ->
  net k = Status200 (Ok content) ->
  fst (run (get_page_content net retries)) = Some content
  /\ attempts_made (snd (run (get_page_content net retries))) = Z.to_nat (k + 1)
  /\ sleeps (snd (run (get_page_content net retries))) = map (fun a => 2 ^ a) (range k)
  /\ total_sleep (snd (run (get_page_content net retries))) = 2 ^ k - 1
  /\ last (snd (run (get_page_content net retries))) = Some (EvRequest k).
Proof.
  intros Hk Hpre Hok. unfold run, get_page_content.
  set (r := match retries with None => MAX_RETRIES | Some r => r end) in *.
  rewrite (range_split (r + 1) k) by lia.
  rewrite page_loop_prefix_retry by (intros a Ha; apply Hpre; now apply In_range).
  cbn [get_page_content_loop]. unfold seqIO, emit. rewrite Hok.
  unfold ret. cbn [fst snd]. rewrite app_nil_l.
  split; [reflexivity|]. apply (decisive_log k r). lia.
Qed.

Lemma get_page_content_first_success_witness :
  fst (run (get_page_content third_time_lucky None)) = Some "<html>"
  /\ attempts_made (snd (run (get_page_content third_time_lucky None))) = 3%nat
  /\ sleeps (snd (run (get_page_content third_time_lucky None))) = [1; 2]
  /\ total_sleep (snd (run (get_page_content third_time_lucky None))) = 3
  /\ last (snd (run (get_page_content third_time_lucky None))) = Some (EvRequest 2).
Proof.
  apply (get_page_content_first_success third_time_lucky None 2 "<html>").
  - unfold MAX_RETRIES. lia.
  - intros a Ha. unfold third_time_lucky.
    destruct (a <? 2) eqn:E; [reflexivity | apply Z.ltb_ge in E; lia].
  - reflexivity.
Defined.

(** X2. A 404 ends both fetchers at once, whatever the retry budget:
    the answer is [None], the 404 request is the last event of the log
    and no sleep follows it. *)
Theorem not_found_is_final (page : endpoint string) (J : Type) (data : endpoint J)
    (retries : option Z) (k : Z) :
  0 <= k <= match retries with None => MAX_RETRIES | Some r => r end ->
  (forall a, 0 <= a < k -> page_retryable (page a) = true) ->
  (forall a, 0 <= a < k -> json_retryable (data a) = true) ->
  page k = Status404 ->
  data k = Status404 ->
  (fst (run (get_page_content page retries)) = None
   /\ attempts_made (snd (run (get_page_content page retries))) = Z.to_nat (k + 1)
   /\ last (snd (run (get_page_content page retries))) = Some (EvRequest k))
  /\ (fst (run (get_json data retries)) = None
      /\ attempts_made (snd (run (get_json data retries))) = Z.to_nat (k + 1)
      /\ last (snd (run (get_json data retries))) = Some (EvRequest k)).
Proof.
  intros Hk Hpage Hdata Hp Hd. unfold run, get_page_content, get_json.
  set (r := match retries with None => MAX_RETRIES | Some r => r end) in *.
  rewrite (range_split (r + 1) k) by lia.
  rewrite page_loop_prefix_retry by (intros a Ha; apply Hpage; now apply In_range).
  rewrite json_loop_prefix_retry by (intros a Ha; apply Hdata; now apply In_range).
  cbn [get_page_content_loop get_json_loop]. unfold seqIO, emit. rewrite Hp, Hd.
  unfold ret. cbn [fst snd]. rewrite app_nil_l.
  destruct (decisive_log k r ltac:(lia)) as (Ha & _ & _ & Hl).
  repeat split; assumption.
Qed.

Lemma not_found_is_final_witness :
  (fst (run (get_page_content error_then_missing (Some 5))) = None
   /\ attempts_made (snd (run (get_page_content error_then_missing (Some 5)))) = 2%nat
   /\ last (snd (run (get_page_content error_then_missing (Some 5)))) = Some (EvRequest 1))
  /\ (fst (run (get_json (J := Z) error_then_missing (Some 5))) = None
      /\ attempts_made (snd (run (get_json (J := Z) error_then_missing (Some 5)))) = 2%nat
      /\ last (snd (run (get_json (J := Z) error_then_missing (Some 5)))) = Some (EvRequest 1)).
Proof.
  apply (not_found_is_final error_then_missing Z error_then_missing (Some 5) 1).
  - lia.
  - intros a Ha. assert (a = 0) as -> by lia. reflexivity.
  - intros a Ha. assert (a = 0) as -> by lia. reflexivity.
  - reflexivity.
  - reflexivity.
Defined.

Lemma page_loop_some net retries attempts : forall log content,
  fst (get_page_content_loop net retries attempts log) = Some content ->
  exists k, In k attempts /\ net k = Status200 (Ok content).
Proof.
  induction attempts as [|a rest IH]; intros log content H.
  - discriminate.
  - destruct (page_retryable (net a)) eqn:Er.
    + rewrite page_loop_step_retry in H by exact Er.
      destruct (IH _ _ H) as (k & Hin & Hk). exists k. split; [now right | exact Hk].
    + cbn [get_page_content_loop] in H. unfold seqIO, emit in H.
      destruct (net a) as [[c|e]| |code|e] eqn:En; try discriminate.
      cbn in H. injection H as <-. exists a. split; [now left | exact En].
Qed.

Lemma json_loop_some {J} (net : endpoint J) retries attempts : forall log value,
  fst (get_json_loop net retries attempts log) = Some value ->
  exists k, In k attempts /\ net k = Status200 (Ok value).
Proof.
  induction attempts as [|a rest IH]; intros log value H.
  - discriminate.
  - destruct (json_retryable (net a)) eqn:Er.
    + rewrite json_loop_step_retry in H by exact Er.
      destruct (IH _ _ H) as (k & Hin & Hk). exists k. split; [now right | exact Hk].
    + cbn [get_json_loop] in H. unfold seqIO, emit in H.
      destruct (net a) as [[c|e]| |code|e] eqn:En; try discriminate;
        try (destruct e; discriminate).
      cbn in H. injection H as <-. exists a. split; [now left | exact En].
Qed.

(** X3. Whatever the fetchers return was the body of a 200 answer to one
    of the at most [retries + 1] requests: no other status and no failed
    request ever produces a value. *)
Theorem fetched_value_comes_from_200 (page : endpoint string) (J : Type)
    (data : endpoint J) (retries : option Z) (content : string) (value : J) :
  fst (run (get_page_content page retries)) = Some content ->
  fst (run (get_json data retries)) = Some value ->
  let budget := match retries with None => MAX_RETRIES | Some r => r end in
  (exists k, 0 <= k <= budget /\ page k = Status200 (Ok content))
  /\ (exists k, 0 <= k <= budget /\ data k = Status200 (Ok value)).
Proof.
  intros Hp Hd budget. unfold run, get_page_content, get_json in *.
  fold budget in Hp, Hd. split.
  - destruct (page_loop_some _ _ _ _ _ Hp) as (k & Hin & Hk).
    exists k. split; [apply In_range in Hin; lia | exact Hk].
  - destruct (json_loop_some _ _ _ _ _ Hd) as (k & Hin & Hk).
    exists k. split; [apply In_range in Hin; lia | exact Hk].
Qed.

Lemma fetched_value_comes_from_200_witness :
  (exists k, 0 <= k <= 3 /\ third_time_lucky k = Status200 (Ok "<html>"))
  /\ (exists k, 0 <= k <= 3 /\ json_second_try k = Status200 (Ok 7)).
Proof.
  apply (fetched_value_comes_from_200 third_time_lucky Z json_second_try None
           "<html>" 7); reflexivity.
Defined.

(** X4. When no request within the budget gets a final answer,
    [get_page_content] gives up with [None] after [retries + 1] requests
    and 2^retries - 1 seconds of sleep, never sleeping after the last
    request; with a negative budget it makes no request at all. *)
Theorem retry_budget_exhausted (net : endpoint string) (retries : Z) :
  (forall a, 0 <= a <= retries -> page_retryable (net a) = true) ->
  fst (run (get_page_content net (Some retries))) = None
  /\ attempts_made (snd (run (get_page_content net (Some retries))))
     = Z.to_nat (retries + 1)
  /\ sleeps (snd (run (get_page_content net (Some retries))))
     = map (fun a => 2 ^ a) (range retries)
  /\ total_sleep (snd (run (get_page_content net (Some retries))))
     = 2 ^ Z.max 0 retries - 1
  /\ (retries < 0 -> snd (run (get_page_content net (Some retries))) = []).
Proof.
  intros Hall. destruct (Z.lt_ge_cases retries 0) as [Hneg | Hpos].
  - unfold run, get_page_content, range.
    replace (Z.to_nat (retries + 1)) with 0%nat by lia.
    replace (Z.to_nat retries) with 0%nat by lia.
    replace (Z.max 0 retries) with 0 by lia.
    repeat split; reflexivity.
  - destruct (get_page_content_exhausts_retries net retries Hpos Hall) as (H1 & H2 & H3).
    split; [exact H1|]. split; [exact H2|]. split; [exact H3|]. split; [|lia].
    unfold total_sleep. rewrite H3, sum_powers_range by lia.
    now replace (Z.max 0 retries) with retries by lia.
Qed.

Lemma retry_budget_exhausted_witness :
  fst (run (get_page_content always_503 (Some 4))) = None
  /\ attempts_made (snd (run (get_page_content always_503 (Some 4)))) = 5%nat
  /\ sleeps (snd (run (get_page_content always_503 (Some 4)))) = [1; 2; 4; 8]
  /\ total_sleep (snd (run (get_page_content always_503 (Some 4)))) = 15
  /\ (4 < 0 -> snd (run (get_page_content always_503 (Some 4))) = []).
Proof.
  apply (retry_budget_exhausted always_503 4).
  intros a Ha. reflexivity.
Defined.

Lemma post_loop_step_retry {J} (net : Z -> post_outcome J) retries attempt rest log :
  post_retryable (net attempt) = true ->
  post_json_loop net retries (attempt :: rest) log =
  post_json_loop net retries rest (log ++ failed_iteration retries attempt).
Proof.
  intros Hr. cbn [post_json_loop]. unfold seqIO, emit at 1.
  destruct (net attempt) as [code [v|e]|e]; cbn [post_retryable] in Hr.
  - apply negb_true_iff in Hr. rewrite Hr.
    rewrite backoff_log; unfold failed_iteration; now rewrite <- app_assoc.
  - destruct (post_accepted code);
      rewrite backoff_log; unfold failed_iteration; now rewrite <- app_assoc.
  - rewrite backoff_log; unfold failed_iteration; now rewrite <- app_assoc.
Qed.

Lemma post_loop_all_retry {J} (net : Z -> post_outcome J) retries attempts : forall log,
  (forall a, In a attempts -> post_retryable (net a) = true) ->
  post_json_loop net retries attempts log =
  (None, log ++ concat (map (failed_iteration retries) attempts)).
Proof.
  induction attempts as [|a rest IH]; intros log Hall.
  - simpl. unfold ret. now rewrite app_nil_r.
  - rewrite post_loop_step_retry by (apply Hall; now left).
    rewrite IH by (intros b Hb; apply Hall; now right).
    rewrite map_cons, concat_cons. now rewrite <- app_assoc.
Qed.

Lemma post_loop_some {J} (net : Z -> post_outcome J) retries attempts :
  forall log value,
  fst (post_json_loop net retries attempts log) = Some value ->
  exists k code, In k attempts /\ net k = PostStatus code (Ok value)
                 /\ post_accepted code = true.
Proof.
  induction attempts as [|a rest IH]; intros log value H.
  - discriminate.
  - destruct (post_retryable (net a)) eqn:Er.
    + rewrite post_loop_step_retry in H by exact Er.
      destruct (IH _ _ H) as (k & code & Hin & Hk).
      exists k, code. split; [now right | exact Hk].
    + destruct (net a) as [code [v|e]|e] eqn:En; try discriminate.
      cbn [post_retryable] in Er. apply negb_false_iff in Er.
      cbn [post_json_loop] in H. unfold seqIO, emit in H. rewrite En, Er in H.
      cbn in H. injection H as <-. exists a, code. split; [now left | now split].
Qed.

(** X5. [post_json] treats a 404 and an undecodable body like any other
    failure: as long as no request is answered 200 or 201 with a body
    that decodes, it keeps retrying with the same back-off and ends with
    [None] after [retries + 1] requests; and a value it returns is the
    decoded body of a 200 or 201 answer. *)
Theorem post_json_only_accepts_decoded_200_201 {J : Type} (net : Z -> post_outcome J)
    (retries : Z) :
  0 <= retries ->
  (forall a, 0 <= a <= retries -> post_retryable (net a) = true) ->
  post_retryable (PostStatus (J := J) 404 (Raise JSONDecodeError)) = true
  /\ post_retryable (PostStatus (J := J) 201 (Raise JSONDecodeError)) = true
  /\ fst (run (post_json net (Some retries))) = None
  /\ attempts_made (snd (run (post_json net (Some retries)))) = Z.to_nat (retries + 1)
  /\ sleeps (snd (run (post_json net (Some retries)))) = map (fun a => 2 ^ a) (range retries)
  /\ (forall (other : Z -> post_outcome J) value,
        fst (run (post_json other (Some retries))) = Some value ->
        exists k code, 0 <= k <= retries /\ other k = PostStatus code (Ok value)
                       /\ (code = 200 \/ code = 201)).
Proof.
  intros Hr Hall. split; [reflexivity|]. split; [reflexivity|].
  unfold run, post_json.
  rewrite post_loop_all_retry by (intros a Ha; apply Hall; apply In_range in Ha; lia).
  cbn [fst snd]. rewrite app_nil_l. split; [reflexivity|]. split; [|split].
  - rewrite attempts_made_failed, length_range; lia.
  - rewrite sleeps_failed, range_succ, List.filter_app, filter_below_range by lia.
    simpl. rewrite Z.ltb_irrefl. now rewrite app_nil_r.
  - intros other value H.
    destruct (post_loop_some _ _ _ _ _ H) as (k & code & Hin & Hk & Hacc).
    exists k, code. split; [apply In_range in Hin; lia|]. split; [exact Hk|].
    unfold post_accepted in Hacc. apply orb_true_iff in Hacc.
    destruct Hacc as [E|E]; apply Z.eqb_eq in E; auto.
Qed.

Lemma post_json_only_accepts_decoded_200_201_witness :
  fst (run (post_json post_always_missing (Some 2))) = None
  /\ attempts_made (snd (run (post_json post_always_missing (Some 2)))) = 3%nat
  /\ fst (run (post_json post_created_garbage (Some 2))) = None
  /\ attempts_made (snd (run (post_json post_created_garbage (Some 2)))) = 3%nat.
Proof.
  destruct (post_json_only_accepts_decoded_200_201 post_always_missing 2
              ltac:(lia) (fun a _ => eq_refl)) as (_ & _ & H1 & H2 & _).
  destruct (post_json_only_accepts_decoded_200_201 post_created_garbage 2
              ltac:(lia) (fun a _ => eq_refl)) as (_ & _ & H3 & H4 & _).
  repeat split; assumption.
Defined.

End HttpClientFacts.

Module ValidatorsFacts.
Import Py Validators ValidatorsSpec.

(** The assertions of tests/test_validators.py. *)
Example test_validate_email :
  validate_email "test@example.com" = true
  /\ validate_email "user.name+tag@domain.co.uk" = true
  /\ validate_email "invalid-email" = false
  /\ validate_email "@domain.com" = false
  /\ validate_email "user@" = false.
Proof. repeat split; reflexivity. Qed.

Example test_validate_phone_number :
  validate_phone_number "+1-555-123-4567" = true
  /\ validate_phone_number "555-123-4567" = true
  /\ validate_phone_number "5551234567" = true
  /\ validate_phone_number "123" = false
  /\ validate_phone_number "abc-def-ghij" = false.
Proof. repeat split; reflexivity. Qed.

Example parenthesised_phone_rejected :
  validate_phone_number "(123) 456-7890" = false.
Proof. reflexivity. Qed.

Lemma chars_str l : chars (str l) = l.
Proof. apply list_ascii_of_string_of_list_ascii. Qed.

Lemma is_paren_not_separator c : is_paren c = true -> phone_separator c = false.
Proof.
  unfold is_paren. intros H. apply orb_true_iff in H.
  destruct H as [H|H]; apply Ascii.eqb_eq in H; subst; reflexivity.
Qed.

Lemma is_paren_not_digit c : is_paren c = true -> is_digit c = false.
Proof.
  unfold is_paren. intros H. apply orb_true_iff in H.
  destruct H as [H|H]; apply Ascii.eqb_eq in H; subst; reflexivity.
Qed.

Lemma is_paren_not_newline c : is_paren c = true -> Ascii.eqb c newline = false.
Proof.
  unfold is_paren. intros H. apply orb_true_iff in H.
  destruct H as [H|H]; apply Ascii.eqb_eq in H; subst; reflexivity.
Qed.

Lemma digits_7_15_paren l c :
  In c l -> is_paren c = true -> digits_7_15 l = false.
Proof.
  intros Hin Hp. unfold digits_7_15.
  destruct (forallb is_digit l) eqn:E; [|reflexivity].
  rewrite forallb_forall in E. specialize (E c Hin).
  now rewrite (is_paren_not_digit c Hp) in E.
Qed.

Lemma match_to_end_digits_paren l c :
  In c l -> is_paren c = true -> match_to_end digits_7_15 (str l) = false.
Proof.
  intros Hin Hp. unfold match_to_end. rewrite chars_str.
  rewrite (digits_7_15_paren l c Hin Hp). simpl.
  destruct (rev l) as [|c' before] eqn:E; [reflexivity|].
  destruct (Ascii.eqb_spec c' newline) as [->|Hne]; [|reflexivity].
  simpl. apply (digits_7_15_paren _ c); [|exact Hp].
  apply in_rev in Hin. rewrite E in Hin.
  rewrite <- in_rev. destruct Hin as [<-|Hin]; [|exact Hin].
  apply is_paren_not_newline in Hp. now rewrite Ascii.eqb_refl in Hp.
Qed.

Lemma validate_phone_number_paren phone :
  has_paren phone = true -> validate_phone_number phone = false.
Proof.
  unfold has_paren. rewrite existsb_exists. intros (c & Hin & Hp).
  unfold validate_phone_number. apply (match_to_end_digits_paren _ c); [|exact Hp].
  unfold clean_phone. apply filter_In. split; [exact Hin|].
  now rewrite (is_paren_not_separator c Hp).
Qed.

Lemma lstrip_list_incl l c : In c (lstrip_list l) -> In c l.
Proof.
  induction l as [|a l IH]; simpl; [tauto|].
  destruct (is_space a); simpl; [right; auto | tauto].
Qed.

Lemma strip_incl s c : In c (chars (strip s)) -> In c (chars s).
Proof.
  unfold strip. rewrite chars_str. intros H.
  apply in_rev in H. apply lstrip_list_incl in H.
  apply in_rev in H. now apply lstrip_list_incl in H.
Qed.

Lemma has_paren_strip s : has_paren s = false -> has_paren (strip s) = false.
Proof.
  unfold has_paren. intros H.
  destruct (existsb is_paren (chars (strip s))) eqn:E; [|reflexivity].
  apply existsb_exists in E. destruct E as (c & Hin & Hp).
  apply strip_incl in Hin.
  assert (existsb is_paren (chars s) = true) by (apply existsb_exists; eauto).
  congruence.
Qed.

(** *** Further facts about the validators *)

Lemma str_chars s : str (chars s) = s.
Proof. apply string_of_list_ascii_of_string. Qed.

Lemma chars_nil_inv s : chars s = [] -> s = "".
Proof. now destruct s. Qed.

Lemma str_truthy_chars s : str_truthy s = nonempty (chars s).
Proof. now destruct s. Qed.

Lemma lstrip_list_no_space l :
  forallb (fun c => negb (is_space c)) l = true -> lstrip_list l = l.
Proof.
  destruct l as [|c l]; [reflexivity|]. simpl.
  intros H. apply andb_true_iff in H. destruct H as [Hc _].
  apply negb_true_iff in Hc. now rewrite Hc.
Qed.

Lemma forallb_rev {A} (p : A -> bool) l : forallb p (rev l) = forallb p l.
Proof.
  induction l as [|a l IH]; [reflexivity|].
  simpl. rewrite forallb_app, IH. simpl. rewrite andb_true_r. apply andb_comm.
Qed.

Lemma strip_no_space s :
  forallb (fun c => negb (is_space c)) (chars s) = true -> strip s = s.
Proof.
  intros H. unfold strip.
  rewrite (lstrip_list_no_space _ H).
  rewrite lstrip_list_no_space by now rewrite forallb_rev.
  rewrite rev_involutive. apply str_chars.
Qed.

Lemma price_char_not_space c : price_char c = true -> is_space c = false.
Proof.
  destruct c as [[] [] [] [] [] [] [] []]; intros H; try reflexivity; discriminate H.
Qed.

Lemma price_char_not_newline : price_char newline = false.
Proof. reflexivity. Qed.

Lemma price_body_nonempty l : price_body l = true -> nonempty l = true.
Proof. destruct l; [discriminate | reflexivity]. Qed.

Lemma match_to_end_price l :
  forallb price_char l = true ->
  match_to_end price_body (str l) = price_body l.
Proof.
  intros Hall. unfold match_to_end. rewrite chars_str.
  destruct (rev l) as [|c before] eqn:E; [apply orb_false_r|].
  destruct (Ascii.eqb_spec c newline) as [->|Hne]; [|apply orb_false_r].
  rewrite <- forallb_rev, E in Hall. cbn [forallb] in Hall.
  apply andb_true_iff in Hall. destruct Hall as [Hc _].
  now rewrite price_char_not_newline in Hc.
Qed.

(** X6. [clean_price] returns nothing exactly for the empty string;
    otherwise its result is either the input itself or a plain decimal
    (digits, optionally a dot or comma and one or two digits), and
    cleaning a result again changes nothing. *)
Theorem clean_price_idempotent (price_str : string) :
  (clean_price price_str = None <-> price_str = "")
  /\ (forall cleaned, clean_price price_str = Some cleaned ->
        (cleaned = price_str \/ price_body (chars cleaned) = true)
        /\ clean_price cleaned = Some cleaned).
Proof.
  split.
  - unfold clean_price. destruct price_str as [|c rest]; [now split|].
    cbn [str_truthy String.eqb negb].
    split; [|discriminate]. now destruct (match_to_end _ _).
  - intros cleaned H. pose proof H as H0. unfold clean_price in H.
    destruct (negb (str_truthy price_str)); [discriminate|].
    set (l := List.filter price_char (chars (strip price_str))) in *.
    assert (Hall : forallb price_char l = true) by apply forallb_filter.
    rewrite (match_to_end_price l Hall) in H.
    destruct (price_body l) eqn:Hbody; injection H as <-.
    + split; [right; now rewrite chars_str|].
      unfold clean_price.
      rewrite str_truthy_chars, chars_str, (price_body_nonempty l Hbody).
      cbn [negb].
      rewrite strip_no_space.
      * rewrite chars_str, (forallb_filter_id _ _ Hall).
        now rewrite (match_to_end_price l Hall), Hbody.
      * rewrite chars_str. rewrite forallb_forall in Hall |- *.
        intros c Hc. now rewrite (price_char_not_space c (Hall c Hc)).
    + split; [now left | exact H0].
Qed.

Lemma lower_empty_inv s : lower s = "" -> s = "".
Proof. destruct s; [reflexivity | discriminate]. Qed.

(** X7. [validate_shopify_url] accepts exactly the valid URLs that have
    a host: the list of Shopify indicators has no influence on the answer. *)
Theorem validate_shopify_url_ignores_indicators
    (validate_url : string -> bool) (netloc : string -> string) (url : string) :
  validate_shopify_url validate_url netloc url
  = validate_url url && str_truthy (netloc url).
Proof.
  unfold validate_shopify_url. destruct (validate_url url); [|reflexivity].
  cbn [negb andb].
  destruct (lower (netloc url)) as [|c rest] eqn:E.
  - apply lower_empty_inv in E. rewrite E. reflexivity.
  - assert (Hne : str_truthy (netloc url) = true).
    { destruct (netloc url); [discriminate | reflexivity]. }
    rewrite Hne. apply orb_true_r.
Qed.

Lemma take_while_forallb p l : forallb p (take_while p l) = true.
Proof.
  induction l as [|c l IH]; [reflexivity|].
  simpl. destruct (p c) eqn:E; [|reflexivity]. simpl. now rewrite E.
Qed.

Lemma group_at_shape text g :
  group_at text = Some g -> nonempty g = true /\ forallb handle_char g = true.
Proof.
  unfold group_at. pose proof (take_while_forallb handle_char text) as H.
  destruct (take_while handle_char text) as [|c l]; [discriminate|].
  intros [= <-]. split; [reflexivity | exact H].
Qed.

Lemma match_prefixes_shape alts : forall text g,
  match_prefixes alts text = Some g ->
  nonempty g = true /\ forallb handle_char g = true.
Proof.
  induction alts as [|alt alts IH]; intros text g; simpl.
  - apply group_at_shape.
  - destruct (literal_ci (chars alt) text) as [after|]; [|apply IH].
    destruct (group_at after) as [g'|] eqn:E; [|apply IH].
    intros [= <-]. now apply group_at_shape in E.
Qed.

Lemma search_handle_shape pat text : forall g,
  search_handle pat text = Some g ->
  nonempty g = true /\ forallb handle_char g = true.
Proof.
  induction text as [|c text IH]; intros g; simpl;
    unfold match_handle_at;
    destruct (literal_ci (chars (domain pat)) _) as [after|];
    try destruct (match_prefixes (prefixes pat) after) as [g'|] eqn:E;
    try discriminate; try apply IH;
    intros [= <-]; now apply match_prefixes_shape in E.
Qed.

(** X8. [extract_social_handle] answers [None] exactly for an invalid
    URL.  For a valid one the answer is either the URL itself or a
    non-empty handle without any slash or question mark in it. *)
Theorem extract_social_handle_shape (validate_url : string -> bool)
    (url platform : string) :
  (extract_social_handle validate_url url platform = None <-> validate_url url = false)
  /\ (forall handle, extract_social_handle validate_url url platform = Some handle ->
        handle = url
        \/ (str_truthy handle = true /\ forallb handle_char (chars handle) = true)).
Proof.
  unfold extract_social_handle. destruct (validate_url url); cbn [negb].
  - split.
    + split; [|discriminate].
      destruct (lookup_pattern _ _) as [pat|]; [|discriminate].
      destruct (search_handle _ _); discriminate.
    + intros handle.
      destruct (lookup_pattern _ _) as [pat|]; [|intros [= <-]; now left].
      destruct (search_handle pat (chars url)) as [g|] eqn:E; intros [= <-]; [|now left].
      right. apply search_handle_shape in E. destruct E as [Hne Hall].
      rewrite str_truthy_chars, chars_str. now split.
  - split; [now split|]. discriminate.
Qed.

(** *** Accepted telephone numbers and addresses *)

Section UnicodePhone.
Variable unicode_digit unicode_space : N -> bool.
Hypothesis digits_apart :
  forall c, unicode_digit c = true -> Unicode.phone_separator unicode_space c = false.
Hypothesis line_feed_is_space : unicode_space Unicode.line_feed = true.

Local Abbreviation separator := (Unicode.phone_separator unicode_space).

Lemma cleaned_digits (l : Unicode.ustr) :
  forallb unicode_digit (Unicode.cleaned unicode_space l)
  = forallb (fun c => unicode_digit c || separator c) l.
Proof.
  unfold Unicode.cleaned. induction l as [|c l IH]; [reflexivity|].
  cbn [List.filter forallb].
  destruct (separator c) eqn:Es; cbn [negb].
  - now rewrite orb_true_r.
  - cbn [forallb]. now rewrite orb_false_r, IH.
Qed.

Lemma cleaned_length (l : Unicode.ustr) :
  forallb (fun c => unicode_digit c || separator c) l = true ->
  length (Unicode.cleaned unicode_space l) = length (List.filter unicode_digit l).
Proof.
  unfold Unicode.cleaned. induction l as [|c l IH]; [reflexivity|].
  cbn [forallb List.filter]. intros H. apply andb_true_iff in H. destruct H as [Hc Hl].
  destruct (unicode_digit c) eqn:Ed.
  - rewrite (digits_apart _ Ed). cbn. now rewrite IH.
  - cbn in Hc. rewrite Hc. cbn. now apply IH.
Qed.

Lemma cleaned_no_line_feed (l before : Unicode.ustr) (c : N) :
  rev (Unicode.cleaned unicode_space l) = c :: before -> (c =? Unicode.line_feed)%N = false.
Proof.
  intros H.
  assert (Hin : In c (Unicode.cleaned unicode_space l)).
  { apply in_rev. rewrite H. now left. }
  apply filter_In in Hin. destruct Hin as [_ Hc].
  destruct (N.eqb_spec c Unicode.line_feed) as [->|]; [|reflexivity].
  unfold Unicode.phone_separator in Hc. now rewrite line_feed_is_space in Hc.
Qed.

(** X9. On any str, provided no decimal digit is a separator and the
    line feed is white space, [validate_phone_number] accepts exactly the
    strings made of decimal digits and of the separators it removes
    (white space, "-", "$", "+") that hold between 7 and 15 digits. *)
Theorem validate_phone_number_iff (phone : Unicode.ustr) :
  Unicode.validate_phone_number unicode_digit unicode_space phone = true
  <-> forallb (fun c => unicode_digit c || Unicode.phone_separator unicode_space c) phone = true
      /\ (7 <= length (List.filter unicode_digit phone) <= 15)%nat.
Proof.
  unfold Unicode.validate_phone_number, Unicode.match_to_end.
  assert (Hsnd : match rev (Unicode.cleaned unicode_space phone) with
                 | c :: before =>
                     (c =? Unicode.line_feed)%N && Unicode.digits_7_15 unicode_digit (rev before)
                 | [] => false
                 end = false).
  { destruct (rev (Unicode.cleaned unicode_space phone)) as [|c before] eqn:E; [reflexivity|].
    now rewrite (cleaned_no_line_feed _ _ _ E). }
  rewrite Hsnd, orb_false_r. unfold Unicode.digits_7_15. rewrite cleaned_digits. split.
  - intros H. apply andb_true_iff in H. destruct H as [H Hhi].
    apply andb_true_iff in H. destruct H as [Hall Hlo].
    rewrite (cleaned_length _ Hall) in Hlo, Hhi.
    apply Nat.leb_le in Hlo, Hhi. now split.
  - intros [Hall [Hlo Hhi]]. rewrite Hall, (cleaned_length _ Hall). cbn [andb].
    apply andb_true_iff. split; now apply Nat.leb_le.
Qed.

End UnicodePhone.

Lemma two_scripts_not_separator (c : N) :
  two_scripts c = true -> Unicode.phone_separator white_space c = false.
Proof.
  intros H.
  assert (Hc : (48 <= c <= 57 \/ 1632 <= c <= 1641)%N).
  { unfold two_scripts in H. apply orb_true_iff in H.
    destruct H as [H|H]; apply andb_true_iff in H; destruct H as [H1 H2];
      apply N.leb_le in H1, H2; lia. }
  unfold Unicode.phone_separator, white_space, Unicode.hyphen, Unicode.dollar, Unicode.plus.
  destruct Hc as [Hc|Hc];
    repeat match goal with
           | |- context [(?a =? ?b)%N] =>
               replace (a =? b)%N with false by (symmetry; apply N.eqb_neq; lia)
           | |- context [(?a <=? ?b)%N] =>
               first [ replace (a <=? b)%N with true by (symmetry; apply N.leb_le; lia)
                     | replace (a <=? b)%N with false by (symmetry; apply N.leb_gt; lia) ]
           end; reflexivity.
Qed.

Lemma validate_phone_number_iff_witness :
  Unicode.validate_phone_number two_scripts white_space arabic_indic_number = true.
Proof.
  apply (validate_phone_number_iff two_scripts white_space
           two_scripts_not_separator eq_refl arabic_indic_number).
  split; [reflexivity | cbn; lia].
Defined.

Lemma break_at_spec p l a b :
  break_at p l = (a, b) ->
  l = a ++ b /\ forallb (fun c => negb (p c)) a = true.
Proof.
  revert a b. induction l as [|c l IH]; intros a b.
  - intros [= <- <-]. now split.
  - cbn [break_at]. destruct (p c) eqn:Ep.
    + intros [= <- <-]. now split.
    + destruct (break_at p l) as [a' b'] eqn:E. intros [= <- <-].
      destruct (IH _ _ eq_refl) as [-> Ha]. split; [reflexivity|].
      cbn [forallb]. now rewrite Ep, Ha.
Qed.

Lemma break_at_head p l a c b : break_at p l = (a, c :: b) -> p c = true.
Proof.
  revert a. induction l as [|x l IH]; intros a.
  - discriminate.
  - cbn [break_at]. destruct (p x) eqn:Ep.
    + now intros [= _ <- _].
    + destruct (break_at p l) as [a' b'] eqn:E. intros [= _ ->]. now apply (IH a').
Qed.

Lemma chars_app s t : chars (s ++ t) = chars s ++ chars t.
Proof.
  unfold chars. induction s as [|a s IH]; [reflexivity|].
  change (String a s ++ t)%string with (String a (s ++ t)).
  cbn [list_ascii_of_string]. now rewrite IH.
Qed.

Lemma str_app l m : str (l ++ m) = (str l ++ str m)%string.
Proof.
  unfold str. induction l as [|a l IH]; [reflexivity|].
  cbn [app string_of_list_ascii]. rewrite IH. reflexivity.
Qed.

Lemma forallb_impl {A} (p q : A -> bool) l :
  (forall x, p x = true -> q x = true) -> forallb p l = true -> forallb q l = true.
Proof.
  intros Hpq. induction l as [|x l IH]; [reflexivity|].
  cbn [forallb]. intros H. apply andb_true_iff in H. destruct H as [Hx Hl].
  now rewrite (Hpq _ Hx), IH.
Qed.

Lemma email_domain_ok_shape l :
  email_domain_ok l = true ->
  forallb email_domain_char l = true /\ In "."%char l.
Proof.
  unfold email_domain_ok.
  destruct (break_at (Ascii.eqb ".") (rev l)) as [tld_rev rest_rev] eqn:E.
  destruct (break_at_spec _ _ _ _ E) as [Hl Htld].
  destruct rest_rev as [|dot dom_rev]; [discriminate|].
  assert (Hdot : dot = "."%char).
  { apply break_at_head in E. now apply Ascii.eqb_eq in E. }
  subst dot. intros H.
  apply andb_true_iff in H. destruct H as [H _].
  apply andb_true_iff in H. destruct H as [H Hdom].
  apply andb_true_iff in H. destruct H as [Halpha _].
  split.
  - rewrite <- (rev_involutive l), Hl, forallb_rev, forallb_app.
    cbn [forallb]. rewrite Hdom. cbn.
    rewrite andb_true_r.
    apply (forallb_impl is_alpha); [|exact Halpha].
    intros c Hc. unfold email_domain_char, is_alnum. now rewrite Hc.
  - apply in_rev. rewrite Hl. apply in_or_app. right. now left.
Qed.

Lemma email_body_shape l :
  email_body l = true ->
  exists local domain,
    l = local ++ "@"%char :: domain
    /\ local <> []
    /\ forallb email_local_char local = true
    /\ forallb email_domain_char domain = true
    /\ In "."%char domain.
Proof.
  unfold email_body.
  destruct (break_at (fun c => negb (email_local_char c)) l) as [local rest] eqn:E.
  destruct (break_at_spec _ _ _ _ E) as [-> Hlocal].
  destruct rest as [|at_sign domain]; [discriminate|].
  intros H. apply andb_true_iff in H. destruct H as [H Hdom].
  apply andb_true_iff in H. destruct H as [Hat Hlen].
  apply Ascii.eqb_eq in Hat. subst at_sign.
  destruct (email_domain_ok_shape _ Hdom) as [Hchars Hdot].
  exists local, domain. split; [reflexivity|]. split.
  - destruct local; [discriminate | congruence].
  - split; [|now split].
    apply (forallb_impl (fun c => negb (negb (email_local_char c)))); [|exact Hlocal].
    intros c Hc. now apply negb_true_iff, negb_false_iff in Hc.
Qed.

Lemma local_char_not_at c : email_local_char c = true -> c <> "@"%char.
Proof. intros H ->. discriminate H. Qed.

Lemma domain_char_not_at c : email_domain_char c = true -> c <> "@"%char.
Proof. intros H ->. discriminate H. Qed.

Lemma count_occ_none (p : ascii -> bool) l x :
  p x = false -> forallb p l = true -> count_occ ascii_dec l x = 0%nat.
Proof.
  intros Hx Hl. apply count_occ_not_In. intros Hin.
  rewrite forallb_forall in Hl. specialize (Hl _ Hin). congruence.
Qed.

Lemma contains_char l c : In c l -> contains (str l) (String c "") = true.
Proof.
  induction l as [|x l IH]; [easy|].
  intros [->|Hin]; cbn [str string_of_list_ascii contains].
  - cbn [String.prefix]. destruct (ascii_dec c c); [|congruence].
    now destruct (string_of_list_ascii l).
  - apply orb_true_iff. right. now apply IH.
Qed.

Lemma rev_chars_snoc s c : rev (chars (s ++ String c "")) = c :: rev (chars s).
Proof. rewrite chars_app, rev_app_distr. reflexivity. Qed.

(** X10. An address accepted by [validate_email] is a non-empty local
    part, one "@" and a domain with a dot in it, each over its own
    alphabet, possibly followed by one newline; the address is accepted
    with and without that newline. *)
Theorem validate_email_shape (email : string) :
  validate_email email = true ->
  exists local domain : string,
    (email = (local ++ "@" ++ domain)%string \/ email = (local ++ "@" ++ domain ++ nl)%string)
    /\ local <> ""
    /\ forallb email_local_char (chars local) = true
    /\ forallb email_domain_char (chars domain) = true
    /\ contains domain "." = true
    /\ count_occ ascii_dec (chars (local ++ "@" ++ domain)) "@"%char = 1%nat
    /\ validate_email (local ++ "@" ++ domain) = true
    /\ validate_email (local ++ "@" ++ domain ++ nl) = true.
Proof.
  unfold validate_email at 1, match_to_end.
  intros H.
  assert (Hbody : exists l, email_body l = true
                   /\ (chars email = l \/ chars email = l ++ [newline])).
  { apply orb_true_iff in H. destruct H as [H|H].
    - eexists. split; [exact H | now left].
    - destruct (rev (chars email)) as [|c before] eqn:E; [discriminate|].
      apply andb_true_iff in H. destruct H as [Hc H].
      apply Ascii.eqb_eq in Hc. subst c.
      eexists. split; [exact H|]. right.
      rewrite <- (rev_involutive (chars email)), E. reflexivity. }
  destruct Hbody as (l & Hl & Hemail).
  destruct (email_body_shape _ Hl) as (local & domain & -> & Hne & Hlocal & Hdomain & Hdot).
  assert (Hstr : (str local ++ "@" ++ str domain)%string = str (local ++ "@"%char :: domain)).
  { now rewrite str_app. }
  assert (Hchars : chars (str local ++ "@" ++ str domain) = local ++ "@"%char :: domain).
  { now rewrite Hstr, chars_str. }
  exists (str local), (str domain).
  rewrite Hchars, !chars_str. split; [|split; [|split; [|split; [|split; [|split; [|split]]]]]].
  - destruct Hemail as [E|E]; [left | right].
    + now rewrite Hstr, <- E, str_chars.
    + rewrite <- (str_chars email), E, <- app_assoc, str_app. f_equal.
      change (("@"%char :: domain) ++ [newline]) with ("@"%char :: (domain ++ [newline])).
      change (str ("@"%char :: (domain ++ [newline])))
        with (String "@" (str (domain ++ [newline]))).
      now rewrite str_app.
  - intros E. apply Hne. now rewrite <- (chars_str local), E.
  - exact Hlocal.
  - exact Hdomain.
  - now apply contains_char.
  - rewrite count_occ_app, (count_occ_none email_local_char) by (reflexivity || assumption).
    cbn [count_occ]. destruct (ascii_dec "@" "@") as [_|Hn]; [|congruence].
    now rewrite (count_occ_none email_domain_char).
  - unfold validate_email, match_to_end. now rewrite Hchars, Hl.
  - unfold validate_email, match_to_end. apply orb_true_iff. right.
    replace (str local ++ "@" ++ str domain ++ nl)%string
      with ((str local ++ "@" ++ str domain) ++ String newline "")%string.
    + now rewrite rev_chars_snoc, rev_involutive, Hchars, Hl.
    + rewrite Hstr. change (String newline "") with (str [newline]).
      rewrite <- str_app, <- app_assoc, str_app. f_equal.
      change (("@"%char :: domain) ++ [newline]) with ("@"%char :: (domain ++ [newline])).
      change (str ("@"%char :: (domain ++ [newline])))
        with (String "@" (str (domain ++ [newline]))).
      now rewrite str_app.
Qed.

Lemma validate_email_shape_witness :
  exists local domain : string,
    ("user@example.com" = (local ++ "@" ++ domain)%string
     \/ "user@example.com" = (local ++ "@" ++ domain ++ nl)%string)
    /\ validate_email (local ++ "@" ++ domain ++ nl) = true.
Proof.
  destruct (validate_email_shape "user@example.com" eq_refl)
    as (local & domain & Hsplit & _ & _ & _ & _ & _ & _ & Hnl).
  exists local, domain. now split.
Defined.

End ValidatorsFacts.

Module LLMProcessorFacts.
Import Py.

(** X11. The language-model step of the brand context always answers
    with a text: the whole input when no model is configured, and
    otherwise, for a non-empty input, its first 1000 characters or the
    stripped reply of the model, which is then longer than 50 characters. *)
Theorem llm_extract_brand_context_cases
    (client : option (string -> result (option string)))
    (brand_prompt : string -> string) (raw_text : string) :
  let answer := LLMProcessor.extract_brand_context client brand_prompt raw_text in
  answer <> None
  /\ (client = None -> answer = Some raw_text)
  /\ (forall chat, client = Some chat -> raw_text <> "" ->
      answer = Some (str_slice 1000 raw_text)
      \/ exists reply,
           chat (brand_prompt (str_slice 2000 raw_text)) = Ok (Some reply)
           /\ answer = Some (strip reply)
           /\ (50 < String.length (strip reply))%nat).
Proof.
  cbv zeta. unfold LLMProcessor.extract_brand_context.
  destruct client as [chat|].
  - destruct (str_truthy raw_text) eqn:Et; cbn [negb].
    + destruct (chat (brand_prompt (str_slice 2000 raw_text))) as [[reply|]|e] eqn:Ec.
      * destruct (str_truthy (strip reply) && (50 <? String.length (strip reply))%nat) eqn:Eok.
        -- split; [discriminate|]. split; [discriminate|].
           intros chat' [= <-] _. right. exists reply.
           apply andb_true_iff in Eok. destruct Eok as [_ Hlen].
           apply Nat.ltb_lt in Hlen. now rewrite Ec.
        -- split; [discriminate|]. split; [discriminate|]. intros; now left.
      * split; [discriminate|]. split; [discriminate|]. intros; now left.
      * split; [discriminate|]. split; [discriminate|]. intros; now left.
    + split; [discriminate|]. split; [discriminate|].
      intros chat' _ Hne. exfalso. apply Hne.
      unfold str_truthy in Et. apply negb_false_iff in Et. now apply String.eqb_eq in Et.
  - split; [discriminate|]. split; [reflexivity | discriminate].
Qed.

End LLMProcessorFacts.

Module ExtractorsFacts.
Import Py Pydantic Validators Extractors ValidatorsSpec ExtractorsSpec.

(** *** Product JSON *)

Lemma variant_dict_inv variant d :
  variant_dict variant = Ok d ->
  exists f, variant = JObj f
    /\ dict_get d "available" (JBool false)
        = match assoc "available" f with Some flag => flag | None => JBool true end
    /\ dict_get d "price" JNull
        = match assoc "price" f with Some x => x | None => JNull end.
Proof.
  destruct variant; simpl; try discriminate.
  intros [= <-]. eexists; split; [reflexivity|]. split; reflexivity.
Qed.

Lemma mapM_variant_dict_inv items : forall ds,
  mapM variant_dict items = Ok ds ->
  (items = [] <-> ds = [])
  /\ existsb (fun d => truthy (dict_get d "available" (JBool false))) ds
     = existsb variant_available items
  /\ match items, ds with
     | v :: _, d :: _ =>
         optional_str_field (dict_get d "price" JNull) = Ok (variant_price v)
         \/ is_raise (optional_str_field (dict_get d "price" JNull)) = true
     | _, _ => True
     end.
Proof.
  induction items as [|v items IH]; intros ds H.
  - injection H as <-. repeat split; trivial.
  - simpl in H. destruct (variant_dict v) as [d|] eqn:Ev; [|discriminate].
    destruct (mapM variant_dict items) as [ds'|] eqn:Em; [|discriminate].
    injection H as <-.
    destruct (IH ds' eq_refl) as (_ & Hex & _).
    destruct (variant_dict_inv _ _ Ev) as (f & -> & Hav & Hpr).
    split; [split; discriminate|]. split.
    + simpl. rewrite Hex, Hav. now destruct (assoc "available" f).
    + rewrite Hpr. unfold variant_price.
      destruct (assoc "price" f) as [[]|]; simpl; auto.
Qed.

Section ProductJson.
Variable urljoin : string -> string -> string.
Variable py_str : json -> string.

Lemma parse_product_json_inv product_data base_url p :
  _parse_product_json urljoin py_str product_data base_url = Some p ->
  exists ds,
    mapM variant_dict (source_variants product_data) = Ok ds
    /\ ProductSchema.available p =
        match ds with
        | [] => true
        | _ => existsb (fun d => truthy (dict_get d "available" (JBool false))) ds
        end
    /\ optional_str_field
         (match ds with d :: _ => dict_get d "price" JNull | [] => JNull end)
       = Ok (ProductSchema.price p).
Proof.
  unfold _parse_product_json, parse_product_json_body.
  destruct product_data as [| | | |text|items|fields]; try discriminate.
  - (* a str has no [get] *)
    simpl. destruct (contains text "images"); simpl.
    + discriminate.
    + destruct (contains text "variants"); simpl; discriminate.
  - (* neither has a list *)
    simpl. destruct (existsb _ items); simpl.
    + discriminate.
    + destruct (existsb _ items); simpl; discriminate.
  - unfold source_variants. simpl py_in. cbn [bind].
    set (imgs := if match assoc "images" fields with Some _ => true | None => false end
                 then _ else _).
    destruct imgs as [images|]; [|discriminate]. cbn [bind].
    unfold py_getitem.
    destruct (assoc "variants" fields) as [vs|] eqn:Evs; cbn [bind].
    + destruct (py_iter vs) as [items|] eqn:Eit; cbn [bind]; [|discriminate].
      destruct (mapM variant_dict items) as [ds|] eqn:Em; cbn [bind]; [|discriminate].
      unfold py_get; cbn [bind].
      repeat match goal with
      | |- context [bind ?r _] => destruct r eqn:?; cbn [bind]; try discriminate
      end.
      intros [= <-]. exists ds. simpl. repeat split; assumption.
    + unfold py_get; cbn [bind].
      repeat match goal with
      | |- context [bind ?r _] => destruct r eqn:?; cbn [bind]; try discriminate
      end.
      intros [= <-]. exists []. simpl. repeat split; assumption.
Qed.

(** C8. Whenever a catalog item parses, its [available] field is true
    exactly when the item has no variant data or some variant has its
    availability flag set, a variant without the flag counting as
    available; and its price is the price of the first variant (absent when
    there is none). *)
Theorem parse_product_json_available_price product_data base_url p :
  _parse_product_json urljoin py_str product_data base_url = Some p ->
  (ProductSchema.available p = true <->
     source_variants product_data = []
     \/ exists v, In v (source_variants product_data) /\ variant_available v = true)
  /\ ProductSchema.price p =
     match source_variants product_data with
     | [] => None
     | v :: _ => variant_price v
     end.
Proof.
  intros H. destruct (parse_product_json_inv _ _ _ H) as (ds & Hm & Hav & Hpr).
  destruct (mapM_variant_dict_inv _ _ Hm) as (Hnil & Hex & Hhd).
  split.
  - rewrite Hav. destruct ds as [|d ds'].
    + split; [intros _; left; now apply Hnil | reflexivity].
    + rewrite Hex, existsb_exists. split.
      * intros (v & Hin & Hv). right. now exists v.
      * intros [Hempty | Hv]; [|exact Hv].
        apply Hnil in Hempty. discriminate.
  - destruct (source_variants product_data) as [|v vs]; destruct ds as [|d ds'].
    + simpl in Hpr. now injection Hpr as <-.
    + destruct Hnil as [Hnil _]. now specialize (Hnil eq_refl).
    + destruct Hnil as [_ Hnil]. now specialize (Hnil eq_refl).
    + destruct Hhd as [Hhd | Hhd]; rewrite Hpr in Hhd.
      * now injection Hhd as ->.
      * discriminate.
Qed.

End ProductJson.

Example two_variant_product_parses :
  option_map (fun p => (ProductSchema.available p, ProductSchema.price p))
    (_parse_product_json join_url show_json two_variant_product "https://test-store.com")
  = Some (true, Some "29.99").
Proof. reflexivity. Qed.

Lemma parse_product_json_available_price_witness :
  exists p,
    _parse_product_json join_url show_json two_variant_product "https://test-store.com" = Some p
    /\ ProductSchema.available p = true
    /\ ProductSchema.price p = Some "29.99".
Proof.
  destruct (_parse_product_json join_url show_json two_variant_product
              "https://test-store.com") as [p|] eqn:E; [|discriminate].
  exists p. split; [reflexivity|].
  destruct (parse_product_json_available_price join_url show_json _ _ _ E) as [Hav Hpr].
  split.
  - apply Hav. right. eexists. split; [right; left; reflexivity | reflexivity].
  - exact Hpr.
Defined.

(** *** FAQs *)

Section Faqs.
Variable urljoin : string -> string -> string.
Variable get_page_content : string -> result (option string).
Variable _parse_faq_page : string -> result (list FAQSchema.t).
Variable llm_is_available : bool.
Variable llm_structure_faqs : list FAQSchema.t -> list FAQSchema.t.

(** C9, amended. The returned FAQ list never has more than 20 entries.
    The cap is taken after the optional enrichment, so the list is the
    first 20 entries of the enriched list when the enrichment is available
    and of the parsed list otherwise; without enrichment, 30 parsed pairs
    give exactly 20 entries. *)
Theorem extract_faqs_cap (base_url : string) :
  let parsed := parsed_faqs urljoin get_page_content _parse_faq_page base_url in
  let returned :=
    extract_faqs urljoin get_page_content _parse_faq_page
      llm_is_available llm_structure_faqs base_url in
  (length returned <= 20)%nat
  /\ returned =
       firstn 20 (if nonempty parsed && llm_is_available
                  then llm_structure_faqs parsed else parsed)
  /\ (llm_is_available = false -> length returned = Nat.min 20 (length parsed))
  /\ (llm_is_available = false -> length parsed = 30%nat -> length returned = 20%nat).
Proof.
  intros parsed returned.
  assert (Hret : returned =
            firstn 20 (if nonempty parsed && llm_is_available
                       then llm_structure_faqs parsed else parsed)) by reflexivity.
  assert (Hnone : llm_is_available = false ->
            length returned = Nat.min 20 (length parsed)).
  { intros Hoff. rewrite Hret, Hoff, andb_false_r. apply length_firstn. }
  split; [|split; [exact Hret|split; [exact Hnone|]]].
  - rewrite Hret, length_firstn. lia.
  - intros Hoff H30. rewrite (Hnone Hoff), H30. reflexivity.
Qed.

End Faqs.

Lemma structure_faqs_unavailable faq_prompt json_loads raw :
  LLMProcessor.structure_faqs None faq_prompt json_loads raw = raw.
Proof. reflexivity. Qed.

Example thirty_faqs_without_client :
  length (extract_faqs join_url faq_page_found parse_thirty
            (LLMProcessor.is_available None)
            (LLMProcessor.structure_faqs None plain_prompt loads_one_entry)
            "https://shop.example") = 20%nat.
Proof. reflexivity. Qed.

(** C9, as stated, fails: thirty pairs are parsed, the enrichment merges
    them into one entry, and the extractor returns that single entry. *)
Lemma extract_faqs_thirty_enriched_counterexample :
  length (parsed_faqs join_url faq_page_found parse_thirty "https://shop.example") = 30%nat
  /\ length (extract_faqs join_url faq_page_found parse_thirty
               (LLMProcessor.is_available merging_client)
               (LLMProcessor.structure_faqs merging_client plain_prompt loads_one_entry)
               "https://shop.example") = 1%nat
  /\ length (extract_faqs join_url faq_page_found parse_thirty
               (LLMProcessor.is_available merging_client)
               (LLMProcessor.structure_faqs merging_client plain_prompt loads_one_entry)
               "https://shop.example") <> 20%nat.
Proof. split; [reflexivity | split; [reflexivity | discriminate]]. Qed.

(** *** Social handles *)

Section Social.
Variable validate_url : string -> bool.

Lemma extract_social_handles_snoc hrefs href :
  extract_social_handles validate_url (hrefs ++ [href]) =
  platforms_loop validate_url href patterns (extract_social_handles validate_url hrefs).
Proof. unfold extract_social_handles. now rewrite fold_left_app. Qed.

Lemma setattr_instagram h handle :
  SocialHandlesSchema.instagram (setattr h "instagram" handle) = Some handle.
Proof. now destruct h. Qed.

(** Whatever the earlier links set, a later link that mentions instagram
    and yields a handle decides the instagram field. *)
Lemma later_instagram_link_overwrites hrefs href handle :
  contains (lower href) "instagram" = true ->
  extract_social_handle validate_url href "instagram" = Some handle ->
  str_truthy handle = true ->
  SocialHandlesSchema.instagram (extract_social_handles validate_url (hrefs ++ [href]))
  = Some handle.
Proof.
  intros Hc He Ht. rewrite extract_social_handles_snoc.
  unfold patterns. cbn [platforms_loop].
  change (lower "instagram") with "instagram".
  rewrite Hc, He, Ht. apply setattr_instagram.
Qed.

(** C5 on the code: two links of the same platform in one scan, the
    profile link first and a link to a single post after it.  The handle
    taken from the second link replaces the handle of the first. *)
Theorem extract_social_handles_second_link_wins :
  validate_url "https://instagram.com/acme" = true ->
  validate_url "https://www.instagram.com/p/Cxyz123/" = true ->
  SocialHandlesSchema.instagram
    (extract_social_handles validate_url ["https://instagram.com/acme"])
  = Some "acme"
  /\ SocialHandlesSchema.instagram
       (extract_social_handles validate_url
          ["https://instagram.com/acme"; "https://www.instagram.com/p/Cxyz123/"])
     = Some "p".
Proof.
  intros H1 H2. split.
  - apply (later_instagram_link_overwrites []); try reflexivity.
    unfold extract_social_handle. rewrite H1. reflexivity.
  - apply (later_instagram_link_overwrites ["https://instagram.com/acme"]);
      try reflexivity.
    unfold extract_social_handle. rewrite H2. reflexivity.
Qed.

End Social.

Lemma extract_social_handles_second_link_wins_witness :
  SocialHandlesSchema.instagram
    (extract_social_handles accept_all_urls ["https://instagram.com/acme"])
  = Some "acme"
  /\ SocialHandlesSchema.instagram
       (extract_social_handles accept_all_urls
          ["https://instagram.com/acme"; "https://www.instagram.com/p/Cxyz123/"])
     = Some "p".
Proof.
  apply (extract_social_handles_second_link_wins accept_all_urls); reflexivity.
Defined.

(** *** Contact details *)

Section Contact.
Import ValidatorsFacts.
Variable urljoin : string -> string -> string.
Variable get_page_content : string -> result (option string).
Variable get_text : string -> string.
Variable findall_email : string -> list string.

Lemma firstn_In {A} (n : nat) (l : list A) x : In x (firstn n l) -> In x l.
Proof.
  revert l. induction n as [|n IH]; intros [|a l]; simpl; try tauto.
  intros [->|H]; [now left | right; now apply IH].
Qed.

Lemma validated_phone_no_paren (keep : string -> bool) candidates p :
  In p (map strip (List.filter (fun phone => validate_phone_number phone && keep phone)
                     candidates)) ->
  has_paren p = false.
Proof.
  rewrite in_map_iff. intros (phone & <- & Hin).
  apply filter_In in Hin. destruct Hin as [_ Hv].
  apply andb_true_iff in Hv. destruct Hv as [Hv _].
  apply has_paren_strip.
  destruct (has_paren phone) eqn:E; [|reflexivity].
  now rewrite (validate_phone_number_paren phone E) in Hv.
Qed.

Lemma main_page_phone_no_paren text p :
  In p (firstn 3 (map strip (List.filter validate_phone_number (findall_phone text)))) ->
  has_paren p = false.
Proof.
  intros Hin. apply firstn_In in Hin.
  apply (validated_phone_no_paren (fun _ => true) (findall_phone text)).
  erewrite filter_ext; [exact Hin|].
  intros phone. now rewrite andb_true_r.
Qed.

(** C10. A phone string with a parenthesis in it never validates, because
    the separators removed before the digit test do not include parentheses;
    consequently no entry of the extracted phone list contains one. *)
Theorem parenthesised_phone_never_extracted (page_text base_url : string) :
  (forall phone, has_paren phone = true -> validate_phone_number phone = false)
  /\ (forall p,
        In p (ContactDetailsSchema.phone_numbers
                (extract_contact_details urljoin get_page_content get_text
                   findall_email page_text base_url)) ->
        has_paren p = false).
Proof.
  split; [exact validate_phone_number_paren|].
  intros p. unfold extract_contact_details.
  destruct (get_page_content _) as [[contact_content|]|];
    [destruct (str_truthy contact_content)|..]; simpl;
    try apply main_page_phone_no_paren.
  intros Hin. apply firstn_In in Hin. apply in_app_or in Hin.
  destruct Hin as [Hin|Hin].
  - now apply main_page_phone_no_paren in Hin.
  - now apply validated_phone_no_paren in Hin.
Qed.

End Contact.

(** The parenthesised area code is dropped; the rest of the number is
    picked up on its own. *)
Example parenthesised_phone_on_page :
  findall_phone "Call (123) 456-7890" = [" 456-7890"]
  /\ ContactDetailsSchema.phone_numbers
       (extract_contact_details join_url no_contact_page (fun t => t) no_emails
          "Call (123) 456-7890" "https://shop.example")
     = ["456-7890"].
Proof. split; reflexivity. Qed.

(** *** Hero products *)

Section Hero.
Variable Elem : Type.
Variable select : Elem -> string -> list Elem.
Variable select_one : Elem -> string -> option Elem.
Variable get_text : Elem -> string.
Variable attr : Elem -> string -> option string.
Variable urljoin : string -> string -> string.

Lemma unique_products_titles seen products :
  List.NoDup (map ProductSchema.title (unique_products seen products))
  /\ (forall p, In p (unique_products seen products) ->
        In p products /\ ProductSchema.title p ∉ seen)
  /\ (forall p, In p products -> ProductSchema.title p ∉ seen ->
        In (ProductSchema.title p)
           (map ProductSchema.title (unique_products seen products))).
Proof.
  revert seen. induction products as [|q rest IH]; intros seen.
  - split; [constructor|]. split; intros p [].
  - cbn [unique_products]. case_bool_decide as Hq.
    + destruct (IH seen) as (Hnd & Hin & Hall).
      split; [exact Hnd|]. split.
      * intros p Hp. destruct (Hin p Hp). split; [now right | assumption].
      * intros p [<-|Hp] Hns; [contradiction | now apply Hall].
    + destruct (IH ({[ProductSchema.title q]} ∪ seen)) as (Hnd & Hin & Hall).
      split; [|split].
      * cbn [map]. constructor; [|exact Hnd].
        rewrite in_map_iff. intros (p & Hpt & Hp).
        destruct (Hin p Hp) as [_ Hns]. apply Hns. rewrite Hpt.
        apply elem_of_union. left. now apply elem_of_singleton.
      * intros p [<-|Hp]; [split; [now left | exact Hq]|].
        destruct (Hin p Hp) as [Hrest Hns]. split; [now right|].
        intros Hs. apply Hns, elem_of_union. now right.
      * intros p [<-|Hp] Hns; [now left|]. cbn [map].
        destruct (decide (ProductSchema.title p = ProductSchema.title q)) as [E|E].
        -- left. now symmetry.
        -- right. apply Hall; [exact Hp|].
           intros Hu. apply elem_of_union in Hu. destruct Hu as [Hu|Hu]; [|contradiction].
           apply elem_of_singleton in Hu. contradiction.
Qed.

Lemma unique_products_length seen products :
  (length (unique_products seen products) <= length products)%nat.
Proof.
  revert seen. induction products as [|q rest IH]; intros seen; [reflexivity|].
  cbn [unique_products]. case_bool_decide.
  - specialize (IH seen). simpl. lia.
  - specialize (IH ({[ProductSchema.title q]} ∪ seen)). simpl. lia.
Qed.

Lemma omap_length_le {A B} (f : A -> option B) l : (length (omap f l) <= length l)%nat.
Proof.
  induction l as [|a l IH]; [reflexivity|].
  cbn [omap list_omap]. destruct (f a); simpl; lia.
Qed.

Lemma In_omap {A B} (f : A -> option B) l y :
  In y (omap f l) <-> exists x, In x l /\ f x = Some y.
Proof.
  induction l as [|a l IH]; cbn [omap list_omap].
  - split; [intros [] | intros (x & [] & _)].
  - destruct (f a) as [b|] eqn:E.
    + split.
      * intros [<-|H]; [exists a; split; [now left | exact E]|].
        apply IH in H. destruct H as (x & Hx & Hf). exists x. split; [now right | exact Hf].
      * intros (x & [<-|Hx] & Hf); [left; congruence|].
        right. apply IH. now exists x.
    + rewrite IH. split.
      * intros (x & Hx & Hf). exists x. split; [now right | exact Hf].
      * intros (x & [<-|Hx] & Hf); [congruence|]. now exists x.
Qed.

Lemma parse_product_element_shape element base_url p :
  _parse_product_element Elem select_one get_text attr urljoin element base_url = Some p ->
  str_truthy (ProductSchema.title p) = true
  /\ ProductSchema.available p = true
  /\ ProductSchema.variants p = [] /\ ProductSchema.id p = None.
Proof.
  unfold _parse_product_element.
  destruct (option_map _ _) as [title|]; [|discriminate].
  destruct (str_truthy title) eqn:E; [|discriminate].
  cbn [negb]. intros [= <-]. now cbn.
Qed.

(** X12. The hero products returned for a landing page carry pairwise
    different titles, are at most six, each has a non-empty title and is
    marked available; no title found among the (at most six) parsed
    elements is lost by the de-duplication. *)
Theorem extract_hero_products_unique (soup : Elem) (base_url : string) :
  let parsed :=
    omap (fun element =>
            _parse_product_element Elem select_one get_text attr urljoin element base_url)
      (firstn 6 (hero_elements Elem select soup hero_selectors)) in
  let heroes :=
    extract_hero_products Elem select select_one get_text attr urljoin soup base_url in
  List.NoDup (map ProductSchema.title heroes)
  /\ (length heroes <= 6)%nat
  /\ (forall p, In p heroes ->
        In p parsed /\ str_truthy (ProductSchema.title p) = true
        /\ ProductSchema.available p = true)
  /\ (forall p, In p parsed ->
        In (ProductSchema.title p) (map ProductSchema.title heroes)).
Proof.
  intros parsed heroes.
  destruct (unique_products_titles ∅ parsed) as (Hnd & Hin & Hall).
  fold heroes in Hnd, Hin, Hall.
  split; [exact Hnd|]. split; [|split].
  - unfold heroes, extract_hero_products. fold parsed.
    etransitivity; [apply unique_products_length|].
    unfold parsed. etransitivity; [apply omap_length_le|].
    rewrite length_firstn. lia.
  - intros p Hp. destruct (Hin p Hp) as [Hparsed _].
    split; [exact Hparsed|].
    apply In_omap in Hparsed. destruct Hparsed as (element & _ & Hparse).
    apply parse_product_element_shape in Hparse. tauto.
  - intros p Hp. apply Hall; [exact Hp | apply not_elem_of_empty].
Qed.

Lemma hero_elements_first soup pre : forall selector post,
  (forall s, In s pre -> select soup s = []) ->
  select soup selector <> [] ->
  hero_elements Elem select soup (pre ++ selector :: post) = select soup selector.
Proof.
  induction pre as [|s pre IH]; intros selector post Hpre Hsel.
  - cbn. destruct (select soup selector); [contradiction | reflexivity].
  - cbn. rewrite (Hpre s) by now left.
    apply IH; [intros s' Hs'; apply Hpre; now right | exact Hsel].
Qed.

(** X13. Only the first hero selector that matches anything is used:
    the result is built from the first six elements of that selector, so
    when none of them has a title the result is empty, whatever the later
    selectors would have matched. *)
Theorem extract_hero_products_first_selector (soup : Elem) (base_url : string)
    (pre post : list string) (selector : string) :
  hero_selectors = pre ++ selector :: post ->
  (forall s, In s pre -> select soup s = []) ->
  select soup selector <> [] ->
  extract_hero_products Elem select select_one get_text attr urljoin soup base_url
  = unique_products ∅
      (omap (fun element =>
               _parse_product_element Elem select_one get_text attr urljoin
                 element base_url)
         (firstn 6 (select soup selector)))
  /\ ((forall element, In element (firstn 6 (select soup selector)) ->
        first_selected Elem select_one element title_selectors = None) ->
      extract_hero_products Elem select select_one get_text attr urljoin soup base_url = []).
Proof.
  intros Hsplit Hpre Hsel. unfold extract_hero_products.
  rewrite Hsplit, (hero_elements_first soup pre selector post Hpre Hsel).
  split; [reflexivity|].
  intros Hnone.
  assert (E : omap (fun element =>
                      _parse_product_element Elem select_one get_text attr urljoin
                        element base_url)
                (firstn 6 (select soup selector)) = []).
  { induction (firstn 6 (select soup selector)) as [|e l IH]; [reflexivity|].
    cbn [omap list_omap]. unfold _parse_product_element at 1.
    rewrite (Hnone e) by now left. cbn.
    apply IH. intros e' He'. apply Hnone. now right. }
  now rewrite E.
Qed.

End Hero.

Lemma extract_hero_products_first_selector_witness :
  extract_hero_products string page_select page_select_one page_text page_attr
    join_url "landing" "https://shop.example"
  = unique_products ∅
      (omap (fun element =>
               _parse_product_element string page_select_one page_text page_attr
                 join_url element "https://shop.example")
         (firstn 6 (page_select "landing" ".featured-product")))
  /\ ((forall element,
         In element (firstn 6 (page_select "landing" ".featured-product")) ->
         first_selected string page_select_one element title_selectors = None) ->
      extract_hero_products string page_select page_select_one page_text page_attr
        join_url "landing" "https://shop.example" = []).
Proof.
  apply (extract_hero_products_first_selector string page_select page_select_one
           page_text page_attr join_url "landing" "https://shop.example"
           [] [".hero-product"; ".product-featured"; ".homepage-product";
               "[data-product-id]"; ".product-card"; ".product-item"]
           ".featured-product").
  - reflexivity.
  - intros s [].
  - discriminate.
Defined.

(** The banner hides the card: nothing is returned although the card
    alone would give a product. *)
Example hero_banner_hides_card :
  extract_hero_products string page_select page_select_one page_text page_attr
    join_url "landing" "https://shop.example" = []
  /\ option_map ProductSchema.title
       (_parse_product_element string page_select_one page_text page_attr
          join_url "card" "https://shop.example") = Some "Mug".
Proof. split; reflexivity. Qed.

(** *** The catalog *)

Section Catalog.
Variable urljoin : string -> string -> string.
Variable py_str : json -> string.
Variable get_json : string -> result (option json).

Lemma pages_from_cons (page : Z) (k : nat) :
  map (fun i => page + Z.of_nat i) (seq 0 (S k))
  = page :: map (fun i => (page + 1) + Z.of_nat i) (seq 0 k).
Proof.
  cbn [seq map]. rewrite Z.add_0_r. f_equal.
  rewrite <- seq_shift, map_map. apply map_ext. intros i. lia.
Qed.

Lemma catalog_loop_pages (items : Z -> list json) (base_url : string) (n : Z) :
  n <= 100 ->
  (n < 100 -> catalog_page urljoin get_json base_url (n + 1) = None) ->
  forall (k fuel : nat) (page : Z) (products : list ProductSchema.t),
  page + Z.of_nat k = n ->
  ((k + 2 <= fuel)%nat \/ (n = 100 /\ (k + 1 <= fuel)%nat)) ->
  (forall p, page <= p <= n -> catalog_page urljoin get_json base_url p = Some (items p)) ->
  catalog_loop urljoin py_str get_json fuel base_url page products
  = products ++ concat (map (fun p => parsed_items urljoin py_str base_url (items p))
                          (map (fun i => page + Z.of_nat i) (seq 0 (S k)))).
Proof.
  intros Hn Hend. induction k as [|k IH]; intros fuel page products Hk Hfuel Hpages.
  - destruct fuel as [|fuel]; [lia|]. cbn [catalog_loop].
    rewrite (Hpages page) by lia. fold (parsed_items urljoin py_str base_url (items page)).
    cbn [seq map concat]. rewrite Z.add_0_r, app_nil_r.
    destruct (page + 1 >? 100) eqn:E; [reflexivity|].
    assert (n < 100) by (rewrite Z.gtb_ltb in E; apply Z.ltb_ge in E; lia).
    destruct fuel as [|fuel]; [lia|]. cbn [catalog_loop].
    replace (page + 1) with (n + 1) by lia. now rewrite (Hend ltac:(lia)).
  - destruct fuel as [|fuel]; [lia|]. cbn [catalog_loop].
    rewrite (Hpages page) by lia. fold (parsed_items urljoin py_str base_url (items page)).
    assert (E : (page + 1 >? 100) = false).
    { apply not_true_is_false. intros E. apply Z.gtb_lt in E. lia. }
    rewrite E, (IH fuel (page + 1)); [|lia|lia|intros p Hp; apply Hpages; lia].
    rewrite (pages_from_cons page (S k)). cbn [map concat].
    now rewrite <- app_assoc.
Qed.

(** X14. The catalog is the concatenation, in page order, of the
    products that parse on pages 1 to [n], where [n + 1] is the first page
    on which the loop breaks; and when pages 1 to 100 are all usable it is
    the content of exactly those hundred pages, whatever a page 101
    would hold. *)
Theorem extract_all_products_pages (items : Z -> list json) (base_url : string) (n : Z) :
  0 <= n <= 100 ->
  (forall p, 1 <= p <= n -> catalog_page urljoin get_json base_url p = Some (items p)) ->
  (n < 100 -> catalog_page urljoin get_json base_url (n + 1) = None) ->
  extract_all_products urljoin py_str get_json base_url
  = concat (map (fun p => parsed_items urljoin py_str base_url (items p)) (pages_upto n)).
Proof.
  intros Hn Hpages Hend. unfold extract_all_products.
  destruct (Z.eq_dec n 0) as [->|Hpos].
  - pose proof (Hend ltac:(lia)) as Hfirst. change (0 + 1) with 1 in Hfirst.
    cbn [catalog_loop]. now rewrite Hfirst.
  - rewrite (catalog_loop_pages items base_url n ltac:(lia) Hend (Z.to_nat (n - 1))
               100 1 []); [| lia | lia | intros p Hp; apply Hpages; lia].
    rewrite app_nil_l. f_equal. f_equal. unfold pages_upto, range.
    replace (S (Z.to_nat (n - 1))) with (Z.to_nat n) by lia.
    now rewrite map_map.
Qed.

End Catalog.

Lemma extract_all_products_pages_witness :
  extract_all_products join_url show_json sample_catalog "https://test-store.com"
  = concat (map (fun p => parsed_items join_url show_json "https://test-store.com"
                            [two_variant_product])
              (pages_upto 2)).
Proof.
  apply (extract_all_products_pages join_url show_json sample_catalog
           (fun _ => [two_variant_product]) "https://test-store.com" 2).
  - lia.
  - intros p Hp. assert (p = 1 \/ p = 2) as [-> | ->] by lia; reflexivity.
  - intros _. reflexivity.
Defined.

Example sample_catalog_has_two_products :
  length (extract_all_products join_url show_json sample_catalog "https://test-store.com")
  = 2%nat.
Proof. reflexivity. Qed.

(** X15. A catalog item is dropped (parsed to [None]) whenever it is not
    a JSON object, its title is present but not a string, or its tags are
    a non-empty value other than a string, in particular the non-empty
    tag list that [str.split] cannot handle. *)
Theorem parse_product_json_drops (urljoin : string -> string -> string)
    (py_str : json -> string) (product_data : json) (base_url : string) :
  (forall fields, product_data <> JObj fields)
  \/ (exists fields title, product_data = JObj fields
        /\ assoc "title" fields = Some title /\ (forall s, title <> JStr s))
  \/ (exists fields tags, product_data = JObj fields
        /\ assoc "tags" fields = Some tags /\ truthy tags = true
        /\ (forall s, tags <> JStr s)) ->
  _parse_product_json urljoin py_str product_data base_url = None.
Proof.
  intros H. destruct (_parse_product_json urljoin py_str product_data base_url)
    as [p|] eqn:Hp; [exfalso | reflexivity].
  unfold _parse_product_json, parse_product_json_body in Hp.
  destruct product_data as [| | | |text|items|fields].
  1-4: discriminate.
  - simpl in Hp. destruct (contains text "images"); simpl in Hp; [discriminate|].
    destruct (contains text "variants"); simpl in Hp; discriminate.
  - simpl in Hp. destruct (existsb _ items); simpl in Hp; [discriminate|].
    destruct (existsb _ items); simpl in Hp; discriminate.
  - destruct H as [H | [(f & title & [= <-] & Ht & Hns) | (f & tags & [= <-] & Ht & Htr & Hns)]].
    + now apply (H fields).
    + revert Hp. unfold py_in, py_get, py_getitem. rewrite Ht. cbn [bind].
      repeat match goal with
      | |- context [bind ?r _] => destruct r eqn:?; cbn [bind]; try discriminate
      | |- context [if ?b then _ else _] => destruct b eqn:?; cbn [bind]; try discriminate
      | |- context [match assoc ?k ?f with _ => _ end] =>
          destruct (assoc k f) eqn:?; cbn [bind]; try discriminate
      end;
      destruct title; try discriminate; now eelim Hns.
    + revert Hp. unfold py_in, py_get, py_getitem. rewrite Ht. cbn [bind].
      repeat match goal with
      | |- context [bind ?r _] => destruct r eqn:?; cbn [bind]; try discriminate
      | |- context [if ?b then _ else _] =>
          destruct b eqn:?; cbn [bind]; try discriminate; try congruence
      | |- context [match assoc ?k ?f with _ => _ end] =>
          destruct (assoc k f) eqn:?; cbn [bind]; try discriminate
      end.
      all: match goal with
           | H : (if truthy ?t then _ else _) = Ok _ |- _ =>
               rewrite Htr in H; destruct t; try discriminate H; now eelim Hns
           end.
Qed.

Lemma parse_product_json_drops_witness :
  _parse_product_json join_url show_json product_with_tag_list "https://test-store.com"
  = None.
Proof.
  apply parse_product_json_drops. right. right.
  exists [("id", JInt 12345); ("title", JStr "Test Product");
          ("handle", JStr "test-product");
          ("tags", JArr [JStr "cotton"; JStr "comfortable"])],
         (JArr [JStr "cotton"; JStr "comfortable"]).
  repeat split; try reflexivity. discriminate.
Defined.

(** *** Policies *)

Section Policies.
Variable Elem : Type.
Variable BeautifulSoup : string -> Elem.
Variable select_one : Elem -> string -> option Elem.
Variable get_text : Elem -> string.
Variable decompose : list string -> Elem -> Elem.
Variable urljoin : string -> string -> string.
Variable get_page_content : string -> result (option string).

Local Abbreviation policy_from :=
  (ExtractorsSpec.policy_from Elem BeautifulSoup select_one get_text decompose urljoin
     get_page_content).

Lemma extract_policy_sound base_url policy_type url_patterns policy :
  _extract_policy Elem BeautifulSoup select_one get_text decompose urljoin
    get_page_content base_url policy_type url_patterns = Some policy ->
  policy_from base_url url_patterns policy.
Proof.
  induction url_patterns as [|pattern rest IH]; [discriminate|].
  cbn [_extract_policy]. intros H.
  assert (Hrest : _extract_policy Elem BeautifulSoup select_one get_text decompose
                    urljoin get_page_content base_url policy_type rest = Some policy ->
                  policy_from base_url (pattern :: rest) policy).
  { intros Hr. destruct (IH Hr) as (pat & markup & Hin & Hrestp).
    exists pat, markup. split; [now right | exact Hrestp]. }
  destruct (get_page_content (urljoin base_url pattern)) as [[content|]|] eqn:Eget;
    try (now apply Hrest).
  destruct (str_truthy content); [|now apply Hrest].
  destruct (str_truthy _ && (100 <? _)%nat) eqn:Elen; [|now apply Hrest].
  injection H as <-. exists pattern, content.
  apply andb_true_iff in Elen. destruct Elen as [_ Elen]. apply Nat.ltb_lt in Elen.
  repeat split; try reflexivity; [now left | exact Eget | exact Elen].
Qed.

(** X16. Every policy in the result of [extract_all_policies] is filed
    under one of the four policy types, was taken from a page fetched at
    one of the three candidate paths of that type, records that URL, and
    holds more than 100 characters of text. *)
Theorem extract_all_policies_sound (base_url policy_type : string)
    (policy : PolicySchema.t) :
  (extract_all_policies Elem BeautifulSoup select_one get_text decompose urljoin
     get_page_content base_url : gmap string PolicySchema.t) !! policy_type = Some policy ->
  exists url_patterns,
    In (policy_type, url_patterns) policy_urls
    /\ policy_from base_url url_patterns policy.
Proof.
  unfold extract_all_policies.
  assert (Hinv : forall entries (acc : gmap string PolicySchema.t),
    (forall ty p, acc !! ty = Some p ->
       exists pats, In (ty, pats) policy_urls /\ policy_from base_url pats p) ->
    (forall e, In e entries -> In e policy_urls) ->
    forall ty p,
      fold_left
        (fun policies entry =>
           match _extract_policy Elem BeautifulSoup select_one get_text decompose
                   urljoin get_page_content base_url (fst entry) (snd entry) with
           | Some policy => <[fst entry := policy]> policies
           | None => policies
           end) entries acc !! ty = Some p ->
      exists pats, In (ty, pats) policy_urls /\ policy_from base_url pats p).
  { induction entries as [|[ty0 pats0] entries IH]; intros acc Hacc Hsub ty p.
    - apply Hacc.
    - cbn [fold_left fst snd]. apply IH.
      + intros ty' p'.
        destruct (_extract_policy _ _ _ _ _ _ _ _ ty0 pats0) as [p0|] eqn:E;
          [|apply Hacc].
        rewrite lookup_insert. case_decide as Hty; [|apply Hacc].
        intros [= <-]. subst ty'. exists pats0.
        split; [apply Hsub; now left | now apply extract_policy_sound in E].
      + intros e He. apply Hsub. now right. }
  apply Hinv; [|auto]. intros ty p. rewrite lookup_empty. discriminate.
Qed.

End Policies.

Lemma extract_all_policies_sound_witness :
  exists url_patterns,
    In ("privacy", url_patterns) policy_urls
    /\ policy_from string site_soup site_select_one site_text site_decompose join_url
         policy_site "https://shop.example" url_patterns
         (PolicySchema.mk (repeat_char "x" 120)
            (Some "https://shop.example/privacy-policy") None).
Proof.
  apply (extract_all_policies_sound string site_soup site_select_one site_text
           site_decompose join_url policy_site "https://shop.example" "privacy").
  vm_compute. reflexivity.
Defined.

(** *** Important links *)

Lemma get_set_link_other links link_type href other :
  link_type <> other ->
  get_link (set_link links link_type href) other = get_link links other.
Proof.
  intros Hne. destruct links. unfold set_link, get_link.
  repeat match goal with
  | |- context [String.eqb ?a ?b] =>
      destruct (String.eqb_spec a b); subst; try congruence; try discriminate
  end; reflexivity.
Qed.

Lemma link_types_loop_keeps href text patterns : forall links link_type kept,
  get_link links link_type = Some kept -> str_truthy kept = true ->
  get_link (link_types_loop href text patterns links) link_type = Some kept.
Proof.
  induction patterns as [|[ty keywords] rest IH]; intros links link_type kept Hget Htr;
    cbn [link_types_loop]; [exact Hget|].
  destruct (existsb _ keywords); [|now apply IH].
  destruct (opt_truthy (get_link links ty)) eqn:Eset; cbn [negb]; [now apply IH|].
  rewrite get_set_link_other; [exact Hget|].
  intros ->. rewrite Hget in Eset. cbn in Eset. congruence.
Qed.

Section Links.
Variable urljoin : string -> string -> string.

Lemma extract_important_links_keeps base_url later : forall links link_type kept,
  get_link links link_type = Some kept -> str_truthy kept = true ->
  get_link (fold_left (scan_link urljoin base_url) later links) link_type = Some kept.
Proof.
  induction later as [|link later IH]; intros links link_type kept Hget Htr;
    cbn [fold_left]; [exact Hget|].
  apply IH; [|exact Htr]. unfold scan_link. now apply link_types_loop_keeps.
Qed.

(** X17. In [extract_important_links] the first match wins: once a link
    category holds a non-empty URL, no link further down the page changes
    it. *)
Theorem extract_important_links_first_wins (earlier later : list (string * string))
    (base_url link_type kept : string) :
  get_link (extract_important_links urljoin earlier base_url) link_type = Some kept ->
  str_truthy kept = true ->
  get_link (extract_important_links urljoin (earlier ++ later) base_url) link_type
  = Some kept.
Proof.
  intros Hget Htr. unfold extract_important_links in *.
  rewrite fold_left_app. now apply extract_important_links_keeps.
Qed.

End Links.

Lemma extract_important_links_first_wins_witness :
  get_link (extract_important_links join_url contact_links "https://shop.example")
    "contact_us" = Some "https://shop.example/pages/contact".
Proof.
  apply (extract_important_links_first_wins join_url
           [("/pages/contact", "Contact us")] [("/pages/contact-sales", "Contact sales")]
           "https://shop.example" "contact_us" "https://shop.example/pages/contact");
    reflexivity.
Defined.

(** *** Contact details, continued *)

Section ContactLists.
Variable urljoin : string -> string -> string.
Variable get_page_content : string -> result (option string).
Variable get_text : string -> string.
Variable findall_email : string -> list string.

Lemma firstn_prefix {A} (n : nat) (l1 l2 : list A) :
  (length l1 <= n)%nat -> exists more, firstn n (l1 ++ l2) = l1 ++ more.
Proof.
  intros H. exists (firstn (n - length l1) l2).
  now rewrite firstn_app, firstn_all2.
Qed.

Lemma Forall_firstn {A} (P : A -> Prop) n l : Forall P l -> Forall P (firstn n l).
Proof.
  intros H. revert n. induction H as [|a l Ha _ IH]; intros [|n]; simpl;
    constructor; auto.
Qed.

Lemma Forall_filter_true {A} (p : A -> bool) l :
  Forall (fun a => p a = true) (List.filter p l).
Proof. apply List.Forall_forall. intros a Ha. now apply filter_In in Ha. Qed.

(** X18. The contact details never hold more than five e-mail addresses
    or three phone numbers; every address listed passes [validate_email];
    what the landing page gave stays at the front of both lists, the
    contact page only adding to it; and the address and the support hours
    are never filled in. *)
Theorem extract_contact_details_lists (page_text base_url : string) :
  let main_emails := firstn 5 (List.filter validate_email (findall_email page_text)) in
  let main_phones :=
    firstn 3 (map strip (List.filter validate_phone_number (findall_phone page_text))) in
  let details :=
    extract_contact_details urljoin get_page_content get_text findall_email
      page_text base_url in
  (length (ContactDetailsSchema.emails details) <= 5)%nat
  /\ (length (ContactDetailsSchema.phone_numbers details) <= 3)%nat
  /\ Forall (fun email => validate_email email = true) (ContactDetailsSchema.emails details)
  /\ (exists more, ContactDetailsSchema.emails details = main_emails ++ more)
  /\ (exists more, ContactDetailsSchema.phone_numbers details = main_phones ++ more)
  /\ ContactDetailsSchema.address details = None
  /\ ContactDetailsSchema.support_hours details = None.
Proof.
  intros main_emails main_phones details.
  assert (Hme : (length main_emails <= 5)%nat)
    by (unfold main_emails; rewrite length_firstn; lia).
  assert (Hmp : (length main_phones <= 3)%nat)
    by (unfold main_phones; rewrite length_firstn; lia).
  assert (Hve : Forall (fun email => validate_email email = true) main_emails)
    by (apply Forall_firstn, Forall_filter_true).
  unfold details, extract_contact_details. fold main_emails main_phones.
  destruct (get_page_content _) as [[contact_content|]|];
    [destruct (str_truthy contact_content)|..]; cbn.
  2-4: repeat split; try assumption; exists []; now rewrite app_nil_r.
  split; [rewrite length_firstn; lia|]. split; [rewrite length_firstn; lia|].
  split; [|split; [|split]].
  - apply Forall_firstn, Forall_app. split; [exact Hve|].
    apply List.Forall_forall. intros email He. apply filter_In in He.
    destruct He as [_ He]. now apply andb_true_iff in He.
  - now apply firstn_prefix.
  - now apply firstn_prefix.
  - now split.
Qed.

End ContactLists.

(** *** FAQ pages *)

Section FaqPages.
Variable Elem : Type.
Variable BeautifulSoup : string -> Elem.
Variable select : Elem -> string -> list Elem.
Variable select_one : Elem -> string -> option Elem.
Variable get_text : Elem -> string.
Variable find_next_sibling : Elem -> list string -> option Elem.
Variable urljoin : string -> string -> string.
Variable get_page_content : string -> result (option string).

Lemma faq_from_container_shape container faq :
  faq_from_container Elem select_one get_text container = Some faq ->
  faq_well_formed faq.
Proof.
  unfold faq_from_container.
  destruct (select_one container _) as [q|]; [|discriminate].
  destruct (select_one container _) as [a|]; [|discriminate].
  destruct (str_truthy _ && str_truthy _) eqn:E; [|discriminate].
  intros [= <-]. apply andb_true_iff in E. destruct E. now repeat split.
Qed.

Lemma faq_from_header_shape header faq :
  faq_from_header Elem get_text find_next_sibling header = Some faq ->
  faq_well_formed faq /\ contains (FAQSchema.question faq) "?" = true
  /\ (10 < String.length (FAQSchema.answer faq))%nat.
Proof.
  unfold faq_from_header.
  destruct (contains _ "?") eqn:Eq; [|discriminate].
  destruct (find_next_sibling header _) as [next|]; [|discriminate].
  destruct (str_truthy _ && (10 <? _)%nat) eqn:E; [|discriminate].
  intros [= <-]. apply andb_true_iff in E. destruct E as [Ea El].
  apply Nat.ltb_lt in El. cbn. repeat split; auto.
  destruct (stripped_text Elem get_text header); [discriminate Eq | reflexivity].
Qed.

Lemma parse_faq_page_shape soup :
  Forall faq_well_formed
    (_parse_faq_page Elem select select_one get_text find_next_sibling soup).
Proof.
  unfold _parse_faq_page. destruct (nonempty _);
    apply List.Forall_forall; intros faq Hin; apply In_omap in Hin;
    destruct Hin as (e & _ & He).
  - now apply faq_from_container_shape in He.
  - now apply faq_from_header_shape in He.
Qed.

Lemma faq_pages_loop_Forall (P : FAQSchema.t -> Prop)
    (parse : string -> result (list FAQSchema.t)) base_url :
  (forall content faqs, parse content = Ok faqs -> Forall P faqs) ->
  forall url_patterns faqs, Forall P faqs ->
  Forall P (faq_pages_loop urljoin get_page_content parse base_url url_patterns faqs).
Proof.
  intros Hparse. induction url_patterns as [|pattern rest IH]; intros faqs Hfaqs;
    cbn [faq_pages_loop]; [exact Hfaqs|].
  destruct (get_page_content _) as [content|]; [|now apply IH].
  destruct (opt_truthy content); [|now apply IH].
  destruct (parse _) as [page_faqs|] eqn:E; [|now apply IH].
  assert (Forall P (faqs ++ page_faqs))
    by (apply Forall_app; split; [exact Hfaqs | now apply Hparse in E]).
  destruct (nonempty _); [assumption | now apply IH].
Qed.

(** X19. Without enrichment, every entry [extract_faqs] returns, with
    the page parser of the code plugged in, has a non-empty question, a
    non-empty answer and no category, whichever of the two parsing tiers
    found it. *)
Theorem extract_faqs_well_formed (structure : list FAQSchema.t -> list FAQSchema.t)
    (base_url : string) :
  Forall faq_well_formed
    (extract_faqs urljoin get_page_content
       (fun content =>
          Ok (_parse_faq_page Elem select select_one get_text find_next_sibling
                (BeautifulSoup content)))
       false structure base_url).
Proof.
  unfold extract_faqs. rewrite andb_false_r.
  apply Forall_firstn. apply faq_pages_loop_Forall; [|constructor].
  intros content faqs [= <-]. apply parse_faq_page_shape.
Qed.

End FaqPages.

(** *** Enrichment of the FAQ list *)

Section Enrichment.
Variable client : option (string -> result (option string)).
Variable faq_prompt : string -> string.
Variable json_loads : string -> result json.

Lemma structured_faqs_malformed items :
  Exists malformed_item items -> is_raise (LLMProcessor.structured_faqs items) = true.
Proof.
  induction 1 as [item rest (f & q & a & -> & Hq & Ha & Hbad) | item rest _ IH].
  - cbn [LLMProcessor.structured_faqs]. rewrite Hq, Ha.
    destruct Hbad as [Hbad|Hbad].
    + destruct q; try reflexivity. now eelim Hbad.
    + destruct q; try reflexivity. destruct a; try reflexivity. now eelim Hbad.
  - cbn [LLMProcessor.structured_faqs].
    destruct item as [| | | | | |f]; try exact IH.
    destruct (assoc "question" f) as [q|]; [|exact IH].
    destruct (assoc "answer" f) as [a|]; [|exact IH].
    destruct (Pydantic.str_field q); [|reflexivity].
    destruct (Pydantic.str_field a); [|reflexivity].
    destruct (Pydantic.optional_str_field _); [|reflexivity].
    cbn [bind]. destruct (LLMProcessor.structured_faqs rest); [discriminate IH | reflexivity].
Qed.

(** X20. Enrichment of the FAQ list is all or nothing.  [structure_faqs]
    returns either the list it was given, untouched, or a list built
    entirely from the items of the model's reply; a single item whose
    question or answer is not a string discards the whole reply. *)
Theorem structure_faqs_all_or_nothing (raw_faqs : list FAQSchema.t) :
  let enriched := LLMProcessor.structure_faqs client faq_prompt json_loads raw_faqs in
  (enriched = raw_faqs
   \/ exists chat text found structured_data items,
        client = Some chat
        /\ chat (faq_prompt (LLMProcessor.faq_text raw_faqs)) = Ok (Some text)
        /\ LLMProcessor.search_json_array text = Some found
        /\ json_loads found = Ok structured_data
        /\ py_iter structured_data = Ok items
        /\ LLMProcessor.structured_faqs items = Ok enriched)
  /\ (forall chat text found structured_data items,
        client = Some chat ->
        chat (faq_prompt (LLMProcessor.faq_text raw_faqs)) = Ok (Some text) ->
        LLMProcessor.search_json_array text = Some found ->
        json_loads found = Ok structured_data ->
        py_iter structured_data = Ok items ->
        Exists malformed_item items ->
        enriched = raw_faqs).
Proof.
  intros enriched. unfold enriched, LLMProcessor.structure_faqs,
    LLMProcessor.structure_faqs_try.
  split.
  - destruct client as [chat|]; [|now left].
    destruct (negb (nonempty raw_faqs)); [now left|].
    destruct (chat _) as [[text|]|] eqn:Echat; cbn [bind]; try (now left).
    destruct (LLMProcessor.search_json_array text) as [found|] eqn:Efound; [|now left].
    destruct (json_loads found) as [data|] eqn:Eloads; cbn [bind]; [|now left].
    destruct (py_iter data) as [items|] eqn:Eiter; cbn [bind]; [|now left].
    destruct (LLMProcessor.structured_faqs items) as [faqs|] eqn:Efaqs; cbn [bind];
      [|now left].
    right. now exists chat, text, found, data, items.
  - intros chat text found data items -> Echat Efound Eloads Eiter Hbad.
    destruct (negb (nonempty raw_faqs)); [reflexivity|].
    rewrite Echat. cbn [bind]. rewrite Efound, Eloads. cbn [bind].
    rewrite Eiter. cbn [bind].
    apply structured_faqs_malformed in Hbad.
    now destruct (LLMProcessor.structured_faqs items).
Qed.

End Enrichment.

Example one_bad_entry_discards_reply :
  LLMProcessor.structure_faqs sloppy_client plain_prompt loads_one_bad_entry thirty_faqs
  = thirty_faqs.
Proof. reflexivity. Qed.

(** *** Brand context *)

Lemma length_str_slice n s :
  String.length (str_slice n s) = Nat.min n (String.length s).
Proof.
  unfold str_slice. revert n. induction s as [|c s IH]; intros [|n]; simpl; auto.
Qed.

Section BrandContext.
Variable Elem : Type.
Variable BeautifulSoup : string -> Elem.
Variable select_one : Elem -> string -> option Elem.
Variable get_text : Elem -> string.
Variable decompose : list string -> Elem -> Elem.
Variable urljoin : string -> string -> string.
Variable get_page_content : string -> result (option string).
Variable client : option (string -> result (option string)).
Variable brand_prompt : string -> string.

(** The extractor wired to the language-model processor. *)
Local Abbreviation brand_context :=
  (extract_brand_context Elem BeautifulSoup select_one get_text decompose urljoin
     get_page_content (LLMProcessor.is_available client)
     (LLMProcessor.extract_brand_context client brand_prompt)).

Lemma llm_brand_context_long text context :
  (100 < String.length text)%nat ->
  LLMProcessor.extract_brand_context client brand_prompt text = Some context ->
  (50 < String.length context)%nat
  /\ (client = None -> context = text).
Proof.
  intros Hlen. unfold LLMProcessor.extract_brand_context.
  destruct client as [chat|]; [|intros [= <-]; split; [lia | reflexivity]].
  assert (Hfb : forall c, Some (str_slice 1000 text) = Some c ->
                  (50 < String.length c)%nat /\ (Some chat = None -> c = text)).
  { intros c [= <-]. rewrite length_str_slice. split; [lia | discriminate]. }
  destruct text as [|c0 text]; [simpl in Hlen; lia|].
  cbn [str_truthy String.eqb negb].
  destruct (chat _) as [[content|]|]; try apply Hfb.
  destruct (str_truthy _ && (50 <? _)%nat) eqn:E; [|apply Hfb].
  intros [= <-]. apply andb_true_iff in E. destruct E as [_ E].
  apply Nat.ltb_lt in E. split; [exact E | discriminate].
Qed.

Lemma about_selectors_loop_bounds about_soup selectors returned :
  about_selectors_loop Elem select_one get_text (LLMProcessor.is_available client)
    (LLMProcessor.extract_brand_context client brand_prompt) about_soup selectors
  = Some returned ->
  forall context, returned = Some context ->
  (50 < String.length context)%nat
  /\ (client = None -> (String.length context <= 1000)%nat).
Proof.
  induction selectors as [|selector rest IH]; [discriminate|].
  cbn [about_selectors_loop].
  destruct (select_one about_soup selector) as [elem|]; [|exact IH].
  destruct (100 <? _)%nat eqn:Elen; [|exact IH].
  apply Nat.ltb_lt in Elen.
  destruct (LLMProcessor.is_available client) eqn:Eav.
  - intros [= <-] context Hctx.
    apply (llm_brand_context_long _ _ Elen) in Hctx. split; [tauto|].
    intros Hc. rewrite Hc in Eav. discriminate.
  - intros [= <-] context [= <-]. rewrite length_str_slice. split; [lia | intros _; lia].
Qed.

Lemma about_pages_loop_bounds base_url urls returned :
  about_pages_loop Elem BeautifulSoup select_one get_text decompose urljoin
    get_page_content (LLMProcessor.is_available client)
    (LLMProcessor.extract_brand_context client brand_prompt) base_url urls
  = Some returned ->
  forall context, returned = Some context ->
  (50 < String.length context)%nat
  /\ (client = None -> (String.length context <= 1000)%nat).
Proof.
  induction urls as [|about_url rest IH]; [discriminate|].
  cbn [about_pages_loop].
  destruct (get_page_content _) as [[content|]|]; try exact IH.
  destruct (str_truthy content); [|exact IH].
  destruct (about_selectors_loop _ _ _ _ _ _ _) as [r|] eqn:E; [|exact IH].
  intros [= <-] context Hctx.
  exact (about_selectors_loop_bounds _ _ _ E context Hctx).
Qed.

Lemma intro_loop_bounds soup selectors context :
  intro_loop Elem select_one get_text soup selectors = Some context ->
  (50 < String.length context)%nat /\ (String.length context <= 500)%nat.
Proof.
  induction selectors as [|selector rest IH]; [discriminate|].
  cbn [intro_loop].
  destruct (select_one soup selector) as [elem|]; [|exact IH].
  destruct (50 <? _)%nat eqn:Elen; [|exact IH].
  apply Nat.ltb_lt in Elen. intros [= <-]. rewrite length_str_slice. lia.
Qed.

(** X21. A brand context, when one is returned, is longer than 50
    characters, with or without the language model; without it, it is at
    most 1000 characters long. *)
Theorem extract_brand_context_bounds (soup : Elem) (base_url context : string) :
  extract_brand_context Elem BeautifulSoup select_one get_text decompose urljoin
    get_page_content (LLMProcessor.is_available client)
    (LLMProcessor.extract_brand_context client brand_prompt) soup base_url
  = Some context ->
  (50 < String.length context)%nat
  /\ (client = None -> (String.length context <= 1000)%nat).
Proof.
  unfold extract_brand_context.
  destruct (about_pages_loop _ _ _ _ _ _ _ _ _ _ _) as [returned|] eqn:E.
  - intros ->. exact (about_pages_loop_bounds _ _ _ E context eq_refl).
  - intros H. apply intro_loop_bounds in H. split; [lia | intros _; lia].
Qed.

End BrandContext.

Lemma extract_brand_context_bounds_witness :
  (50 < String.length (repeat_char "y" 1000))%nat
  /\ (@None (string -> result (option string)) = None ->
      (String.length (repeat_char "y" 1000) <= 1000)%nat).
Proof.
  apply (extract_brand_context_bounds string site_soup about_select_one about_text
           site_decompose join_url about_site None plain_prompt
           "landing" "https://shop.example" (repeat_char "y" 1000)).
  vm_compute. reflexivity.
Defined.

End ExtractorsFacts.

Module ScraperFacts.
Import Py Scraper ScraperSpec.

Example normalize_bare_domain :
  _normalize_url "example.com" = "https://example.com".
Proof. reflexivity. Qed.

Example normalize_keeps_http :
  _normalize_url "http://example.com" = "http://example.com".
Proof. reflexivity. Qed.

Example normalize_one_slash :
  _normalize_url "https://example.com/" = "https://example.com".
Proof. reflexivity. Qed.

Lemma rstrip_char_decompose c s :
  exists n, s = (rstrip_char c s ++ repeat_char c n)%string.
Proof.
  induction s as [|a s [n IH]].
  - exists 0%nat. reflexivity.
  - simpl. destruct (rstrip_char c s) as [|b t] eqn:E.
    + destruct (Ascii.eqb_spec a c) as [->|Hne].
      * exists (S n). simpl in *. now rewrite IH at 1.
      * exists n. simpl in *. now rewrite IH at 1.
    + exists n. simpl in *. now rewrite IH at 1.
Qed.

Lemma rstrip_char_no_trailing c s : endswith_char c (rstrip_char c s) = false.
Proof.
  induction s as [|a s IH]; [reflexivity|].
  simpl. destruct (rstrip_char c s) as [|b t] eqn:E.
  - destruct (Ascii.eqb_spec a c) as [->|Hne]; [reflexivity|].
    simpl. now apply Ascii.eqb_neq.
  - exact IH.
Qed.

(** C4, as stated, fails: a URL that ends in two slashes loses both of
    them, whereas stripping exactly one would leave one behind. *)
Lemma normalize_url_two_slashes_counterexample :
  _normalize_url "https://example.com//" = "https://example.com"
  /\ normalize_url_spec "https://example.com//" = "https://example.com/"
  /\ _normalize_url "https://example.com//" <> normalize_url_spec "https://example.com//".
Proof. split; [reflexivity | split; [reflexivity | discriminate]]. Qed.

(** C4, amended. Normalisation prepends "https://" exactly when the URL
    starts with neither "http://" nor "https://", and then removes every
    trailing slash: the result is the scheme-qualified URL minus a (possibly
    empty) run of slashes at its end, and never ends in a slash itself. *)
Theorem normalize_url_strips_all_trailing_slashes (url : string) :
  let qualified :=
    if startswith url "http://" || startswith url "https://" then url
    else ("https://" ++ url)%string in
  (exists n, qualified = (_normalize_url url ++ repeat_char "/" n)%string)
  /\ endswith_char "/" (_normalize_url url) = false.
Proof.
  intros qualified. unfold _normalize_url.
  assert (Hq : with_scheme url = qualified).
  { unfold with_scheme, has_scheme, qualified.
    now destruct (startswith url "http://" || startswith url "https://"). }
  rewrite Hq. split.
  - apply rstrip_char_decompose.
  - apply rstrip_char_no_trailing.
Qed.

(** *** The orchestrator *)

Section Orchestrator.
Variable Soup : Type.
Variable BeautifulSoup : string -> Soup.
Variable get_page_content : string -> result (option string).
Variable _extract_brand_name : Soup -> string -> option string.
Variable extraction_tasks : Soup -> string -> gathered (gmap string PolicySchema.t).
Variable now : Z.

Lemma or_default_raised {A} (x : result A) (d : A) :
  is_raise x = true -> or_default x d = d.
Proof. now destruct x. Qed.

(** C1. Once the landing page has been fetched, the pipeline returns a
    record whatever the extraction coroutines do: the URL is the
    normalised one, the timestamp is the clock reading, and each field is
    the value of its coroutine or, if that coroutine raised, the empty
    default of its type.  If all eight raised, every collection field is
    empty, no policy is present and the brand context is [None]. *)
Theorem extract_insights_absorbs_task_failures (website_url markup : string) :
  get_page_content (_normalize_url website_url) = Ok (Some markup) ->
  let url := _normalize_url website_url in
  let soup := BeautifulSoup markup in
  let results := extraction_tasks soup url in
  exists insights,
    extract_insights Soup BeautifulSoup get_page_content _extract_brand_name
      extraction_tasks now website_url = Ok insights
    /\ BrandInsightsSchema.website_url insights = url
    /\ BrandInsightsSchema.extraction_timestamp insights = now
    /\ BrandInsightsSchema.brand_name insights = _extract_brand_name soup url
    /\ BrandInsightsSchema.product_catalog insights = or_default (product_catalog results) []
    /\ BrandInsightsSchema.hero_products insights = or_default (hero_products results) []
    /\ BrandInsightsSchema.faqs insights = or_default (faqs results) []
    /\ BrandInsightsSchema.social_handles insights
       = or_default (social_handles results) SocialHandlesSchema.default
    /\ BrandInsightsSchema.contact_details insights
       = or_default (contact_details results) ContactDetailsSchema.default
    /\ BrandInsightsSchema.important_links insights
       = or_default (important_links results) ImportantLinksSchema.default
    /\ BrandInsightsSchema.brand_context insights = or_default (brand_context results) None
    /\ (is_raise (policies results) = true ->
        BrandInsightsSchema.privacy_policy insights = None
        /\ BrandInsightsSchema.return_policy insights = None
        /\ BrandInsightsSchema.refund_policy insights = None
        /\ BrandInsightsSchema.terms_of_service insights = None)
    /\ (all_raised results = true ->
        insights =
          BrandInsightsSchema.mk (_extract_brand_name soup url) url [] []
            None None None None [] SocialHandlesSchema.default
            ContactDetailsSchema.default None ImportantLinksSchema.default now).
Proof.
  intros Hfetch url soup results. subst url soup results.
  unfold extract_insights. rewrite Hfetch. cbn [bind].
  eexists. split; [reflexivity|]. cbn -[_normalize_url].
  repeat (split; [reflexivity|]). split.
  - intros Hp. rewrite (or_default_raised _ _ Hp).
    repeat split; apply lookup_empty.
  - unfold all_raised. intros Hall.
    repeat (apply andb_true_iff in Hall; destruct Hall as [Hall ?]).
    repeat rewrite or_default_raised by assumption.
    rewrite !lookup_empty. reflexivity.
Qed.

(** Without a landing page there is no record. *)
Lemma extract_insights_landing_failed website_url :
  get_page_content (_normalize_url website_url) = Ok None ->
  extract_insights Soup BeautifulSoup get_page_content _extract_brand_name
    extraction_tasks now website_url = Raise TypeError.
Proof. intros H. unfold extract_insights. now rewrite H. Qed.

End Orchestrator.

Lemma extract_insights_absorbs_task_failures_witness :
  exists insights,
    extract_insights string (fun markup => markup) landing_only title_as_brand
      every_task_raises 1700000000 "example.com/" = Ok insights
    /\ BrandInsightsSchema.website_url insights = "https://example.com"
    /\ BrandInsightsSchema.extraction_timestamp insights = 1700000000
    /\ BrandInsightsSchema.product_catalog insights = []
    /\ BrandInsightsSchema.faqs insights = []
    /\ BrandInsightsSchema.privacy_policy insights = None.
Proof.
  destruct (extract_insights_absorbs_task_failures string (fun markup => markup)
              landing_only title_as_brand every_task_raises 1700000000
              "example.com/" "<html><title>Shop</title></html>" eq_refl)
    as (insights & Hrun & Hurl & Hts & _ & _ & _ & _ & _ & _ & _ & _ & _ & Hall).
  exists insights. split; [exact Hrun|].
  rewrite (Hall eq_refl). repeat split.
Defined.

(** *** Normalising twice, and the pipeline over the fetcher *)

Lemma rstrip_char_fixed c s : endswith_char c s = false -> rstrip_char c s = s.
Proof.
  induction s as [|a s IH]; [reflexivity|].
  cbn [endswith_char rstrip_char]. destruct s as [|b t].
  - intros ->. reflexivity.
  - intros H. now rewrite (IH H).
Qed.

Lemma rstrip_char_head c a s :
  a <> c -> exists t, rstrip_char c (String a s) = String a t.
Proof.
  intros Hne. cbn [rstrip_char]. destruct (rstrip_char c s) as [|b t].
  - apply Ascii.eqb_neq in Hne. rewrite Hne. now exists "".
  - now exists (String b t).
Qed.

Lemma endswith_char_app c p s : s <> "" -> endswith_char c (p ++ s) = endswith_char c s.
Proof.
  intros Hs. induction p as [|a p IH]; [reflexivity|].
  change (String a p ++ s)%string with (String a (p ++ s)).
  cbn [endswith_char]. destruct (p ++ s)%string eqn:E; [|exact IH].
  destruct p; [now apply Hs in E | discriminate E].
Qed.

Lemma with_scheme_head url : exists s, with_scheme url = String "h" s.
Proof.
  unfold with_scheme, has_scheme.
  destruct (startswith url "http://" || startswith url "https://") eqn:E; cbn [negb].
  - destruct url as [|a url]; [discriminate|].
    assert (a = "h"%char) as ->; [|now eexists].
    unfold startswith in E. cbn [String.prefix] in E.
    destruct (ascii_dec "h" a) as [<-|]; [reflexivity | discriminate].
  - now eexists.
Qed.

Lemma normalize_url_head url : exists s, _normalize_url url = String "h" s.
Proof.
  unfold _normalize_url. destruct (with_scheme_head url) as [s ->].
  now apply rstrip_char_head.
Qed.

Lemma length_append (p s : string) :
  String.length (p ++ s) = (String.length p + String.length s)%nat.
Proof.
  induction p as [|a p IH]; [reflexivity|].
  change (String a p ++ s)%string with (String a (p ++ s)).
  cbn [String.length]. now rewrite IH.
Qed.

Lemma append_length_neq (p s : string) : p <> "" -> (p ++ s)%string <> s.
Proof.
  intros Hp E. apply (f_equal String.length) in E.
  rewrite length_append in E. destruct p; [congruence | cbn in E; lia].
Qed.

(** X22. Normalising twice gives the same URL exactly when the
    normalised URL still starts with a scheme; otherwise a second
    "https://" is put in front of it. *)
Theorem normalize_url_idempotent_iff (url : string) :
  _normalize_url (_normalize_url url) = _normalize_url url
  <-> has_scheme (_normalize_url url) = true.
Proof.
  pose proof (rstrip_char_no_trailing "/" (with_scheme url)) as Hend.
  fold (_normalize_url url) in Hend.
  destruct (normalize_url_head url) as [s Hs].
  unfold _normalize_url at 1. unfold with_scheme.
  destruct (has_scheme (_normalize_url url)) eqn:E; cbn [negb].
  - split; [reflexivity|]. intros _. now apply rstrip_char_fixed.
  - split; [|discriminate]. intros H. exfalso.
    rewrite rstrip_char_fixed in H.
    + now apply append_length_neq in H.
    + rewrite endswith_char_app; [exact Hend|]. rewrite Hs. discriminate.
Qed.

Example normalize_url_of_nothing :
  _normalize_url "" = "https:"
  /\ _normalize_url "https://" = "https:"
  /\ _normalize_url (_normalize_url "") = "https://https:".
Proof. repeat split. Qed.

Section Wired.
Variable Soup : Type.
Variable BeautifulSoup : string -> Soup.
Variable _extract_brand_name : Soup -> string -> option string.
Variable extraction_tasks : Soup -> string -> gathered (gmap string PolicySchema.t).
Variable now : Z.
Variable net : string -> HttpClient.endpoint string.

Local Abbreviation pipeline :=
  (extract_insights Soup BeautifulSoup (fetch_through net) _extract_brand_name
     extraction_tasks now).

(** X23. With the fetcher wired in, the pipeline raises the [TypeError]
    of parsing a missing page whenever none of the four attempts on the
    landing page is answered by a readable 200, and a record it returns
    was built from such an answer. *)
Theorem extract_insights_unreachable_store (website_url : string) :
  let landing := net (_normalize_url website_url) in
  ((forall k content, 0 <= k <= HttpClient.MAX_RETRIES ->
      landing k <> HttpClient.Status200 (Ok content)) ->
   pipeline website_url = Raise TypeError)
  /\ (forall insights, pipeline website_url = Ok insights ->
      exists k content,
        0 <= k <= HttpClient.MAX_RETRIES
        /\ landing k = HttpClient.Status200 (Ok content)
        /\ BrandInsightsSchema.brand_name insights
           = _extract_brand_name (BeautifulSoup content) (_normalize_url website_url)).
Proof.
  cbv zeta. unfold extract_insights, fetch_through. cbn [bind].
  destruct (fst (HttpClient.run (HttpClient.get_page_content
                   (net (_normalize_url website_url)) None))) as [content|] eqn:E.
  - cbn [bind]. split.
    + intros Hno. exfalso.
      destruct (HttpClientFacts.page_loop_some _ _ _ _ _ E) as (k & Hin & Hk).
      apply HttpClientFacts.In_range in Hin.
      apply (Hno k content); [unfold HttpClient.MAX_RETRIES in *; lia | exact Hk].
    + intros insights [= <-].
      destruct (HttpClientFacts.page_loop_some _ _ _ _ _ E) as (k & Hin & Hk).
      apply HttpClientFacts.In_range in Hin.
      exists k, content. split; [unfold HttpClient.MAX_RETRIES in *; lia|].
      split; [exact Hk | reflexivity].
  - cbn [bind]. split; [reflexivity | discriminate].
Qed.

End Wired.

End ScraperFacts.

Module RoutesFacts.
Import Py Scraper ScraperSpec ScraperFacts.

Section Counting.
Variable Soup : Type.
Variable BeautifulSoup : string -> Soup.
Variable get_page_content : string -> result (option string).
Variable _extract_brand_name : Soup -> string -> option string.
Variable extraction_tasks : Soup -> string -> gathered (gmap string PolicySchema.t).
Variable now : Z.

(** X24. A record assembled after all eight coroutines failed counts
    one data point when a brand name was found and none otherwise. *)
Theorem count_data_points_after_failed_tasks (website_url markup : string) :
  get_page_content (_normalize_url website_url) = Ok (Some markup) ->
  all_raised (extraction_tasks (BeautifulSoup markup) (_normalize_url website_url)) = true ->
  exists insights,
    extract_insights Soup BeautifulSoup get_page_content _extract_brand_name
      extraction_tasks now website_url = Ok insights
    /\ Routes._count_data_points insights
       = if opt_truthy (_extract_brand_name (BeautifulSoup markup) (_normalize_url website_url))
         then 1%nat else 0%nat.
Proof.
  intros Hfetch Hall. unfold extract_insights. rewrite Hfetch. cbn [bind].
  eexists. split; [reflexivity|].
  unfold all_raised in Hall.
  repeat (apply andb_true_iff in Hall; destruct Hall as [Hall ?]).
  repeat rewrite or_default_raised by assumption.
  rewrite !lookup_empty. unfold Routes._count_data_points.
  cbn [BrandInsightsSchema.brand_name BrandInsightsSchema.product_catalog
       BrandInsightsSchema.hero_products BrandInsightsSchema.privacy_policy
       BrandInsightsSchema.return_policy BrandInsightsSchema.refund_policy
       BrandInsightsSchema.terms_of_service BrandInsightsSchema.faqs
       BrandInsightsSchema.social_handles BrandInsightsSchema.contact_details
       BrandInsightsSchema.important_links BrandInsightsSchema.brand_context].
  generalize (opt_truthy (_extract_brand_name (BeautifulSoup markup)
                            (_normalize_url website_url))).
  now intros [|].
Qed.

End Counting.

Lemma count_data_points_after_failed_tasks_witness :
  exists insights,
    extract_insights string (fun markup => markup) landing_only title_as_brand
      every_task_raises 1700000000 "example.com/" = Ok insights
    /\ Routes._count_data_points insights = 1%nat.
Proof.
  exact (count_data_points_after_failed_tasks string (fun markup => markup)
           landing_only title_as_brand every_task_raises 1700000000
           "example.com/" "<html><title>Shop</title></html>" eq_refl eq_refl).
Defined.

End RoutesFacts.

Module CompetitorAnalyzerFacts.
Import Py CompetitorAnalyzer CompetitorAnalyzerSpec.
Local Open Scope Q_scope.

(** *** The similarity score in exact arithmetic *)

Lemma inject_nat_pos (n : nat) : (0 < n)%nat -> 0 < inject_Z (Z.of_nat n).
Proof.
  intros H. change 0 with (inject_Z 0). rewrite <- Zlt_Qlt. lia.
Qed.

Lemma true_div_unit (a b : nat) :
  (a <= b)%nat -> (0 < b)%nat -> in_unit_interval (true_div a b).
Proof.
  intros Hab Hb. unfold true_div, in_unit_interval.
  pose proof (inject_nat_pos b Hb) as Hpos. split.
  - apply Qle_shift_div_l; [exact Hpos|].
    rewrite Qmult_0_l. change 0 with (inject_Z 0). rewrite <- Zle_Qle. lia.
  - apply Qle_shift_div_r; [exact Hpos|].
    rewrite Qmult_1_l. rewrite <- Zle_Qle. lia.
Qed.

Lemma true_div_same (a : nat) : (0 < a)%nat -> true_div a a == 1.
Proof.
  intros Ha. unfold true_div. apply Qmult_inv_r.
  pose proof (inject_nat_pos a Ha) as Hpos. intros E. rewrite E in Hpos.
  now apply Qlt_irrefl in Hpos.
Qed.

Lemma jaccard_unit (A B : gset string) :
  (0 < size A)%nat -> in_unit_interval (jaccard A B).
Proof.
  intros HA. apply true_div_unit.
  - apply subseteq_size.
    etrans; [apply intersection_subseteq_l | apply union_subseteq_l].
  - assert (size A <= size (A ∪ B))%nat by apply subseteq_size, union_subseteq_l.
    lia.
Qed.

Lemma min_max_ratio_unit (a b : nat) :
  (0 < a)%nat -> (0 < b)%nat -> in_unit_interval (min_max_ratio a b).
Proof. intros Ha Hb. apply true_div_unit; lia. Qed.

Lemma ltb_and (a b : nat) :
  (0 <? a)%nat && (0 <? b)%nat = true -> (0 < a)%nat /\ (0 < b)%nat.
Proof.
  intros H. apply andb_true_iff in H. destruct H as [Ha Hb].
  apply Nat.ltb_lt in Ha. apply Nat.ltb_lt in Hb. now split.
Qed.

Lemma comparable_signals_unit main_brand competitor :
  Forall in_unit_interval (comparable_signals main_brand competitor).
Proof.
  unfold comparable_signals.
  repeat apply Forall_app_2.
  - destruct (_ && _) eqn:E; constructor; [|constructor].
    apply ltb_and in E. apply jaccard_unit. tauto.
  - destruct (_ && _) eqn:E; constructor; [|constructor].
    apply ltb_and in E. apply min_max_ratio_unit; tauto.
  - destruct (_ && _) eqn:E; constructor; [|constructor].
    apply ltb_and in E. apply min_max_ratio_unit; tauto.
Qed.

Lemma inject_nat_succ (n : nat) :
  inject_Z (Z.of_nat (S n)) == 1 + inject_Z (Z.of_nat n).
Proof. rewrite Nat2Z.inj_succ, <- Z.add_1_l, inject_Z_plus. reflexivity. Qed.

Lemma total_bounds signals :
  Forall in_unit_interval signals ->
  0 <= total signals /\ total signals <= inject_Z (Z.of_nat (length signals)).
Proof.
  induction 1 as [|q l [Hq0 Hq1] _ [IH0 IH1]].
  - simpl. split; apply Qle_refl.
  - change (total (q :: l)) with (q + total l).
    change (length (q :: l)) with (S (length l)).
    rewrite inject_nat_succ. split; lra.
Qed.

Lemma mean_unit signals :
  Forall in_unit_interval signals -> in_unit_interval (mean signals).
Proof.
  intros H. destruct (total_bounds signals H) as [H0 H1].
  destruct signals as [|q l]; [split; simpl; lra|].
  unfold mean. set (n := length (q :: l)) in *.
  assert (Hn : 0 < inject_Z (Z.of_nat n)) by (apply inject_nat_pos; unfold n; simpl; lia).
  split.
  - apply Qle_shift_div_l; [exact Hn|]. lra.
  - apply Qle_shift_div_r; [exact Hn|]. lra.
Qed.

Lemma total_all_one signals :
  Forall (fun q => q == 1) signals ->
  total signals == inject_Z (Z.of_nat (length signals)).
Proof.
  induction 1 as [|q l Hq _ IH].
  - reflexivity.
  - change (total (q :: l)) with (q + total l).
    change (length (q :: l)) with (S (length l)).
    rewrite inject_nat_succ, Hq, IH. reflexivity.
Qed.

Lemma mean_all_one signals :
  signals <> [] -> Forall (fun q => q == 1) signals -> mean signals == 1.
Proof.
  intros Hne H. destruct signals as [|q l]; [congruence|].
  unfold mean. rewrite (total_all_one _ H).
  apply Qmult_inv_r.
  assert (Hn : 0 < inject_Z (Z.of_nat (length (q :: l))))
    by (apply inject_nat_pos; simpl; lia).
  intros E. rewrite E in Hn. now apply Qlt_irrefl in Hn.
Qed.

Lemma product_types_nil : product_types [] = ∅.
Proof. reflexivity. Qed.

Lemma typed_catalog_nonempty catalog :
  (0 < size (product_types catalog))%nat -> nonempty catalog = true.
Proof.
  destruct catalog; [|reflexivity].
  rewrite product_types_nil, size_empty. lia.
Qed.

Lemma nonempty_length {A} (l : list A) : nonempty l = (0 <? length l)%nat.
Proof. now destruct l. Qed.

(** The code computes the mean of the comparable signals. *)
Lemma calculate_similarity_mean main_brand competitor :
  _calculate_similarity main_brand competitor
  == mean (comparable_signals main_brand competitor).
Proof.
  unfold _calculate_similarity, comparable_signals.
  set (mc := BrandInsightsSchema.product_catalog main_brand).
  set (cc := BrandInsightsSchema.product_catalog competitor).
  set (A := product_types mc). set (B := product_types cc).
  set (pa := platforms _). set (pb := platforms _).
  fold (jaccard A B) (min_max_ratio pa pb) (min_max_ratio (length mc) (length cc)).
  assert (Hcat : (0 <? size A)%nat && (0 <? size B)%nat = true ->
                 nonempty mc && nonempty cc = true
                 /\ (0 <? size (A ∪ B))%nat = true).
  { intros H. apply ltb_and in H. destruct H as [HA HB]. split.
    - unfold A, B in *. now rewrite !typed_catalog_nonempty.
    - apply Nat.ltb_lt.
      assert (size A <= size (A ∪ B))%nat by apply subseteq_size, union_subseteq_l.
      lia. }
  destruct ((0 <? size A)%nat && (0 <? size B)%nat) eqn:Etypes.
  - destruct (Hcat eq_refl) as [-> ->].
    generalize (jaccard A B) (min_max_ratio pa pb)
               (min_max_ratio (length mc) (length cc)).
    intros j r1 r2.
    destruct ((0 <? pa)%nat && (0 <? pb)%nat);
      destruct ((0 <? length mc)%nat && (0 <? length cc)%nat);
      cbn; field.
  - clear Hcat.
    generalize (min_max_ratio pa pb) (min_max_ratio (length mc) (length cc)).
    intros r1 r2.
    destruct (nonempty mc && nonempty cc);
      destruct ((0 <? pa)%nat && (0 <? pb)%nat);
      destruct ((0 <? length mc)%nat && (0 <? length cc)%nat);
      cbn; try reflexivity; field.
Qed.

Lemma calculate_similarity_no_signal main_brand competitor :
  comparable_signals main_brand competitor = [] ->
  _calculate_similarity main_brand competitor = 0.
Proof.
  unfold comparable_signals, _calculate_similarity.
  set (mc := BrandInsightsSchema.product_catalog main_brand).
  set (cc := BrandInsightsSchema.product_catalog competitor).
  intros H. apply app_eq_nil in H. destruct H as [H1 H].
  apply app_eq_nil in H. destruct H as [H2 H3].
  destruct ((0 <? size (product_types mc))%nat && (0 <? size (product_types cc))%nat);
    [discriminate|].
  destruct ((0 <? platforms _)%nat && (0 <? platforms _)%nat); [discriminate|].
  destruct ((0 <? length mc)%nat && (0 <? length cc)%nat); [discriminate|].
  now destruct (nonempty mc && nonempty cc).
Qed.

(** Two brands with the same product types, as many platforms and as many
    products score 1. *)
Corollary identical_profiles_score_one main_brand competitor :
  let mc := BrandInsightsSchema.product_catalog main_brand in
  let cc := BrandInsightsSchema.product_catalog competitor in
  let pa := platforms (BrandInsightsSchema.social_handles main_brand) in
  let pb := platforms (BrandInsightsSchema.social_handles competitor) in
  product_types mc = product_types cc -> (0 < size (product_types mc))%nat ->
  pa = pb -> (0 < pa)%nat ->
  length mc = length cc ->
  _calculate_similarity main_brand competitor == 1.
Proof.
  intros mc cc pa pb Htypes Hsize Hp Hpa Hlen.
  assert (Hmc : (0 < length mc)%nat).
  { apply typed_catalog_nonempty in Hsize. destruct mc; [discriminate | simpl; lia]. }
  rewrite calculate_similarity_mean. unfold comparable_signals.
  fold mc cc pa pb. rewrite <- Htypes, <- Hp, <- Hlen.
  apply Nat.ltb_lt in Hsize as Hs. apply Nat.ltb_lt in Hpa as Hq.
  apply Nat.ltb_lt in Hmc as Hc. rewrite Hs, Hq, Hc. cbn [andb app].
  apply mean_all_one; [discriminate|].
  repeat constructor; unfold jaccard, min_max_ratio.
  - rewrite intersection_idemp_L, union_idemp_L. now apply true_div_same.
  - rewrite Nat.min_id, Nat.max_id. now apply true_div_same.
  - rewrite Nat.min_id, Nat.max_id. now apply true_div_same.
Qed.

Example score_of_equal_profiles :
  _calculate_similarity
    (brand_with [product_of_type "Shoes"; product_of_type "hats"] (Some "one"))
    (brand_with [product_of_type "HATS"; product_of_type "shoes"] (Some "two")) == 1.
Proof. vm_compute. reflexivity. Qed.

Example score_of_partial_overlap :
  _calculate_similarity
    (brand_with [product_of_type "Shoes"; product_of_type "hats"] (Some "one"))
    (brand_with [product_of_type "HATS"] None) == 1 # 2.
Proof. vm_compute. reflexivity. Qed.

Example score_without_signals :
  _calculate_similarity (brand_with [] None) (brand_with [product_of_type "hats"] None) = 0.
Proof. reflexivity. Qed.

(** *** The score in binary64, as the specification words it *)

Import FloatSpec FloatFacts.

Lemma existsb_eqb_elem (t : string) (l : list string) :
  existsb (String.eqb t) l = true <-> t ∈ l.
Proof.
  rewrite list_elem_of_In, existsb_exists. split.
  - intros (x & Hin & E). apply String.eqb_eq in E. now subst.
  - intros Hin. exists t. split; [exact Hin | apply String.eqb_refl].
Qed.

Lemma distinct_elem (x : string) (l : list string) : x ∈ Scorer.distinct l <-> x ∈ l.
Proof.
  induction l as [|y l IH]; [reflexivity|]. cbn [Scorer.distinct].
  destruct (existsb (String.eqb y) l) eqn:E.
  - rewrite IH, elem_of_cons. apply existsb_eqb_elem in E.
    split; [now right | intros [->|H]; assumption].
  - now rewrite !elem_of_cons, IH.
Qed.

Lemma distinct_NoDup (l : list string) : NoDup (Scorer.distinct l).
Proof.
  induction l as [|y l IH]; [constructor|]. cbn [Scorer.distinct].
  destruct (existsb (String.eqb y) l) eqn:E; [exact IH|].
  constructor; [|exact IH]. rewrite distinct_elem, <- existsb_eqb_elem. congruence.
Qed.

Lemma filter_elem (f : string -> bool) (x : string) (l : list string) :
  x ∈ List.filter f l <-> x ∈ l /\ f x = true.
Proof. now rewrite !list_elem_of_In, filter_In. Qed.

Lemma filter_NoDup (f : string -> bool) (l : list string) :
  NoDup l -> NoDup (List.filter f l).
Proof.
  induction 1 as [|x l Hx Hl IH]; [constructor|]. cbn [List.filter].
  destruct (f x); [|exact IH]. constructor; [|exact IH].
  rewrite filter_elem. tauto.
Qed.

Lemma size_as_distinct (l : list string) :
  size (list_to_set l : gset string) = length (Scorer.distinct l).
Proof.
  rewrite <- (size_list_to_set (C := gset string)) by apply distinct_NoDup.
  f_equal. apply set_eq. intros x. now rewrite !elem_of_list_to_set, distinct_elem.
Qed.

Lemma size_as_shared (la lb : list string) :
  size ((list_to_set la : gset string) ∩ list_to_set lb)
  = length (Scorer.shared (Scorer.distinct la) (Scorer.distinct lb)).
Proof.
  rewrite <- (size_list_to_set (C := gset string))
    by apply filter_NoDup, distinct_NoDup.
  f_equal. apply set_eq. intros x.
  rewrite elem_of_intersection, !elem_of_list_to_set. unfold Scorer.shared.
  now rewrite filter_elem, existsb_eqb_elem, !distinct_elem.
Qed.

Lemma size_as_combined (la lb : list string) :
  size ((list_to_set la : gset string) ∪ list_to_set lb)
  = length (Scorer.combined (Scorer.distinct la) (Scorer.distinct lb)).
Proof.
  rewrite <- (size_list_to_set (C := gset string)).
  - f_equal. apply set_eq. intros x.
    rewrite elem_of_union, !elem_of_list_to_set. unfold Scorer.combined.
    rewrite elem_of_app, filter_elem, negb_true_iff, !distinct_elem.
    destruct (existsb (String.eqb x) (Scorer.distinct la)) eqn:E.
    + apply existsb_eqb_elem in E. rewrite distinct_elem in E. tauto.
    + tauto.
  - unfold Scorer.combined. apply NoDup_app. split; [apply distinct_NoDup|]. split.
    + intros x Hx. rewrite filter_elem, negb_true_iff.
      apply existsb_eqb_elem in Hx. intros [_ E]. congruence.
    + apply filter_NoDup, distinct_NoDup.
Qed.

Lemma typed_products (catalog : list ProductSchema.t) :
  omap (fun p => match ProductSchema.product_type p with
                 | Some t => if str_truthy t then Some (lower t) else None
                 | None => None
                 end) catalog
  = flat_map (fun p => match ProductSchema.product_type p with
                       | Some (String a t) => [lower (String a t)]
                       | _ => []
                       end) catalog.
Proof.
  induction catalog as [|p catalog IH]; [reflexivity|].
  cbn [omap list_omap flat_map]. rewrite IH.
  now destruct (ProductSchema.product_type p) as [[|a t]|].
Qed.

Lemma product_types_as_type_set (record : BrandInsightsSchema.t) :
  product_types (BrandInsightsSchema.product_catalog record)
  = list_to_set (flat_map (fun p => match ProductSchema.product_type p with
                                    | Some (String a t) => [lower (String a t)]
                                    | _ => []
                                    end)
                   (BrandInsightsSchema.product_catalog record)).
Proof. unfold product_types. now rewrite typed_products. Qed.

Lemma platforms_as_count (record : BrandInsightsSchema.t) :
  platforms (BrandInsightsSchema.social_handles record) = Scorer.platform_count record.
Proof.
  unfold platforms, Scorer.platform_count, SocialHandlesSchema.values.
  assert (Hstep : forall o l,
            length (List.filter opt_truthy (o :: l))
            = (Scorer.present o + length (List.filter opt_truthy l))%nat).
  { intros [[|a t]|] l; reflexivity. }
  rewrite !Hstep. cbn [List.filter length]. lia.
Qed.

(** *** The score in binary64 *)

Lemma calculate_similarity_as_mean (A B : BrandInsightsSchema.t) :
  Binary64._calculate_similarity A B = Scorer.mean (Scorer.signals A B).
Proof.
  unfold Binary64._calculate_similarity, Scorer.signals.
  rewrite !platforms_as_count.
  rewrite !product_types_as_type_set, size_as_shared, size_as_combined, !size_as_distinct.
  fold (Scorer.type_set A) (Scorer.type_set B) (Scorer.catalog_size A) (Scorer.catalog_size B).
  unfold Scorer.both_nonzero.
  set (tA := Scorer.type_set A). set (tB := Scorer.type_set B).
  set (pA := Scorer.platform_count A). set (pB := Scorer.platform_count B).
  set (cA := Scorer.catalog_size A). set (cB := Scorer.catalog_size B).
  assert (Hcat : (0 <? length tA)%nat && (0 <? length tB)%nat = true ->
                 nonempty (BrandInsightsSchema.product_catalog A)
                 && nonempty (BrandInsightsSchema.product_catalog B) = true
                 /\ (0 <? length (Scorer.combined tA tB))%nat = true).
  { intros H. apply andb_true_iff in H. destruct H as [HA HB].
    apply Nat.ltb_lt in HA, HB. split.
    - unfold tA, tB, Scorer.type_set in HA, HB.
      destruct (BrandInsightsSchema.product_catalog A); [cbn in HA; lia|].
      destruct (BrandInsightsSchema.product_catalog B); [cbn in HB; lia|]. reflexivity.
    - apply Nat.ltb_lt. unfold Scorer.combined. rewrite length_app. lia. }
  destruct ((0 <? length tA)%nat && (0 <? length tB)%nat) eqn:Etypes.
  - destruct (Hcat eq_refl) as [-> ->].
    destruct ((0 <? pA)%nat && (0 <? pB)%nat);
      destruct ((0 <? cA)%nat && (0 <? cB)%nat); reflexivity.
  - clear Hcat.
    destruct (nonempty _ && nonempty _);
      destruct ((0 <? pA)%nat && (0 <? pB)%nat);
      destruct ((0 <? cA)%nat && (0 <? cB)%nat); reflexivity.
Qed.
Lemma within_tighten (lo hi lo' hi' : Z) (x : float) :
  within lo hi x -> inject_Z lo' <= value x -> value x <= inject_Z hi' ->
  within lo' hi' x.
Proof.
  destruct x as [s| | |s m e]; cbn [within value]; try tauto.
  - intros (-> & _ & _) Hl Hh. change 0 with (inject_Z 0) in Hl, Hh.
    rewrite <- Zle_Qle in Hl, Hh. now repeat split.
  - intros (-> & He & _) Hl Hh. now repeat split.
Qed.

Lemma number_within (n : nat) :
  (Z.of_nat n < 2 ^ 53)%Z -> within (Z.of_nat n) (Z.of_nat n) (Scorer.number n).
Proof. intros Hn. apply float_of_int_within. lia. Qed.

Lemma quotient_unit (a b : nat) :
  (a <= b)%nat -> (0 < b)%nat -> (Z.of_nat b < 2 ^ 53)%Z ->
  within 0 1 (Scorer.quotient a b).
Proof.
  intros Hab Hb Hlt.
  pose proof (number_within a ltac:(lia)) as Ha.
  pose proof (number_within b Hlt) as Hb'.
  pose proof (value_within _ _ _ Ha) as Va. pose proof (value_within _ _ _ Hb') as Vb.
  assert (H0 : inject_Z 0 <= inject_Z (Z.of_nat a)) by (rewrite <- Zle_Qle; lia).
  assert (Hle : inject_Z (Z.of_nat a) <= inject_Z (Z.of_nat b)) by (rewrite <- Zle_Qle; lia).
  change (inject_Z 0) with 0 in H0.
  apply (float_div_within _ _ _ _ _ _ 0 1 Ha Hb'); try lia.
  - change (inject_Z 0) with 0. lra.
  - change (inject_Z 1) with 1. lra.
Qed.

Lemma length_distinct_le (l : list string) : (length (Scorer.distinct l) <= length l)%nat.
Proof.
  induction l as [|x l IH]; [reflexivity|]. cbn [Scorer.distinct].
  destruct (existsb _ l); cbn [length]; lia.
Qed.

Lemma length_filter_le {A} (f : A -> bool) (l : list A) :
  (length (List.filter f l) <= length l)%nat.
Proof.
  induction l as [|x l IH]; [reflexivity|]. cbn [List.filter].
  destruct (f x); cbn [length]; lia.
Qed.

Lemma length_type_set_le (record : BrandInsightsSchema.t) :
  (length (Scorer.type_set record) <= Scorer.catalog_size record)%nat.
Proof.
  unfold Scorer.type_set, Scorer.catalog_size.
  etransitivity; [apply length_distinct_le|].
  induction (BrandInsightsSchema.product_catalog record) as [|p l IH]; [reflexivity|].
  cbn [flat_map]. rewrite length_app.
  destruct (ProductSchema.product_type p) as [[|a t]|]; cbn [length]; lia.
Qed.

Lemma platform_count_le (record : BrandInsightsSchema.t) :
  (Scorer.platform_count record <= 7)%nat.
Proof.
  unfold Scorer.platform_count.
  assert (H : forall o, (Scorer.present o <= 1)%nat) by (intros [[|a t]|]; cbn; lia).
  pose proof (H (SocialHandlesSchema.instagram (BrandInsightsSchema.social_handles record))).
  pose proof (H (SocialHandlesSchema.facebook (BrandInsightsSchema.social_handles record))).
  pose proof (H (SocialHandlesSchema.twitter (BrandInsightsSchema.social_handles record))).
  pose proof (H (SocialHandlesSchema.tiktok (BrandInsightsSchema.social_handles record))).
  pose proof (H (SocialHandlesSchema.youtube (BrandInsightsSchema.social_handles record))).
  pose proof (H (SocialHandlesSchema.linkedin (BrandInsightsSchema.social_handles record))).
  pose proof (H (SocialHandlesSchema.pinterest (BrandInsightsSchema.social_handles record))).
  lia.
Qed.

Lemma ltb_both (a b : nat) :
  Scorer.both_nonzero a b = true -> (0 < a)%nat /\ (0 < b)%nat.
Proof.
  unfold Scorer.both_nonzero. intros H. apply andb_true_iff in H.
  destruct H as [Ha Hb]. apply Nat.ltb_lt in Ha, Hb. now split.
Qed.

(** Every signal is a float between 0 and 1. *)
Lemma signals_unit (A B : BrandInsightsSchema.t) :
  (Z.of_nat (Scorer.catalog_size A + Scorer.catalog_size B) < 2 ^ 53)%Z ->
  List.Forall (within 0 1) (Scorer.signals A B).
Proof.
  intros Hsize. unfold Scorer.signals.
  pose proof (length_type_set_le A) as HtA. pose proof (length_type_set_le B) as HtB.
  apply Forall_app_2; [|apply Forall_app_2].
  - destruct (Scorer.both_nonzero _ _) eqn:E; constructor; [|constructor].
    apply ltb_both in E. unfold Scorer.jaccard_index.
    assert (Hc : (length (Scorer.combined (Scorer.type_set A) (Scorer.type_set B))
                  <= length (Scorer.type_set A) + length (Scorer.type_set B))%nat).
    { unfold Scorer.combined. rewrite length_app.
      pose proof (length_filter_le
                    (fun t => negb (existsb (String.eqb t) (Scorer.type_set A)))
                    (Scorer.type_set B)). lia. }
    apply quotient_unit.
    + unfold Scorer.shared, Scorer.combined. rewrite length_app.
      pose proof (length_filter_le
                    (fun t => existsb (String.eqb t) (Scorer.type_set B))
                    (Scorer.type_set A)). lia.
    + unfold Scorer.combined. rewrite length_app. lia.
    + lia.
  - destruct (Scorer.both_nonzero _ _) eqn:E; constructor; [|constructor].
    apply ltb_both in E.
    pose proof (platform_count_le A). pose proof (platform_count_le B).
    apply quotient_unit; lia.
  - destruct (Scorer.both_nonzero _ _) eqn:E; constructor; [|constructor].
    apply ltb_both in E. apply quotient_unit; lia.
Qed.

Lemma length_signals_le (A B : BrandInsightsSchema.t) :
  (length (Scorer.signals A B) <= 3)%nat.
Proof.
  unfold Scorer.signals. rewrite !length_app.
  repeat destruct (Scorer.both_nonzero _ _); cbn; lia.
Qed.

(** A sum of floats between [lo] and 1, for [lo] 0 or 1, lies between
    [lo] times and once their number. *)
Lemma sum_within (lo : Z) (l : list float) : forall (acc : float) (a b : Z),
  (0 <= lo <= 1)%Z ->
  List.Forall (within lo 1) l ->
  within a b acc -> (b + Z.of_nat (length l) < 2 ^ 53)%Z ->
  within (a + lo * Z.of_nat (length l)) (b + Z.of_nat (length l))
    (fold_left float_add l acc).
Proof.
  induction l as [|x l IH]; intros acc a b Hlo Hall Hacc Hlt.
  - cbn [fold_left length]. apply (within_weaken a b); [lia | lia | exact Hacc].
  - apply List.Forall_cons_iff in Hall. destruct Hall as [Hx Hl].
    cbn [fold_left length] in *. rewrite Nat2Z.inj_succ in *.
    pose proof (float_add_within acc x a b lo 1 Hacc Hx ltac:(lia)) as Hstep.
    pose proof (IH _ _ _ Hlo Hl Hstep ltac:(lia)) as Hrest.
    replace (a + lo * Z.succ (Z.of_nat (length l)))%Z
      with (a + lo + lo * Z.of_nat (length l))%Z by ring.
    replace (b + Z.succ (Z.of_nat (length l)))%Z
      with (b + 1 + Z.of_nat (length l))%Z by ring.
    exact Hrest.
Qed.

Lemma mean_within (lo : Z) (l : list float) :
  (0 <= lo <= 1)%Z -> l <> [] -> (length l <= 3)%nat ->
  List.Forall (within lo 1) l ->
  within lo 1 (Scorer.mean l).
Proof.
  intros Hlo Hne Hlen Hall. destruct l as [|x l]; [congruence|].
  unfold Scorer.mean. set (signals := x :: l) in *.
  assert (H53 : (3 < 2 ^ 53)%Z) by reflexivity.
  assert (Hzero : within 0 0 float_zero) by (cbn; repeat split; lia).
  pose proof (sum_within lo signals float_zero 0 0 Hlo Hall Hzero ltac:(lia)) as Hsum.
  pose proof (number_within (length signals) ltac:(lia)) as Hn.
  pose proof (value_within _ _ _ Hsum) as Vs. pose proof (value_within _ _ _ Hn) as Vn.
  assert (Hpos : (1 <= Z.of_nat (length signals))%Z) by (unfold signals; cbn [length]; lia).
  rewrite !Z.add_0_l, inject_Z_mult in Vs.
  assert (Hexact : value (Scorer.number (length signals))
                   == inject_Z (Z.of_nat (length signals))) by lra.
  apply (float_div_within _ _ _ _ _ _ lo 1 Hsum Hn Hpos); try lia.
  - rewrite Hexact. lra.
  - change (inject_Z 1) with 1. lra.
Qed.

(** C2. For catalogs of fewer than 2^53 products in all, the score the
    code computes in binary64 is the unweighted mean, computed in the same
    arithmetic, of the comparable signals as the specification lists them:
    the Jaccard index of the lower-cased product-type sets, the min/max
    ratio of the platform counts and the min/max ratio of the catalog
    sizes, each present only when both sides have nonzero data for it.
    The score is a finite float whose value lies between 0 and 1; its
    value is 1 when all three signals are comparable and each is 1, the
    float being 1.0 itself when each signal is 1.0; and it is 0.0 when no
    signal is comparable. *)
Theorem calculate_similarity_spec (main_brand competitor : BrandInsightsSchema.t) :
  (Z.of_nat (length (BrandInsightsSchema.product_catalog main_brand)
             + length (BrandInsightsSchema.product_catalog competitor)) < 2 ^ 53)%Z ->
  let score := Binary64._calculate_similarity main_brand competitor in
  let signals := Scorer.signals main_brand competitor in
  score = Scorer.mean signals
  /\ (finite score = true /\ 0 <= value score /\ value score <= 1)
  /\ (length signals = 3%nat -> List.Forall (fun s => value s == 1) signals ->
      value score == 1)
  /\ (signals = [float_one; float_one; float_one] -> score = float_one)
  /\ (signals = [] -> score = float_zero).
Proof.
  intros Hsize score signals.
  assert (Hmean : score = Scorer.mean signals) by apply calculate_similarity_as_mean.
  pose proof (signals_unit main_brand competitor Hsize) as Hunit. fold signals in Hunit.
  pose proof (length_signals_le main_brand competitor) as Hlen. fold signals in Hlen.
  split; [exact Hmean|]. rewrite Hmean. split; [|split; [|split]].
  - destruct signals as [|s rest] eqn:E.
    + cbn. repeat split; lra.
    + assert (Hw : within 0 1 (Scorer.mean (s :: rest)))
        by (apply mean_within; [lia | discriminate | exact Hlen | exact Hunit]).
      pose proof (value_within _ _ _ Hw) as [V0 V1].
      change (inject_Z 0) with 0 in V0. change (inject_Z 1) with 1 in V1.
      split; [exact (within_finite _ _ _ Hw) | now split].
  - intros Hthree Hones.
    assert (Hw : within 1 1 (Scorer.mean signals)).
    { apply mean_within; [lia | | exact Hlen |].
      - intros E. rewrite E in Hthree. discriminate.
      - rewrite List.Forall_forall in *. intros s Hin.
        apply (within_tighten 0 1); [now apply Hunit | |];
          rewrite (Hones s Hin); change (inject_Z 1) with 1; lra. }
    pose proof (value_within _ _ _ Hw) as [V0 V1].
    change (inject_Z 1) with 1 in V0, V1. lra.
  - intros ->. vm_compute. reflexivity.
  - now intros ->.
Qed.

Lemma calculate_similarity_spec_witness :
  let main_brand := brand_with [product_of_type "hats"; product_of_type "caps"] (Some "acme") in
  let competitor := brand_with [product_of_type "hats"] (Some "rival") in
  Binary64._calculate_similarity main_brand competitor
  = Scorer.mean (Scorer.signals main_brand competitor)
  /\ finite (Binary64._calculate_similarity main_brand competitor) = true
  /\ value (Binary64._calculate_similarity main_brand competitor) <= 1.
Proof.
  intros main_brand competitor.
  destruct (calculate_similarity_spec main_brand competitor)
    as (Hmean & (Hfin & _ & Hle) & _).
  - vm_compute. reflexivity.
  - now repeat split.
Defined.

(** The arithmetic is that of the interpreter: one third, a score of
    1.0 and a score of two thirds, bit for bit. *)
Example one_third : Binary64.true_div 1 3 = S754_finite false 6004799503160661 (-54).
Proof. vm_compute. reflexivity. Qed.

Example score_equal :
  Binary64._calculate_similarity
    (brand_with [product_of_type "Hats"; product_of_type "caps"] (Some "acme"))
    (brand_with [product_of_type "CAPS"; product_of_type "hats"] (Some "rival"))
  = float_one.
Proof. vm_compute. reflexivity. Qed.

Example score_partial :
  Binary64._calculate_similarity
    (brand_with [product_of_type "hats"; product_of_type "caps"] (Some "acme"))
    (brand_with [product_of_type "hats"] (Some "rival"))
  = S754_finite false 6004799503160661 (-53).
Proof. vm_compute. reflexivity. Qed.

(** *** The basic summary *)

Section Summary.
Variable format_2f : Q -> string.
Variable format_int : nat -> string.

Lemma generate_basic_summary_empty main_brand :
  _generate_basic_summary format_2f format_int main_brand [] =
  Ok (Some ("No competitors found for analysis of " ++ brand_of main_brand ++ ".")%string).
Proof. reflexivity. Qed.

(** C6 on the code: with at least one competitor the call never returns a
    string.  It returns [None] (the assembled text is dropped because the
    branch has no return statement), or raises when the top competitor has
    no score to format. *)
Theorem generate_basic_summary_nonempty_returns_no_text
    (main_brand : BrandInsightsSchema.t) (first : CompetitorSchema.t)
    (others : list CompetitorSchema.t) :
  let returned :=
    _generate_basic_summary format_2f format_int main_brand (first :: others) in
  (forall text, returned <> Ok (Some text))
  /\ (returned = Ok None \/ returned = Raise TypeError)
  /\ (forall top_score,
        CompetitorSchema.similarity_score (max_by_score first others) = Some top_score ->
        returned = Ok None).
Proof.
  intros returned. unfold returned, _generate_basic_summary.
  destruct (CompetitorSchema.similarity_score (max_by_score first others)) as [q|].
  - split; [intros text; discriminate|]. split; [now left|]. reflexivity.
  - split; [intros text; discriminate|]. split; [now right|]. discriminate.
Qed.

End Summary.

Example generate_basic_summary_one_competitor :
  _generate_basic_summary show_score show_count (brand_with [] None) [one_competitor]
  = Ok None
  /\ assembled_summary show_score show_count (brand_with [] None) one_competitor [] (1 # 2)
     = ("Analyzed 1 competitors for the brand. Average similarity score: 0.50. "
        ++ "Most similar competitor: Rival with similarity score of 0.50.")%string.
Proof. split; reflexivity. Qed.

(** *** Symmetry, advantages and the search for competitors *)

Lemma jaccard_sym (A B : gset string) : jaccard A B = jaccard B A.
Proof.
  unfold jaccard. now rewrite (comm_L (∩) A B), (comm_L (∪) A B).
Qed.

Lemma min_max_ratio_sym (a b : nat) : min_max_ratio a b = min_max_ratio b a.
Proof. unfold min_max_ratio. now rewrite Nat.min_comm, Nat.max_comm. Qed.

Lemma comparable_signals_sym main_brand competitor :
  comparable_signals main_brand competitor = comparable_signals competitor main_brand.
Proof.
  unfold comparable_signals. cbv zeta.
  rewrite (jaccard_sym (product_types (BrandInsightsSchema.product_catalog main_brand))).
  rewrite (min_max_ratio_sym (platforms (BrandInsightsSchema.social_handles main_brand))).
  rewrite (min_max_ratio_sym (length (BrandInsightsSchema.product_catalog main_brand))).
  rewrite (andb_comm (0 <? size (product_types (BrandInsightsSchema.product_catalog main_brand)))%nat).
  rewrite (andb_comm (0 <? platforms (BrandInsightsSchema.social_handles main_brand))%nat).
  rewrite (andb_comm (0 <? length (BrandInsightsSchema.product_catalog main_brand))%nat).
  reflexivity.
Qed.

(** X25. The similarity score does not depend on which of the two
    brands is the main one. *)
Theorem calculate_similarity_symmetric (main_brand competitor : BrandInsightsSchema.t) :
  _calculate_similarity main_brand competitor == _calculate_similarity competitor main_brand.
Proof.
  rewrite !calculate_similarity_mean. now rewrite comparable_signals_sym.
Qed.

Lemma inject_nat_nonneg (n : nat) : 0 <= inject_Z (Z.of_nat n).
Proof. change 0 with (inject_Z 0). rewrite <- Zle_Qle. lia. Qed.

Lemma exceeds_by_half_asym (a b : nat) :
  exceeds_by_half a b = true -> exceeds_by_half b a = false.
Proof.
  unfold exceeds_by_half. intros H.
  apply negb_true_iff in H. apply negb_false_iff, Qle_bool_iff.
  assert (Hab : ~ inject_Z (Z.of_nat a) <= inject_Z (Z.of_nat b) * (3 # 2)).
  { intros Hle. apply Qle_bool_iff in Hle. congruence. }
  pose proof (inject_nat_nonneg a). pose proof (inject_nat_nonneg b).
  apply Qnot_le_lt in Hab. lra.
Qed.

Lemma exceeds_by_half_irrefl (a : nat) : exceeds_by_half a a = false.
Proof.
  unfold exceeds_by_half. apply negb_false_iff, Qle_bool_iff.
  pose proof (inject_nat_nonneg a). lra.
Qed.

Lemma ltb_asym (a b : nat) : (a <? b)%nat = true -> (b <? a)%nat = false.
Proof. intros H. apply Nat.ltb_lt in H. apply Nat.ltb_ge. lia. Qed.

Ltac settle_flag H :=
  match type of H with
  | ?c = true -> ?d = false =>
      destruct c; [rewrite (H eq_refl) | destruct d]; clear H
  end.

(** X26. At most four advantages are reported, each once; an advantage
    of the competitor over the main brand is never also one of the main
    brand over the competitor, and a brand has none over itself. *)
Theorem identify_competitive_advantages_one_sided
    (main_brand competitor : BrandInsightsSchema.t) :
  let advantages := _identify_competitive_advantages main_brand competitor in
  (length advantages <= 4)%nat
  /\ List.NoDup advantages
  /\ (forall advantage, In advantage advantages ->
        ~ In advantage (_identify_competitive_advantages competitor main_brand))
  /\ _identify_competitive_advantages main_brand main_brand = [].
Proof.
  cbv zeta. unfold _identify_competitive_advantages.
  rewrite !exceeds_by_half_irrefl, !Nat.ltb_irrefl.
  pose proof (exceeds_by_half_asym
                (length (BrandInsightsSchema.product_catalog competitor))
                (length (BrandInsightsSchema.product_catalog main_brand))) as H1.
  pose proof (ltb_asym (platforms (BrandInsightsSchema.social_handles main_brand))
                (platforms (BrandInsightsSchema.social_handles competitor))) as H2.
  pose proof (ltb_asym (policies_present main_brand) (policies_present competitor)) as H3.
  pose proof (exceeds_by_half_asym
                (length (BrandInsightsSchema.faqs competitor))
                (length (BrandInsightsSchema.faqs main_brand))) as H4.
  settle_flag H1; settle_flag H2; settle_flag H3; settle_flag H4;
    (split; [cbn; lia |
     split; [cbn; repeat constructor; cbn; intuition discriminate |
     split; [cbn; intros advantage Hin Hback; intuition (subst; discriminate)
            | reflexivity]]]).
Qed.

Local Open Scope Z_scope.

Lemma length_firstn_le {A} (n : nat) (l : list A) : (length (firstn n l) <= n)%nat.
Proof. rewrite length_firstn. lia. Qed.

Section Competitors.
Variable extract_insights : string -> result BrandInsightsSchema.t.
Variable get_page_content : string -> result (option string).
Variable netloc : string -> string.
Variable findall_words : string -> list string.
Variable set_to_list : gset string -> list string.

Local Abbreviation analyze := (_analyze_single_competitor extract_insights).
Local Abbreviation queries_of := (_generate_search_queries findall_words set_to_list).
Local Abbreviation validate := (_validate_competitor_url get_page_content).
Local Abbreviation find :=
  (_find_competitors get_page_content netloc findall_words set_to_list).

(** X27. A competitor whose extraction succeeds is always reported: the
    range check on the score field never rejects the computed score.  A
    competitor whose extraction raises is dropped. *)
Theorem analyze_single_competitor_never_rejects_score
    (competitor_url : string) (main_brand_insights : BrandInsightsSchema.t) :
  match extract_insights competitor_url with
  | Ok competitor_insights =>
      analyze competitor_url main_brand_insights
      = Some (CompetitorSchema.mk
                (BrandInsightsSchema.brand_name competitor_insights)
                competitor_url competitor_insights
                (Some (_calculate_similarity main_brand_insights competitor_insights))
                (_identify_competitive_advantages main_brand_insights competitor_insights))
  | Raise _ => analyze competitor_url main_brand_insights = None
  end.
Proof.
  unfold _analyze_single_competitor.
  destruct (extract_insights competitor_url) as [competitor_insights|e]; [|reflexivity].
  unfold competitor_schema.
  pose proof (calculate_similarity_mean main_brand_insights competitor_insights) as Hmean.
  destruct (mean_unit _ (comparable_signals_unit main_brand_insights competitor_insights))
    as [H0 H1].
  rewrite <- Hmean in H0, H1.
  apply Qle_bool_iff in H0, H1. now rewrite H0, H1.
Qed.

(** X28. Between one and four search queries are generated, and a brand
    without context and without products gets the default query alone. *)
Theorem generate_search_queries_bounds (brand_insights : BrandInsightsSchema.t) :
  let queries := queries_of brand_insights in
  (1 <= length queries <= 4)%nat
  /\ (BrandInsightsSchema.brand_context brand_insights = None ->
      BrandInsightsSchema.product_catalog brand_insights = [] ->
      queries = ["shopify ecommerce store"]).
Proof.
  cbv zeta. unfold _generate_search_queries. split.
  - set (from_context := match BrandInsightsSchema.brand_context brand_insights with
                         | Some _ => _ | None => _ end).
    assert (Hctx : (length from_context <= 1)%nat).
    { unfold from_context.
      destruct (BrandInsightsSchema.brand_context brand_insights) as [ctx|]; [|cbn; lia].
      destruct (str_truthy ctx); [|cbn; lia].
      destruct (nonempty _); cbn; lia. }
    set (queries := if nonempty (BrandInsightsSchema.product_catalog brand_insights)
                    then _ else _).
    assert (Hq : (length queries <= 4)%nat).
    { unfold queries. destruct (nonempty _); [|lia].
      rewrite length_app, length_map.
      pose proof (length_firstn_le 3
        (set_to_list (product_types
           (firstn 10 (BrandInsightsSchema.product_catalog brand_insights))))).
      lia. }
    destruct queries as [|q qs]; cbn in *; lia.
  - intros -> ->. reflexivity.
Qed.


Lemma search_loop_sound (P : string -> Prop) max_competitors :
  P "https://colourpop.com" -> P "https://gymshark.com" ->
  forall queries competitors,
    List.Forall P competitors ->
    List.Forall P (search_loop max_competitors queries competitors)
    /\ (length (search_loop max_competitors queries competitors)
        <= length competitors + 2 * length queries)%nat.
Proof.
  intros Hc Hg. induction queries as [|query rest IH]; intros competitors Hall.
  - cbn. split; [exact Hall | lia].
  - cbn [search_loop].
    assert (Hext : List.Forall P (competitors ++ _search_for_competitors query)).
    { apply List.Forall_app. split; [exact Hall|]. cbn. repeat constructor; assumption. }
    assert (Hlen : length (competitors ++ _search_for_competitors query)
                   = (length competitors + 2)%nat).
    { rewrite length_app. reflexivity. }
    destruct (_ >=? _).
    + split; [exact Hext|]. rewrite Hlen. cbn [length]. lia.
    + destruct (IH _ Hext) as [IH1 IH2]. split; [exact IH1|].
      rewrite Hlen in IH2. cbn [length]. lia.
Qed.

Lemma validation_loop_sound (P : string -> Prop) max_competitors main_domain :
  forall competitors valid_competitors,
    List.Forall P competitors ->
    List.Forall (fun url => P url /\ netloc url <> main_domain /\ validate url = true)
      valid_competitors ->
    let found := validation_loop get_page_content netloc max_competitors main_domain
                   competitors valid_competitors in
    List.Forall (fun url => P url /\ netloc url <> main_domain /\ validate url = true) found
    /\ (length found <= length valid_competitors + length competitors)%nat
    /\ Z.of_nat (length found) <= Z.max (Z.of_nat (length valid_competitors)) max_competitors.
Proof.
  induction competitors as [|url rest IH]; intros valid Hcand Hvalid; cbv zeta.
  - cbn. split; [exact Hvalid | lia].
  - cbn [validation_loop].
    apply List.Forall_cons_iff in Hcand. destruct Hcand as [Hurl Hrest].
    destruct (Z.of_nat (length valid) >=? max_competitors) eqn:Efull.
    { split; [exact Hvalid | cbn [length]; lia]. }
    rewrite Z.geb_leb in Efull. apply Z.leb_gt in Efull.
    destruct (String.eqb_spec (netloc url) main_domain) as [Esame|Hdiff].
    { destruct (IH valid Hrest Hvalid) as (H1 & H2 & H3).
      split; [exact H1 | cbn [length]; lia]. }
    destruct (validate url) eqn:Eok.
    + assert (Hvalid' : List.Forall
                (fun url => P url /\ netloc url <> main_domain /\ validate url = true)
                (valid ++ [url])).
      { apply List.Forall_app. split; [exact Hvalid|]. now repeat constructor. }
      destruct (IH (valid ++ [url]) Hrest Hvalid') as (H1 & H2 & H3).
      rewrite length_app in H2, H3. cbn [length] in *.
      split; [exact H1 | lia].
    + destruct (IH valid Hrest Hvalid) as (H1 & H2 & H3).
      split; [exact H1 | cbn [length]; lia].
Qed.

Lemma find_industry_competitors_le brand_insights :
  (length (_find_industry_competitors brand_insights) <= 2)%nat.
Proof.
  unfold _find_industry_competitors.
  destruct (BrandInsightsSchema.brand_context brand_insights) as [ctx|]; [|cbn; lia].
  destruct (str_truthy ctx); [|cbn; lia].
  cbn. repeat (destruct (contains _ _); [cbn; lia|]). cbn. lia.
Qed.

(** X29. Every competitor found is one of the two first sample stores
    or a store of the matching industry, is on another host than the main
    brand and served a page of more than 1000 characters; there are at
    most [max_competitors] of them, and never more than eight. *)
Theorem find_competitors_sound (main_brand_url : string)
    (main_brand_insights : BrandInsightsSchema.t) (max_competitors : Z) :
  let found := find main_brand_url main_brand_insights max_competitors in
  List.Forall (fun url => candidate main_brand_insights url
                          /\ netloc url <> netloc main_brand_url
                          /\ validate url = true) found
  /\ Z.of_nat (length found) <= Z.max 0 max_competitors
  /\ (length found <= 8)%nat.
Proof.
  cbv zeta. unfold _find_competitors.
  set (queries := firstn 3 (queries_of main_brand_insights)).
  destruct (search_loop_sound (candidate main_brand_insights) max_competitors
              (or_introl eq_refl) (or_intror (or_introl eq_refl)) queries []
              (List.Forall_nil _)) as [Hsearch Hlen].
  assert (Hcand : List.Forall (candidate main_brand_insights)
                    (search_loop max_competitors queries []
                     ++ _find_industry_competitors main_brand_insights)).
  { apply List.Forall_app. split; [exact Hsearch|].
    apply List.Forall_forall. intros url Hin. right. now right. }
  destruct (validation_loop_sound (candidate main_brand_insights) max_competitors
              (netloc main_brand_url) _ [] Hcand (List.Forall_nil _)) as (H1 & H2 & H3).
  split; [exact H1|]. split; [exact H3|].
  rewrite length_app in H2.
  pose proof (find_industry_competitors_le main_brand_insights).
  pose proof (length_firstn_le 3 (queries_of main_brand_insights)).
  fold queries in H0. cbn [length] in *. lia.
Qed.

End Competitors.

(** The candidates are not deduplicated. *)
Example find_competitors_repeats_stores :
  _find_competitors long_page ValidatorsSpec.host_of no_words elements
    "https://shop.example" three_kinds 5
  = ["https://colourpop.com"; "https://gymshark.com"; "https://colourpop.com";
     "https://gymshark.com"; "https://colourpop.com"].
Proof. vm_compute. reflexivity. Qed.

(** *** The analysis as a whole *)

Lemma max_by_score_In best rest : In (max_by_score best rest) (best :: rest).
Proof.
  revert best. induction rest as [|c rest IH]; intros best; [now left|].
  cbn [max_by_score]. destruct (Qle_bool _ _).
  - destruct (IH best) as [H|H]; [now left | right; now right].
  - right. apply IH.
Qed.

Lemma generate_basic_summary_scored format_2f format_int main_brand competitors :
  competitors <> [] ->
  List.Forall (fun c => CompetitorSchema.similarity_score c <> None) competitors ->
  _generate_basic_summary format_2f format_int main_brand competitors = Ok None.
Proof.
  intros Hne Hall. destruct competitors as [|first others]; [congruence|].
  unfold _generate_basic_summary.
  rewrite List.Forall_forall in Hall. specialize (Hall _ (max_by_score_In first others)).
  now destruct (CompetitorSchema.similarity_score (max_by_score first others)).
Qed.

Lemma imap_unchanged {A} (f : nat -> A -> A) (l : list A) :
  (forall i x, f i x = x) -> imap f l = l.
Proof.
  revert f. induction l as [|x l IH]; intros f Hf; [reflexivity|].
  cbn [imap]. rewrite Hf, IH; [reflexivity|]. intros i y. apply Hf.
Qed.

Lemma with_advantages_keeps advantages i c :
  CompetitorSchema.website_url (with_advantages advantages i c)
  = CompetitorSchema.website_url c
  /\ CompetitorSchema.similarity_score (with_advantages advantages i c)
     = CompetitorSchema.similarity_score c.
Proof. unfold with_advantages. now destruct (nth_error advantages i). Qed.

Lemma imap_with_advantages (g : nat -> nat) advantages l :
  map CompetitorSchema.website_url (imap (fun i => with_advantages advantages (g i)) l)
  = map CompetitorSchema.website_url l
  /\ map CompetitorSchema.similarity_score (imap (fun i => with_advantages advantages (g i)) l)
     = map CompetitorSchema.similarity_score l.
Proof.
  revert g. induction l as [|c l IH]; intros g; [now split|].
  cbn [imap map]. destruct (with_advantages_keeps advantages (g 0%nat) c) as [-> ->].
  destruct (IH (g ∘ S)) as [IH1 IH2]. unfold compose in *. now rewrite IH1, IH2.
Qed.

Section Analysis.
Variable extract_insights : string -> result BrandInsightsSchema.t.
Variable get_page_content : string -> result (option string).
Variable netloc : string -> string.
Variable findall_words : string -> list string.
Variable set_to_list : gset string -> list string.
Variable client : option (string -> result (option string)).
Variable analysis_prompt : string -> string -> string.
Variable _extract_advantages : string -> list string.
Variable format_2f : Q -> string.
Variable format_int : nat -> string.
Variable now : Z.

Local Abbreviation analyze := (_analyze_single_competitor extract_insights).
Local Abbreviation find :=
  (_find_competitors get_page_content netloc findall_words set_to_list).

Lemma analyze_single_competitor_scored url main c :
  analyze url main = Some c -> CompetitorSchema.similarity_score c <> None.
Proof.
  unfold _analyze_single_competitor, competitor_schema.
  destruct (extract_insights url) as [ci|e]; [|discriminate].
  destruct (_ && _); [|discriminate]. now intros [= <-].
Qed.

Lemma analysed_scored urls main :
  List.Forall (fun c => CompetitorSchema.similarity_score c <> None)
    (omap (fun result => result) (map (fun url => analyze url main) urls)).
Proof.
  induction urls as [|url urls IH]; [constructor|].
  cbn [map omap]. destruct (analyze url main) as [c|] eqn:E; [|exact IH].
  constructor; [|exact IH]. now apply (analyze_single_competitor_scored url main).
Qed.

Lemma scored_map l l' :
  map CompetitorSchema.similarity_score l' = map CompetitorSchema.similarity_score l ->
  List.Forall (fun c => CompetitorSchema.similarity_score c <> None) l ->
  List.Forall (fun c => CompetitorSchema.similarity_score c <> None) l'.
Proof.
  revert l'. induction l as [|c l IH]; intros [|c' l'] E H; try discriminate; [constructor|].
  injection E as Ec El. apply List.Forall_cons_iff in H. destruct H as [Hc Hl].
  constructor; [congruence | now apply IH].
Qed.

(** X30. Once the main brand has been extracted the analysis returns a
    response for it, with the competitors that could be analysed.  Its
    summary is the "No competitors found" sentence when there are none;
    with competitors it is missing when no language model is configured,
    and it is the error text of the language-model step when one is
    configured and the main brand has no context. *)
Theorem analyze_competitors_summary (main_brand_url : string) (max_competitors : Z)
    (main_brand_insights : BrandInsightsSchema.t) :
  extract_insights main_brand_url = Ok main_brand_insights ->
  let analysed :=
    omap (fun result => result)
      (map (fun url => analyze url main_brand_insights)
         (find main_brand_url main_brand_insights max_competitors)) in
  exists response,
    analyze_competitors extract_insights get_page_content netloc findall_words
      set_to_list client analysis_prompt _extract_advantages format_2f format_int now
      main_brand_url max_competitors = Ok response
    /\ CompetitorAnalysisResponse.main_brand response = main_brand_insights
    /\ map CompetitorSchema.website_url (CompetitorAnalysisResponse.competitors response)
       = map CompetitorSchema.website_url analysed
    /\ (analysed = [] ->
        CompetitorAnalysisResponse.competitors response = []
        /\ CompetitorAnalysisResponse.analysis_summary response
           = Some ("No competitors found for analysis of "
                   ++ brand_of main_brand_insights ++ ".")%string)
    /\ (analysed <> [] -> client = None ->
        CompetitorAnalysisResponse.competitors response = analysed
        /\ CompetitorAnalysisResponse.analysis_summary response = None)
    /\ (analysed <> [] -> client <> None ->
        BrandInsightsSchema.brand_context main_brand_insights = None ->
        CompetitorAnalysisResponse.competitors response = analysed
        /\ CompetitorAnalysisResponse.analysis_summary response
           = Some "Error performing competitive analysis").
Proof.
  intros Hmain analysed. unfold analyze_competitors. rewrite Hmain. cbn [bind].
  fold analysed.
  pose proof (analysed_scored (find main_brand_url main_brand_insights max_competitors)
                main_brand_insights) as Hscored.
  fold analysed in Hscored.
  destruct analysed as [|first others] eqn:Ea.
  - rewrite andb_false_r. cbn.
    eexists. split; [reflexivity|]. cbn.
    split; [reflexivity|]. split; [reflexivity|]. split; [now split|].
    split; intros; congruence.
  - rewrite <- Ea in *. assert (Hne : analysed <> []) by (rewrite Ea; discriminate).
    assert (Hnonempty : nonempty analysed = true) by now rewrite Ea.
    rewrite Hnonempty, andb_true_r. clear Ea.
    destruct client as [chat|]; cbn [LLMProcessor.is_available].
    + remember (LLMProcessor.analyze_competitors (Some chat) analysis_prompt
                  _extract_advantages main_brand_insights
                  (map CompetitorSchema.insights analysed)) as llm eqn:Ellm.
      set (advantages := match LLMProcessor.competitive_advantages llm with
                         | Some a => a | None => [] end).
      assert (Hkeep :
        map CompetitorSchema.website_url (imap (with_advantages advantages) analysed)
        = map CompetitorSchema.website_url analysed
        /\ map CompetitorSchema.similarity_score (imap (with_advantages advantages) analysed)
           = map CompetitorSchema.similarity_score analysed)
        by exact (imap_with_advantages (fun i => i) advantages analysed).
      destruct Hkeep as [Hurls Hscores].
      pose proof (scored_map _ _ Hscores Hscored) as Hscored'.
      assert (Hne' : imap (with_advantages advantages) analysed <> []).
      { intros E. rewrite E in Hurls. destruct analysed; [congruence | discriminate]. }
      assert (Hctx : BrandInsightsSchema.brand_context main_brand_insights = None ->
                     llm = {| LLMProcessor.analysis_summary :=
                                "Error performing competitive analysis";
                              LLMProcessor.competitive_advantages := None |}).
      { intros Hnone. rewrite Ellm.
        unfold LLMProcessor.analyze_competitors, LLMProcessor.brand_summary.
        now rewrite Hnone. }
      destruct (opt_truthy (Some (LLMProcessor.analysis_summary llm))) eqn:Et.
      * cbn [bind]. eexists. split; [reflexivity|]. cbn.
        split; [reflexivity|]. split; [exact Hurls|]. split; [congruence|].
        split; [intros _ [=]|]. intros _ _ Hnone.
        unfold advantages. rewrite (Hctx Hnone). cbn.
        split; [|reflexivity]. apply imap_unchanged. now intros [|i] x.
      * rewrite (generate_basic_summary_scored _ _ _ _ Hne' Hscored'). cbn [bind].
        eexists. split; [reflexivity|]. cbn.
        split; [reflexivity|]. split; [exact Hurls|]. split; [congruence|].
        split; [intros _ [=]|]. intros _ _ Hnone.
        rewrite (Hctx Hnone) in Et. discriminate Et.
    + cbn [opt_truthy].
      rewrite (generate_basic_summary_scored _ _ _ _ Hne Hscored). cbn [bind].
      eexists. split; [reflexivity|]. cbn.
      split; [reflexivity|]. split; [reflexivity|]. split; [congruence|].
      split; [now split | congruence].
Qed.

End Analysis.


Lemma analyze_competitors_summary_witness :
  exists response,
    analyze_competitors brand_found long_page ValidatorsSpec.host_of no_words elements
      None (fun main others => main) (fun text => []) show_score show_count 1700000000
      "https://shop.example" 2 = Ok response
    /\ length (CompetitorAnalysisResponse.competitors response) = 2%nat
    /\ CompetitorAnalysisResponse.analysis_summary response = None.
Proof.
  destruct (analyze_competitors_summary brand_found long_page ValidatorsSpec.host_of
              no_words elements None (fun main others => main) (fun text => [])
              show_score show_count 1700000000 "https://shop.example" 2 three_kinds
              eq_refl)
    as (response & Hrun & _ & _ & _ & Hnone & _).
  exists response. split; [exact Hrun|].
  assert (Hne : omap (fun result => result)
                  (map (fun url => _analyze_single_competitor brand_found url three_kinds)
                     (_find_competitors long_page ValidatorsSpec.host_of no_words elements
                        "https://shop.example" three_kinds 2)) <> []).
  { vm_compute. discriminate. }
  destruct (Hnone Hne eq_refl) as [-> ->]. split; [|reflexivity].
  vm_compute. reflexivity.
Defined.

End CompetitorAnalyzerFacts.

